(** * CDP-Class-Table: the browser pool, the session registry and the
      timetable extraction of [src/main.py], embedded in Rocq.

    Conventions of the embedding.
    - A Python [str] is a [string] holding its UTF-8 bytes; joining and
      substring search on the bytes agree with the same operations on the
      code points.
    - A Python [int] is a [Z]; a wall-clock reading of [time.time()] is a
      [Z] too (a number of seconds): only the order of two readings and
      their difference are used by the code.
    - A [dict] is a [gmap]; the insertion order of its keys is not modelled.
    - A browser instance is known by its identity [id(driver)].
    - What the browser shows (a page, an alert, a timeout) is an input of
      the function that reads it. *)

From stdpp Require Import gmap strings list fin_maps pretty.

Local Open Scope Z_scope.

(** ** Python values *)

Module Py.

(** Truth value of a [str]: the empty string is false. *)
Definition truthy (s : string) : bool := bool_decide (s ≠ "").

(** [a or b] on strings. *)
Definition or_else (a b : string) : string := if truthy a then a else b.

(** [sep.join(parts)]. *)
Definition join (sep : string) (parts : list string) : string :=
  String.concat sep parts.

(** [t in s] for two strings: [t] occurs in [s] at some position. *)
Fixpoint contains (t s : string) : bool :=
  String.prefix t s ||
  match s with
  | EmptyString => false
  | String _ s' => contains t s'
  end.

(** What [t in s] decides: [t] lies between two parts of [s]. *)
Definition occurs_in (t s : string) : Prop := ∃ a b, s = a +:+ t +:+ b.

(** The line feed. *)
Definition newline : Ascii.ascii := Ascii.ascii_of_nat 10.

(** Truth value of a value that is [None] or a [str]. *)
Definition truthy_opt (o : option string) : bool :=
  match o with
  | Some s => truthy s
  | None => false
  end.

(** [s.replace(c, "")] for a one-character [c]. *)
Fixpoint remove_char (c : Ascii.ascii) (s : string) : string :=
  match s with
  | EmptyString => EmptyString
  | String a s' =>
      if decide (a = c) then remove_char c s' else String a (remove_char c s')
  end.

(** Exceptions: the HTTP error a handler raises on purpose, and every
    other exception with its class and its message [str(e)]. *)
Inductive exn_class :=
  | SessionNotCreatedException
  | WebDriverException
  | TimeoutException
  | IndexError
  | KeyError.

Inductive exn :=
  | HTTPException (status_code : Z) (detail : string)
  | Error (cls : exn_class) (msg : string).

(** [str(e)]; an [HTTPException] prints its status and its detail. *)
Definition str (e : exn) : string :=
  match e with
  | HTTPException c d => pretty c +:+ ": " +:+ d
  | Error _ m => m
  end.

Inductive result (A : Type) :=
  | Ok (a : A)
  | Raise (e : exn).
Arguments Ok {A} a.
Arguments Raise {A} e.

#[global] Instance exn_class_eq_dec : EqDecision exn_class.
Proof. solve_decision. Defined.
#[global] Instance exn_eq_dec : EqDecision exn.
Proof. solve_decision. Defined.

End Py.

Import Py.

(** ** The timetable grid *)

Module Grid.

(** A [span] of a course block: its CSS classes and [get_text(strip=True)]. *)
Record span := Span { span_class : list string; span_text : string }.

(** A [td]: its stripped text, and the spans (in document order) of its
    first [div] of class [courseInfo], when it has one. *)
Record cell := Cell {
  cell_text : string;
  cell_course_info : option (list span)
}.

(** [row.find_all("td")] and [table.find_all("tr")]. *)
Definition row := list cell.
Definition table := list row.

(** [course_info.find("span")]: the first span whatever its class. *)
Definition find_span (info : list span) : option span := head info.

(** [course_info.find("span", class_=c)]: the first span carrying [c]. *)
Definition find_span_class (c : string) (info : list span) : option span :=
  snd <$> list_find (λ s, c ∈ span_class s) info.

Definition text_of (s : option span) : string :=
  match s with
  | Some sp => span_text sp
  | None => ""
  end.

Definition course_name (info : list span) : string := text_of (find_span info).
Definition class_info (info : list span) : string :=
  text_of (find_span_class "teachCls" info).
Definition teacher (info : list span) : string :=
  text_of (find_span_class "teacher" info).
Definition location (info : list span) : string :=
  text_of (find_span_class "place" info).

(** [if x: content_parts.append(x)]. *)
Definition append_if (parts : list string) (x : string) : list string :=
  if truthy x then parts ++ [x] else parts.

Definition parse_course_content (c : cell) : option string :=
  match cell_course_info c with
  | None => None
  | Some info =>
      let content_parts := [] in
      let content_parts := append_if content_parts (course_name info) in
      let content_parts := append_if content_parts (class_info info) in
      let content_parts := append_if content_parts (teacher info) in
      let content_parts := append_if content_parts (location info) in
      let content := join " " content_parts in
      if truthy content then Some content else None
  end.

(** The four fields of a block, in the order they are composed. *)
Definition fields (info : list span) : list string :=
  [course_name info; class_info info; teacher info; location info].

Definition nonempty (parts : list string) : list string :=
  filter (λ s, s ≠ "") parts.


End Grid.

(** ** The dropdown datasets *)

Module Dataset.

(** One entry of [mini.get(..).getData()]: a JavaScript object read as a
    [dict] with text fields, and its rendering [str(opt)]. *)
Record opt := Opt { opt_fields : gmap string string; opt_str : string }.

(** [opt.get(k)], read where only its truth value and its text matter: a
    missing key ([None]) and an empty text are both false. *)
Definition get (o : opt) (k : string) : string := default "" (opt_fields o !! k).

Definition val_name (o : opt) : string * string :=
  (or_else (or_else (or_else (or_else (get o "weekId") (get o "id"))
                             (get o "value")) (get o "semId")) "",
   or_else (or_else (or_else (or_else (get o "weekName") (get o "name"))
                             (get o "text")) (get o "semName")) (opt_str o)).

(** [all_semesters_meta]: the pairs [sem_id], [sem_name]. *)
Definition all_semesters_meta (sem_options : list opt) : list (string * string) :=
  val_name <$> sem_options.

(** The label of the running term, from [now.year] and [now.month]. *)
Definition target_names (year month : Z) : list string :=
  if bool_decide (9 ≤ month) then
    [pretty year +:+ "-" +:+ pretty (year + 1) +:+ "学年秋季学期"]
  else if bool_decide (3 ≤ month) then
    [pretty (year - 1) +:+ "-" +:+ pretty year +:+ "学年春季学期"]
  else
    [pretty (year - 1) +:+ "-" +:+ pretty year +:+ "学年秋季学期"].

(** [any(t in sem_name for t in target_names)]. *)
Definition matches (targets : list string) (sem_name : string) : bool :=
  existsb (λ t, contains t sem_name) targets.

(** The loop over [sem_options] that stops at the first match. *)
Fixpoint find_current (targets : list string) (sem_options : list opt)
  : option string :=
  match sem_options with
  | [] => None
  | sem :: rest =>
      let sem_name := (val_name sem).2 in
      if matches targets sem_name then Some sem_name
      else find_current targets rest
  end.

(** [current_sem_name] of [get_timetable], returned as [default_semester]. *)
Definition default_semester (year month : Z) (sem_options : list opt)
  : option string :=
  match find_current (target_names year month) sem_options with
  | Some n => Some n
  | None =>
      match all_semesters_meta sem_options with
      | m :: _ => Some m.2
      | [] => None
      end
  end.

(** [default_week]: the name of the first week, if any. *)
Definition default_week (week_options : list opt) : option string :=
  match week_options with
  | w :: _ => Some (val_name w).2
  | [] => None
  end.

(** The loop that looks [req.sem_id] up, stopping at the first match. *)
Fixpoint matched_sem (sem_id : string) (sem_options : list opt)
  : option (string * string) :=
  match sem_options with
  | [] => None
  | sem :: rest =>
      let '(sem_value, sem_name) := val_name sem in
      if decide (sem_value = sem_id) then Some (sem_value, sem_name)
      else matched_sem sem_id rest
  end.

End Dataset.

(** ** Extraction of the weeks of a semester *)

Module Extract.

Import Grid Dataset.

Record course := Course { period : string; content : string }.

(** [days]: the header texts without the leading label column. *)
Definition days_of (header : row) : list string := drop 1 (cell_text <$> header).

(** [{day: [] for day in days}]. *)
Definition empty_courses (days : list string) : gmap string (list course) :=
  list_to_map ((λ d, (d, [])) <$> days).

(** [for i, cell in enumerate(cells[1:])], from index [i] on. *)
Fixpoint parse_cells (days : list string) (period : string) (i : nat)
    (cells : list cell) (week_courses : gmap string (list course))
  : result (gmap string (list course)) :=
  match cells with
  | [] => Ok week_courses
  | c :: rest =>
      match parse_course_content c with
      | Some content =>
          if truthy content then
            match days !! i with
            | None => Raise (Error IndexError "list index out of range")
            | Some day =>
                match week_courses !! day with
                | None => Raise (Error KeyError day)
                | Some l =>
                    parse_cells days period (S i) rest
                      (<[day := l ++ [Course period content]]> week_courses)
                end
            end
          else parse_cells days period (S i) rest week_courses
      | None => parse_cells days period (S i) rest week_courses
      end
  end.

(** [for row in table.find_all("tr")[1:]]. *)
Fixpoint parse_rows (days : list string) (rows : list row)
    (week_courses : gmap string (list course))
  : result (gmap string (list course)) :=
  match rows with
  | [] => Ok week_courses
  | cells :: rest =>
      match cells with
      | [] => parse_rows days rest week_courses
      | c0 :: cells1 =>
          let period := remove_char newline (cell_text c0) in
          match parse_cells days period 0 cells1 week_courses with
          | Ok wc => parse_rows days rest wc
          | Raise e => Raise e
          end
      end
  end.

(** The grid of a table that has a first row. *)
Definition parse_grid (header : row) (body : list row)
  : result (gmap string (list course)) :=
  let days := days_of header in
  parse_rows days body (empty_courses days).

(** What the browser shows after the selectors of one week are set. *)
Inductive alert_state := NoAlertPresent | AlertPresent (text : string).

Record week_obs := WeekObs {
  script_ok : bool;               (* [execute_script] returned *)
  alert : alert_state;            (* [driver.switch_to.alert] *)
  grid_rendered : bool;           (* the 5 s wait for a course block *)
  page_table : option table       (* [soup.find("table", {"id": "table"})] *)
}.

Definition close_alert_if_present (a : alert_state) : option string :=
  match a with
  | AlertPresent alert_text => Some alert_text
  | NoAlertPresent => None
  end.

Record week_result := WeekResult {
  week_id : string;
  week_name : string;
  courses : gmap string (list course)
}.

(** The script that sets both selectors. *)
Record selector_script := SelectorScript {
  set_sem : string * string;
  set_week : string * string
}.

(** One turn of the loop: [Ok None] is [continue]. *)
Definition extract_week (wopt : opt) (o : week_obs)
  : result (option week_result) :=
  let '(week_value, week_name) := val_name wopt in
  if negb (script_ok o) then Ok None
  else
    let alert_text := close_alert_if_present (alert o) in
    if truthy_opt alert_text then Ok None
    else if negb (grid_rendered o) then Ok None
    else
      match page_table o with
      | None | Some [] => Ok None
      | Some (header :: body) =>
          match parse_grid header body with
          | Ok week_courses =>
              Ok (Some (WeekResult week_value week_name week_courses))
          | Raise e => Raise e
          end
      end.

(** [for widx, wopt in enumerate(week_options[:total_weeks])], from index
    [widx] on; [browser n] is what the browser shows in turn [n]. The
    scripts sent so far are returned with the result. The call of
    [gc.collect()] every other turn changes nothing here and is left out. *)
Fixpoint weeks_loop (sem : string * string) (browser : nat → week_obs)
    (widx : nat) (ws : list opt)
    (scripts : list selector_script) (semester_weeks : list week_result)
  : list selector_script * result (list week_result) :=
  match ws with
  | [] => (scripts, Ok semester_weeks)
  | wopt :: rest =>
      let scripts := scripts ++ [SelectorScript sem (val_name wopt)] in
      match extract_week wopt (browser widx) with
      | Ok None => weeks_loop sem browser (S widx) rest scripts semester_weeks
      | Ok (Some r) =>
          weeks_loop sem browser (S widx) rest scripts (semester_weeks ++ [r])
      | Raise e => (scripts, Raise e)
      end
  end.

Record weeks_response := WeeksResponse {
  resp_sem_id : string;
  resp_sem_name : string;
  resp_weeks : list week_result
}.

(** [week_options[:total_weeks]] with [total_weeks = max(1, req.max_weeks)]. *)
Definition week_prefix (max_weeks : Z) (week_options : list opt) : list opt :=
  take (Z.to_nat (Z.max 1 max_weeks)) week_options.

(** From the validation of [req.sem_id] to the response: the part that the
    session path and the standalone path of [get_semester_weeks] share. *)
Definition semester_weeks (sem_options week_options : list opt)
    (sem_id : string) (max_weeks : Z) (browser : nat → week_obs)
  : list selector_script * result weeks_response :=
  match matched_sem sem_id sem_options with
  | None => ([], Raise (HTTPException 400 "无效的 sem_id"))
  | Some (sem_value, sem_name) =>
      match weeks_loop (sem_value, sem_name) browser 0
              (week_prefix max_weeks week_options) [] [] with
      | (scripts, Ok weeks) =>
          (scripts, Ok (WeeksResponse sem_value sem_name weeks))
      | (scripts, Raise e) => (scripts, Raise e)
      end
  end.

(** *** What the loops are expected to compute

    The records of the cells [cells], the first of which stands in column
    [i] of the days, each paired with the day of its column. *)
Fixpoint cell_records (days : list string) (period : string) (i : nat)
    (cells : list cell) : list (string * course) :=
  match cells with
  | [] => []
  | c :: rest =>
      match parse_course_content c, days !! i with
      | Some content, Some day => [(day, Course period content)]
      | _, _ => []
      end ++ cell_records days period (S i) rest
  end.

Definition row_records (days : list string) (cells : row)
  : list (string * course) :=
  match cells with
  | [] => []
  | c0 :: cells1 =>
      cell_records days (remove_char newline (cell_text c0)) 0 cells1
  end.

Definition grid_records (header : row) (body : list row)
  : list (string * course) :=
  mjoin (row_records (days_of header) <$> body).

(** The records of one day, in the order they were met. *)
Definition for_day (day : string) (recs : list (string * course)) : list course :=
  (filter (λ r, r.1 = day) recs).*2.

(** What turn [iw.1] of the loop adds for the week [iw.2]. *)
Definition produced (browser : nat → week_obs) (iw : nat * opt)
  : option week_result :=
  match extract_week iw.2 (browser iw.1) with
  | Ok (Some r) => Some r
  | _ => None
  end.

(** The turns from [k] on, each week with the index of its turn. *)
Definition turns (k : nat) (ws : list opt) : list (nat * opt) :=
  imap (λ i w, ((k + i)%nat, w)) ws.

(** The script sent for a week. *)
Definition script_for (sem : string * string) (w : opt) : selector_script :=
  SelectorScript sem (val_name w).

(** No row of the table shown has more cells than its first row. *)
Definition well_formed (o : week_obs) : Prop :=
  ∀ header body, page_table o = Some (header :: body) →
    Forall (λ cells : row, (length cells ≤ length header)%nat) body.

(** The three conditions under which a week is skipped. *)
Definition script_failed (o : week_obs) : Prop := script_ok o = false.
Definition alert_dismissed (o : week_obs) : Prop :=
  ∃ text, alert o = AlertPresent text ∧ text ≠ "".
Definition grid_timed_out (o : week_obs) : Prop := grid_rendered o = false.

(** A course text stands in a column that the first row does not have:
    the lookup [days[i]] of its cell has no day to find. *)
Definition overflows (header : row) (body : list row) : Prop :=
  ∃ c0 cells1 j c, (c0 :: cells1) ∈ body ∧ cells1 !! j = Some c ∧
    is_Some (parse_course_content c) ∧ header !! S j = None.


End Extract.

(** ** The browser pool and the session registry *)

Module Pool.

(** A browser instance, known by [id(driver)]. *)
Definition driver := nat.

Definition POOL_SIZE : nat := 5.
Definition MAX_USAGE_PER_DRIVER : Z := 15.

(** The module globals, the browsers on which [quit()] was called, the
    pending [auto_release_driver] threads with the time they wake, and the
    outcome of every call of [webdriver.Chrome(..)] in the order the calls
    are made. *)
Record world := World {
  driver_pool : list driver;            (* [Queue(maxsize=POOL_SIZE)], oldest first *)
  drivers : gmap string driver;
  driver_expiry : gmap string Z;
  driver_usage_count : gmap driver Z;
  quitted : gset driver;
  timers : list (string * Z);
  chrome : nat → result driver;
  launches : nat
}.

Definition with_pool (f : list driver → list driver) (w : world) : world :=
  World (f (driver_pool w)) (drivers w) (driver_expiry w)
        (driver_usage_count w) (quitted w) (timers w) (chrome w) (launches w).
Definition with_drivers (f : gmap string driver → gmap string driver)
    (w : world) : world :=
  World (driver_pool w) (f (drivers w)) (driver_expiry w)
        (driver_usage_count w) (quitted w) (timers w) (chrome w) (launches w).
Definition with_expiry (f : gmap string Z → gmap string Z) (w : world) : world :=
  World (driver_pool w) (drivers w) (f (driver_expiry w))
        (driver_usage_count w) (quitted w) (timers w) (chrome w) (launches w).
Definition with_usage (f : gmap driver Z → gmap driver Z) (w : world) : world :=
  World (driver_pool w) (drivers w) (driver_expiry w)
        (f (driver_usage_count w)) (quitted w) (timers w) (chrome w) (launches w).
Definition with_quitted (f : gset driver → gset driver) (w : world) : world :=
  World (driver_pool w) (drivers w) (driver_expiry w)
        (driver_usage_count w) (f (quitted w)) (timers w) (chrome w) (launches w).
Definition with_timers (f : list (string * Z) → list (string * Z))
    (w : world) : world :=
  World (driver_pool w) (drivers w) (driver_expiry w)
        (driver_usage_count w) (quitted w) (f (timers w)) (chrome w) (launches w).
Definition with_launches (f : nat → nat) (w : world) : world :=
  World (driver_pool w) (drivers w) (driver_expiry w)
        (driver_usage_count w) (quitted w) (timers w) (chrome w) (f (launches w)).

(** *** Code that runs on the globals

    A call returns, raises, or blocks for ever (a [put] on a full queue
    with nobody to take from it). *)
Inductive outcome (A : Type) :=
  | Returns (a : A)
  | Raises (e : exn)
  | Blocks.
Arguments Returns {A} a.
Arguments Raises {A} e.
Arguments Blocks {A}.

Definition M (A : Type) : Type := world → outcome A * world.

Definition ret {A} (a : A) : M A := λ w, (Returns a, w).
Definition raise {A} (e : exn) : M A := λ w, (Raises e, w).
Definition bind {A B} (m : M A) (k : A → M B) : M B :=
  λ w, match m w with
       | (Returns a, w') => k a w'
       | (Raises e, w') => (Raises e, w')
       | (Blocks, w') => (Blocks, w')
       end.

(** [try: m  except Exception as e: h e]. *)
Definition try_except {A} (m : M A) (h : exn → M A) : M A :=
  λ w, match m w with
       | (Raises e, w') => h e w'
       | r => r
       end.

(** [try: m  finally: f]. *)
Definition try_finally {A} (m : M A) (f : M unit) : M A :=
  λ w, match m w with
       | (Returns a, w') =>
           match f w' with
           | (Returns _, w'') => (Returns a, w'')
           | (Raises e, w'') => (Raises e, w'')
           | (Blocks, w'') => (Blocks, w'')
           end
       | (Raises e, w') =>
           match f w' with
           | (Returns _, w'') => (Raises e, w'')
           | (Raises e', w'') => (Raises e', w'')
           | (Blocks, w'') => (Blocks, w'')
           end
       | (Blocks, w') => (Blocks, w')
       end.

Definition lift {A} (r : result A) : M A :=
  match r with
  | Ok a => ret a
  | Raise e => raise e
  end.

Definition modify (f : world → world) : M unit := λ w, (Returns tt, f w).
Definition gets {A} (f : world → A) : M A := λ w, (Returns (f w), w).

Notation "x <- m ;; k" := (bind m (λ x, k))
  (at level 100, m at next level, k at level 200, right associativity,
   only parsing).
Notation "m ;;; k" := (bind m (λ _, k))
  (at level 100, k at level 200, right associativity, only parsing).

(** [webdriver.Chrome(options=..)]: the next outcome of the feed. *)
Definition Chrome : M driver :=
  λ w, match chrome w (launches w) with
       | Ok d => (Returns d, with_launches S w)
       | Raise e => (Raises e, with_launches S w)
       end.

(** [driver.quit()]; every call site swallows what it may raise. *)
Definition quit (d : driver) : M unit := modify (with_quitted (λ q, {[d]} ∪ q)).

(** [driver_pool.get_nowait()]: [None] stands for [Empty]. *)
Definition get_nowait : M (option driver) :=
  λ w, match driver_pool w with
       | [] => (Returns None, w)
       | d :: rest => (Returns (Some d), with_pool (λ _, rest) w)
       end.

(** [driver_pool.put(d)]: blocks while the queue holds [POOL_SIZE] items. *)
Definition put (d : driver) : M unit :=
  λ w, if bool_decide (length (driver_pool w) < POOL_SIZE)%nat
       then (Returns tt, with_pool (λ p, p ++ [d]) w)
       else (Blocks, w).

(** [driver_usage_count.get(driver_id, 0)]. *)
Definition usage (w : world) (d : driver) : Z :=
  default 0 (driver_usage_count w !! d).

Definition create_driver : M driver :=
  try_except Chrome
    (λ e, match e with
          | Error SessionNotCreatedException _ => Chrome
          | _ => raise e
          end).

(** First block of [get_driver]: take a browser from the pool, or start
    one when the pool is empty, a failure being answered with 503. *)
Definition take_or_create : M driver :=
  o <- get_nowait ;;
  match o with
  | Some d => ret d
  | None =>
      try_except create_driver
        (λ e, raise (HTTPException 503 ("Chrome 启动失败: " +:+ str e)))
  end.

(** Second block of [get_driver]: the check of the usage count. *)
Definition check_usage (d : driver) : M driver :=
  let driver_id := d in
  n <- gets (λ w, usage w driver_id) ;;
  if bool_decide (MAX_USAGE_PER_DRIVER ≤ n) then
    quit d ;;;
    d' <- create_driver ;;
    modify (with_usage (<[driver_id := 0]>)) ;;;
    ret d'
  else ret d.

Definition get_driver : M driver :=
  d <- take_or_create ;;
  check_usage d.

(** [release_driver(driver)]; [clean] is what clearing the cookies and the
    two storages does. *)
Definition release_driver (clean : result unit) (d : driver) : M unit :=
  try_except
    (lift clean ;;;
     let driver_id := d in
     n <- gets (λ w, usage w driver_id) ;;
     modify (with_usage (<[driver_id := n + 1]>)) ;;;
     put d)
    (λ _,
     quit d ;;;
     try_except (d' <- create_driver ;; put d') (λ _, ret tt)).

(** The start-up loop that fills the pool, [n] turns left. *)
Fixpoint fill_pool (n : nat) : M unit :=
  match n with
  | O => ret tt
  | S k =>
      filled <- try_except (d <- create_driver ;; put d ;;; ret true)
                           (λ _, ret false) ;;
      if filled : bool then fill_pool k else ret tt
  end.

(** The globals when the module is loaded, with the feed [feed]. *)
Definition initial (feed : nat → result driver) : world :=
  World [] ∅ ∅ ∅ ∅ [] feed 0.

Definition startup (feed : nat → result driver) : world :=
  (fill_pool (POOL_SIZE - Nat.min POOL_SIZE 0) (initial feed)).2.

(** *** Assumptions on the identity of new browsers

    Every browser started from now on has no usage on record. *)
Definition fresh_launches (w : world) : Prop :=
  ∀ n d, (launches w ≤ n)%nat → chrome w n = Ok d →
         driver_usage_count w !! d = None.

(** No two launches give the same browser. *)
Definition distinct_launches (feed : nat → result driver) : Prop :=
  ∀ i j d, feed i = Ok d → feed j = Ok d → i = j.

(** The browsers that the [k] launches from launch [n] on give, in the
    order of the launches. *)
Definition started (feed : nat → result driver) (n k : nat) : list driver :=
  omap (λ i, match feed i with
             | Ok d => Some d
             | Raise _ => None
             end) (seq n k).

End Pool.

(** ** Sessions: the sweeps, the timer and the request handlers *)

Module Registry.

Import Dataset Extract Pool.

(** [memory_usage_mb() > limit], on the resident size in bytes: the
    reading is [rss / 1024 / 1024]. *)
Definition over_mb (limit rss : Z) : bool :=
  bool_decide (limit * 1024 * 1024 < rss).

(** [try: drivers[sid].quit()  except Exception: pass]. *)
Definition quit_session (sid : string) (w : world) : world :=
  match drivers w !! sid with
  | Some d => with_quitted (λ q, {[d]} ∪ q) w
  | None => w
  end.

(** [drivers.pop(sid, None); driver_expiry.pop(sid, None)]. *)
Definition pop_session (sid : string) (w : world) : world :=
  with_expiry (delete sid) (with_drivers (delete sid) w).

(** First loop of a sweep: over [list(driver_expiry.items())], quit the
    browser of every entry older than [threshold] and note its id. *)
Definition sweep_scan (threshold current_time : Z) (w : world)
  : list string * world :=
  foldl (λ acc item,
           if bool_decide (current_time - item.2 > threshold)
           then (acc.1 ++ [item.1], quit_session item.1 acc.2)
           else acc)
        ([], w) (map_to_list (driver_expiry w)).

(** Both loops of a sweep. *)
Definition sweep (threshold current_time : Z) (w : world) : world :=
  let '(expired_sessions, w') := sweep_scan threshold current_time w in
  foldl (λ w sid, pop_session sid w) w' expired_sessions.

(** One turn of [cleanup_drivers], after its sleep. *)
Definition cleanup_drivers (current_time : Z) (w : world) : world :=
  sweep 300 current_time w.

(** [for _ in range(n): driver_pool.get_nowait().quit()] inside a [try]
    whose handler ends the loop. *)
Fixpoint shrink (n : nat) : M unit :=
  match n with
  | O => ret tt
  | S k =>
      o <- get_nowait ;;
      match o with
      | Some d => quit d ;;; shrink k
      | None => ret tt
      end
  end.

(** One turn of [monitor_memory]: [rss1] and [rss2] are the two readings. *)
Definition monitor_memory (rss1 rss2 current_time : Z) (w : world) : world :=
  if over_mb 400 rss1 then
    let w1 := sweep 180 current_time w in
    if over_mb 400 rss2 && negb (bool_decide (driver_pool w1 = [])) then
      (shrink (Nat.min 2 (length (driver_pool w1))) w1).2
    else w1
  else w.

(** [auto_release_driver(sid)] when its sleep of 240 s ends. *)
Definition auto_release_driver (sid : string) (w : world) : world :=
  if bool_decide (is_Some (drivers w !! sid)) then
    pop_session sid (quit_session sid w)
  else w.

(** A pending timer wakes. *)
Definition timer_wakes (sid : string) (due : Z) (w : world) : world :=
  match list_find (λ t, t = (sid, due)) (timers w) with
  | Some (i, _) => auto_release_driver sid (with_timers (delete i) w)
  | None => w
  end.

(** *** [GET /captcha] *)

Record captcha_response := CaptchaResponse {
  cr_session_id : string;
  cr_captcha_base64 : string
}.

(** Binding of a session: the two maps and the timer thread. *)
Definition register (sid : string) (d : driver) (now : Z) : M unit :=
  modify (with_drivers (<[sid := d]>)) ;;;
  modify (with_expiry (<[sid := now]>)) ;;;
  modify (with_timers (λ ts, ts ++ [(sid, now + 240)])).

(** [page] is the [src] of the captcha image, or what loading the page
    raises; [sid] is [os.urandom(16).hex()]. Starting the timer thread and
    printing the timings are taken not to fail. *)
Definition get_captcha (rss : Z) (page : result (option string))
    (clean : result unit) (sid : string) (now : Z) : M captcha_response :=
  if over_mb 500 rss then
    raise (HTTPException 503 "服务器内存不足，请稍后再试")
  else
    d <- get_driver ;;
    try_except
      (captcha_src <- lift page ;;
       match captcha_src with
       | Some src =>
           if truthy src && String.prefix "data:image" src then
             register sid d now ;;;
             ret (CaptchaResponse sid src)
           else raise (HTTPException 400 "未能获取验证码图片")
       | None => raise (HTTPException 400 "未能获取验证码图片")
       end)
      (λ e, release_driver clean d ;;; raise (HTTPException 500 (str e))).

(** What the [try] block of [get_captcha] has in hand when it comes to
    bind the session: the [src] of the image, or the exception raised on
    the way, the 400 of a missing image included. *)
Definition captcha_image (page : result (option string)) : result string :=
  match page with
  | Ok (Some src) =>
      if truthy src && String.prefix "data:image" src then Ok src
      else Raise (HTTPException 400 "未能获取验证码图片")
  | Ok None => Raise (HTTPException 400 "未能获取验证码图片")
  | Raise e => Raise e
  end.

(** *** [POST /timetable] *)

Record timetable_request := TimetableRequest {
  tr_session_id : string;
  tr_username : string;
  tr_password : string;
  tr_captcha : option string
}.

Record timetable_page := TimetablePage {
  tp_captcha_src : result (option string);  (* the captcha image and its [src] *)
  tp_form : result unit;                    (* filling and sending the form *)
  tp_login_wait : bool;                     (* the 30 s wait for the redirect *)
  tp_open_schedule : result unit;           (* up to the schedule page and its scripts *)
  tp_first_read : list opt * list opt;      (* the two datasets, [None] read as [[]] *)
  tp_second_read : list opt * list opt      (* the same, 0.6 s later *)
}.

Inductive timetable_response :=
  | NeedManualCaptcha (session_id message : string)
  | CaptchaRejected (session_id : string) (captcha_base64 : option string)
                    (message : string)
  | Metadata (session_id : string) (default_semester default_week : option string)
             (all_semesters_meta : list (string * string)).

(** [x or y] on two lists. *)
Definition list_or {A} (x y : list A) : list A :=
  match x with
  | [] => y
  | _ => x
  end.

(** The datasets after the one retry. *)
Definition read_dropdowns (p : timetable_page) : list opt * list opt :=
  let '(sem_options, week_options) := tp_first_read p in
  match sem_options, week_options with
  | _ :: _, _ :: _ => (sem_options, week_options)
  | _, _ => (list_or (tp_second_read p).1 sem_options,
             list_or (tp_second_read p).2 week_options)
  end.

(** [driver_expiry[sid] = time.time()]. *)
Definition touch (sid : string) (now : Z) : M unit :=
  modify (with_expiry (<[sid := now]>)).

Definition get_timetable (rss : Z) (req : timetable_request)
    (p : timetable_page) (year month now : Z) : M timetable_response :=
  let sid := tr_session_id req in
  if over_mb 500 rss then
    raise (HTTPException 503 "服务器内存不足，请稍后再试")
  else
    o <- gets (λ w, drivers w !! sid) ;;
    match o with
    | None => raise (HTTPException 400 "无效的 session_id")
    | Some _ =>
        try_finally
          (try_except
             (captcha_src <- lift (tp_captcha_src p) ;;
              if negb (truthy_opt (tr_captcha req)) then
                ret (NeedManualCaptcha sid "请手动输入验证码")
              else
                lift (tp_form p) ;;;
                if negb (tp_login_wait p) then
                  ret (CaptchaRejected sid captcha_src
                         "验证码错误或过期，请手动输入")
                else
                  lift (tp_open_schedule p) ;;;
                  let '(sem_options, week_options) := read_dropdowns p in
                  touch sid now ;;;
                  ret (Metadata sid (default_semester year month sem_options)
                         (default_week week_options)
                         (all_semesters_meta sem_options)))
             (λ e, raise (HTTPException 500 (str e))))
          (present <- gets (λ w, bool_decide (is_Some (drivers w !! sid))) ;;
           if present : bool then touch sid now else ret tt)
    end.

(** *** [POST /timetable/semester-weeks] *)

Record weeks_request := WeeksRequest {
  wr_username : option string;
  wr_password : option string;
  wr_captcha : option string;
  wr_session_id : option string;
  wr_sem_id : string;
  wr_max_weeks : Z
}.

Inductive login_outcome :=
  | LoggedIn
  | LoginTimeout (a : alert_state)
  | LoginFails (e : exn).

Record weeks_page := WeeksPage {
  wp_login : login_outcome;          (* standalone path: up to the redirect *)
  wp_open_schedule : result unit;    (* up to the schedule page and its scripts *)
  wp_sem_options : list opt;
  wp_week_options : list opt;
  wp_weeks : nat → week_obs
}.

(** [except HTTPException: raise] then [except Exception as e: raise 500]. *)
Definition reraise {A} (e : exn) : M A :=
  match e with
  | HTTPException _ _ => raise e
  | Error _ _ => raise (HTTPException 500 (str e))
  end.

Definition extraction (req : weeks_request) (p : weeks_page)
  : result weeks_response :=
  (semester_weeks (wp_sem_options p) (wp_week_options p)
     (wr_sem_id req) (wr_max_weeks req) (wp_weeks p)).2.

Definition login (p : weeks_page) : M unit :=
  match wp_login p with
  | LoggedIn => ret tt
  | LoginTimeout a =>
      let alert_text := close_alert_if_present a in
      let detail := "验证码可能已过期，请刷新并重试" in
      let detail := if truthy_opt alert_text then default "" alert_text
                    else detail in
      raise (HTTPException 401 detail)
  | LoginFails e => raise e
  end.

Definition get_semester_weeks (rss : Z) (req : weeks_request)
    (p : weeks_page) (now : Z) : M weeks_response :=
  if over_mb 500 rss then
    raise (HTTPException 503 "服务器内存不足，请稍后再试")
  else
    reusable <- gets (λ w,
      match wr_session_id req with
      | Some sid => if truthy sid && bool_decide (is_Some (drivers w !! sid))
                    then Some sid else None
      | None => None
      end) ;;
    match reusable with
    | Some sid =>
        try_except
          (lift (wp_open_schedule p) ;;;
           resp <- lift (extraction req p) ;;
           touch sid now ;;;
           ret resp)
          reraise
    | None =>
        if negb (truthy_opt (wr_username req) && truthy_opt (wr_password req)
                 && truthy_opt (wr_captcha req)) then
          raise (HTTPException 400 "会话已失效，请提供用户名、密码与最新验证码")
        else
          d <- create_driver ;;
          try_finally
            (try_except
               (login p ;;;
                lift (wp_open_schedule p) ;;;
                lift (extraction req p))
               reraise)
            (quit d)
    end.

(** *** What can happen to the globals *)

Inductive event :=
  | GetCaptcha (rss : Z) (page : result (option string)) (clean : result unit)
               (sid : string) (now : Z)
  | GetTimetable (rss : Z) (req : timetable_request) (p : timetable_page)
                 (year month now : Z)
  | GetSemesterWeeks (rss : Z) (req : weeks_request) (p : weeks_page) (now : Z)
  | TimerWakes (sid : string) (due : Z)
  | CleanupDrivers (now : Z)
  | MonitorMemory (rss1 rss2 now : Z).

Definition run (ev : event) (w : world) : world :=
  match ev with
  | GetCaptcha rss page clean sid now => (get_captcha rss page clean sid now w).2
  | GetTimetable rss req p year month now =>
      (get_timetable rss req p year month now w).2
  | GetSemesterWeeks rss req p now => (get_semester_weeks rss req p now w).2
  | TimerWakes sid due => timer_wakes sid due w
  | CleanupDrivers now => cleanup_drivers now w
  | MonitorMemory rss1 rss2 now => monitor_memory rss1 rss2 now w
  end.

Definition run_all (evs : list event) (w : world) : world :=
  foldl (λ w ev, run ev w) w evs.

(** The steps of the background threads. *)
Definition daemon (ev : event) : Prop :=
  match ev with
  | TimerWakes _ _ | CleanupDrivers _ | MonitorMemory _ _ _ => True
  | _ => False
  end.

(** The worlds the process can be in, for a given feed of browsers. *)
Definition reachable (feed : nat → result driver) (w : world) : Prop :=
  ∃ evs, w = run_all evs (startup feed).

(** The ids that the first loop of a sweep notes. *)
Definition expired_sessions (threshold current_time : Z) (w : world)
  : list string :=
  (filter (λ item, current_time - item.2 > threshold)
          (map_to_list (driver_expiry w))).*1.

(** No browser bound to a session waits in the pool. *)
Definition pool_registry_disjoint (w : world) : Prop :=
  ∀ sid d, drivers w !! sid = Some d → d ∉ driver_pool w.

(** The browser [d] came out of a launch already made. *)
Definition launched (w : world) (d : driver) : Prop :=
  ∃ n, (n < launches w)%nat ∧ chrome w n = Ok d.

(** The browser [d] is held by a request: neither in the pool nor bound. *)
Definition spare (w : world) (d : driver) : Prop :=
  (d ∉ driver_pool w) ∧ (∀ sid, drivers w !! sid ≠ Some d) ∧ launched w d.

(** What every step keeps true. *)
Definition pool_invariant (w : world) : Prop :=
  NoDup (driver_pool w) ∧ pool_registry_disjoint w ∧
  (∀ d, d ∈ driver_pool w → launched w d) ∧
  (∀ sid d, drivers w !! sid = Some d → launched w d).

(** [w'] has the pool, the sessions and the feed of [w], and no fewer
    launches. *)
Definition steady (w w' : world) : Prop :=
  driver_pool w' = driver_pool w ∧ drivers w' = drivers w ∧
  chrome w' = chrome w ∧ (launches w ≤ launches w')%nat.

(** The session [sid] is registered. *)
Definition registered (sid : string) (w : world) : Prop :=
  is_Some (drivers w !! sid).






(** The usage counts stay within the ceiling, and only browsers that came
    out of a launch already made have one. *)
Definition usage_bounded (w : world) : Prop :=
  (∀ d, 0 ≤ usage w d ≤ MAX_USAGE_PER_DRIVER) ∧
  (∀ d, is_Some (driver_usage_count w !! d) → launched w d).


End Registry.

(** ** Sample data *)

Module Samples.

Import Grid Dataset Extract.

Definition maths : cell :=
  Cell "高等数学软件1班王老师A101"
    (Some [Span [] "高等数学"; Span ["teachCls"] "软件1班";
           Span ["teacher"] "王老师"; Span ["place"] "A101"]).

Definition english : cell :=
  Cell "大学英语B202" (Some [Span [] "大学英语"; Span ["place"] "B202"]).

Definition blank : cell := Cell "" None.

Definition header : row := [Cell "节次" None; Cell "星期一" None; Cell "星期二" None].

Definition body : list row :=
  [[Cell "第1-2节" None; maths; blank];
   [];
   [Cell "第3-4节" None; blank; english]].

Definition week (n : string) : opt :=
  Opt {[ "weekId" := n; "weekName" := "第" +:+ n +:+ "周" ]} "".

Definition semester (id name : string) : opt :=
  Opt {[ "semId" := id; "semName" := name ]} "".

(** A week whose grid shows [header] and [body]. *)
Definition shown : week_obs :=
  WeekObs true NoAlertPresent true (Some (header :: body)).

(** A week for which the portal raises an alert. *)
Definition alerted : week_obs :=
  WeekObs true (AlertPresent "该周无课表") true (Some (header :: body)).

(** A week whose grid has a course in a third column under a header of
    one day. *)
Definition ragged : week_obs :=
  WeekObs true NoAlertPresent true
    (Some ([blank; Cell "星期一" None]
           :: [[Cell "第1-2节" None; blank; maths]])).

(** Launches that all succeed, with browsers 100, 101, ... *)
Definition feed : nat → result Pool.driver := λ n, Ok (100 + n)%nat.

(** Launches that all fail. *)
Definition no_chrome : nat → result Pool.driver :=
  λ _, Raise (Error WebDriverException "chrome not reachable").

(** A pool whose only browser has been released 15 times. *)
Definition worn (chrome : nat → result Pool.driver) : Pool.world :=
  Pool.World [7%nat] ∅ ∅ {[ 7%nat := 15 ]} ∅ [] chrome 0.


(** One session, bound to browser 9 and last used at time 1000. *)
Definition one_session : Pool.world :=
  Pool.World [7%nat] {[ "5f2a" := 9%nat ]} {[ "5f2a" := 1000 ]} ∅ ∅
    [("5f2a", 1240)] feed 0.

(** A session is opened at time 0, used at times 100 and 200, and swept
    in between. *)
Definition login_page : Registry.timetable_page :=
  Registry.TimetablePage (Ok (Some "data:image/png;base64,AAAA")) (Ok tt) true
    (Ok tt)
    ([semester "42" "2024-2025学年秋季学期"], [week "1"; week "2"; week "3"])
    ([], []).

Definition weeks_page : Registry.weeks_page :=
  Registry.WeeksPage Registry.LoggedIn (Ok tt)
    [semester "42" "2024-2025学年秋季学期"] [week "1"; week "2"; week "3"]
    (λ _, shown).

Definition session_in_use : list Registry.event :=
  [Registry.GetCaptcha 0 (Ok (Some "data:image/png;base64,AAAA")) (Ok tt)
     "5f2a" 0;
   Registry.GetTimetable 0
     (Registry.TimetableRequest "5f2a" "20240001" "secret" (Some "ab12"))
     login_page 2024 10 100;
   Registry.CleanupDrivers 160;
   Registry.GetSemesterWeeks 0
     (Registry.WeeksRequest None None None (Some "5f2a") "42" 3)
     weeks_page 200;
   Registry.MonitorMemory 500000000 500000000 230].

End Samples.

(** * Properties *)

Import Grid Dataset Extract Pool Registry.

(** ** Strings *)

Section strings.

Lemma truthy_spec (s : string) : truthy s = true ↔ s ≠ "".
Proof. unfold truthy. by rewrite bool_decide_eq_true. Qed.

Lemma truthy_empty : truthy "" = false.
Proof. reflexivity. Qed.

Lemma truthy_nonempty (s : string) : s ≠ "" → truthy s = true.
Proof. apply truthy_spec. Qed.

Lemma string_app_cons (a : Ascii.ascii) (s t : string) :
  String a s +:+ t = String a (s +:+ t).
Proof. reflexivity. Qed.

Lemma string_app_nil_l (t : string) : "" +:+ t = t.
Proof. reflexivity. Qed.


Lemma string_app_empty_inv (s t : string) : s +:+ t = "" → s = "".
Proof. by destruct s. Qed.

Lemma string_app_nil_r (s : string) : s +:+ "" = s.
Proof.
  induction s as [|a s IH]; [done|]. by rewrite string_app_cons, IH.
Qed.

Lemma string_app_assoc (s t u : string) : (s +:+ t) +:+ u = s +:+ t +:+ u.
Proof.
  induction s as [|a s IH]; [done|]. by rewrite !string_app_cons, IH.
Qed.

(** A join of non-empty parts is empty only when there is no part. *)
Lemma join_empty_inv (sep : string) (parts : list string) :
  Forall (λ s, s ≠ "") parts → join sep parts = "" → parts = [].
Proof.
  intros Hall Hj. destruct parts as [|x xs]; [done|].
  apply Forall_cons in Hall as [Hx _]. exfalso. apply Hx.
  unfold join in Hj. simpl in Hj. destruct xs as [|y ys]; [done|].
  by apply string_app_empty_inv in Hj.
Qed.


End strings.

(** ** The text of a course *)

Section course_text.

Lemma append_if_nonempty (parts : list string) (x : string) :
  append_if parts x = parts ++ nonempty [x].
Proof.
  unfold append_if, nonempty, truthy.
  rewrite filter_cons, filter_nil.
  case_bool_decide; case_decide; try done. by rewrite app_nil_r.
Qed.

Lemma nonempty_cons (s : string) (l : list string) :
  s ≠ "" → nonempty (s :: l) = s :: nonempty l.
Proof. intros Hs. unfold nonempty. by rewrite filter_cons, decide_True. Qed.

Lemma nonempty_cons_empty (l : list string) : nonempty ("" :: l) = nonempty l.
Proof.
  unfold nonempty. rewrite filter_cons. by destruct (decide ("" ≠ "")).
Qed.

Lemma nonempty_app (l k : list string) : nonempty (l ++ k) = nonempty l ++ nonempty k.
Proof. apply filter_app. Qed.

Lemma nonempty_Forall (parts : list string) : Forall (λ s, s ≠ "") (nonempty parts).
Proof. apply Forall_forall. intros s [Hs _]%list_elem_of_filter. done. Qed.

(** The parts that are joined are the non-empty fields, in their order. *)
Lemma content_parts_fields (info : list span) :
  append_if (append_if (append_if (append_if [] (course_name info))
    (class_info info)) (teacher info)) (location info)
  = nonempty (fields info).
Proof.
  rewrite !append_if_nonempty. unfold fields.
  change [course_name info; class_info info; teacher info; location info]
    with ([course_name info] ++ [class_info info] ++ [teacher info]
          ++ [location info]).
  rewrite !nonempty_app. simpl. by rewrite <-!app_assoc.
Qed.

Lemma parse_course_content_fields (c : cell) (info : list span) :
  cell_course_info c = Some info →
  parse_course_content c =
    match nonempty (fields info) with
    | [] => None
    | parts => Some (join " " parts)
    end.
Proof.
  intros Hinfo. unfold parse_course_content. rewrite Hinfo.
  cbv zeta. rewrite content_parts_fields.
  destruct (nonempty (fields info)) as [|x xs] eqn:Hparts; [done|].
  rewrite truthy_nonempty; [done|].
  intros Hj. apply join_empty_inv in Hj; [done|].
  rewrite <-Hparts. apply nonempty_Forall.
Qed.

(** A composed text is never empty. *)
Lemma parse_course_content_truthy (c : cell) (content : string) :
  parse_course_content c = Some content → truthy content = true.
Proof.
  unfold parse_course_content. destruct (cell_course_info c); [|done].
  cbv zeta. case_match; naive_solver.
Qed.



End course_text.

(** ** The default semester *)

Section default_semester.

Lemma prefix_spec (t s : string) :
  String.prefix t s = true ↔ ∃ b, s = t +:+ b.
Proof.
  revert s. induction t as [|c t IH]; intros s.
  - destruct s; simpl; split; eauto.
  - destruct s as [|d s]; simpl.
    + split; [done|]. by intros [b Hb].
    + destruct (Ascii.ascii_dec c d) as [->|Hne]; rewrite ?IH.
      * split; intros [b Hb]; exists b.
        -- by rewrite string_app_cons, <-Hb.
        -- rewrite string_app_cons in Hb. by simplify_eq.
      * split; [done|]. intros [b Hb].
        rewrite string_app_cons in Hb. by simplify_eq.
Qed.

(** [contains] decides [occurs_in]. *)
Lemma contains_spec (t s : string) : contains t s = true ↔ occurs_in t s.
Proof.
  unfold occurs_in. induction s as [|d s IH].
  - cbn [contains]. rewrite orb_false_r, prefix_spec. split.
    + intros [b Hb]. by exists "", b.
    + intros (a & b & Hab). destruct a; [by exists b|done].
  - cbn [contains]. rewrite orb_true_iff, IH, prefix_spec. split.
    + intros [[b Hb]|(a & b & Hab)].
      * by exists "", b.
      * exists (String d a), b. by rewrite string_app_cons, <-Hab.
    + intros (a & b & Hab). destruct a as [|c a].
      * left. by exists b.
      * right. rewrite string_app_cons in Hab. simplify_eq. by exists a, b.
Qed.

Lemma contains_false (t s : string) : contains t s = false ↔ ¬ occurs_in t s.
Proof. rewrite <-contains_spec. by destruct (contains t s). Qed.

Lemma matches_single (label sem_name : string) :
  matches [label] sem_name = contains label sem_name.
Proof. unfold matches. simpl. by rewrite orb_false_r. Qed.

Lemma find_current_cons (targets : list string) (sem : opt) (rest : list opt) :
  find_current targets (sem :: rest)
  = if matches targets (val_name sem).2 then Some (val_name sem).2
    else find_current targets rest.
Proof. reflexivity. Qed.

(** The loop returns the name of the first entry that matches. *)
Lemma find_current_first (targets : list string) (pre post : list opt) (sem : opt) :
  Forall (λ o, matches targets (val_name o).2 = false) pre →
  matches targets (val_name sem).2 = true →
  find_current targets (pre ++ sem :: post) = Some (val_name sem).2.
Proof.
  intros Hpre Hsem. induction Hpre as [|o pre Ho _ IH].
  - by rewrite app_nil_l, find_current_cons, Hsem.
  - cbv beta in Ho. by rewrite <-app_comm_cons, find_current_cons, Ho.
Qed.

Lemma find_current_none (targets : list string) (sem_options : list opt) :
  Forall (λ o, matches targets (val_name o).2 = false) sem_options →
  find_current targets sem_options = None.
Proof.
  intros Hall. induction Hall as [|o l Ho _ IH]; [done|].
  cbv beta in Ho. by rewrite find_current_cons, Ho.
Qed.

(** C8. The label of the running term depends on the year and the month
    only: from September on it is this year's autumn term, from March on
    last year's spring term, before March last year's autumn term. The
    default semester is the display name of the first entry of the dataset
    whose name contains the label, and the name of the first entry when no
    name contains it; so in October 2024 an entry named
    "2024-2025学年秋季学期" is selected when no entry before it contains
    that label. *)
Theorem default_semester_inference :
  (∀ year month, 9 ≤ month →
     target_names year month
     = [pretty year +:+ "-" +:+ pretty (year + 1) +:+ "学年秋季学期"]) ∧
  (∀ year month, 3 ≤ month → month < 9 →
     target_names year month
     = [pretty (year - 1) +:+ "-" +:+ pretty year +:+ "学年春季学期"]) ∧
  (∀ year month, month < 3 →
     target_names year month
     = [pretty (year - 1) +:+ "-" +:+ pretty year +:+ "学年秋季学期"]) ∧
  (∀ year month label pre sem post,
     target_names year month = [label] →
     Forall (λ o, ¬ occurs_in label (val_name o).2) pre →
     occurs_in label (val_name sem).2 →
     default_semester year month (pre ++ sem :: post) = Some (val_name sem).2) ∧
  (∀ year month label sem rest,
     target_names year month = [label] →
     Forall (λ o, ¬ occurs_in label (val_name o).2) (sem :: rest) →
     default_semester year month (sem :: rest) = Some (val_name sem).2) ∧
  (∀ pre sem post,
     (val_name sem).2 = "2024-2025学年秋季学期" →
     Forall (λ o, ¬ occurs_in "2024-2025学年秋季学期" (val_name o).2) pre →
     default_semester 2024 10 (pre ++ sem :: post)
     = Some "2024-2025学年秋季学期").
Proof.
  assert (Hfirst : ∀ year month label pre sem post,
     target_names year month = [label] →
     Forall (λ o, ¬ occurs_in label (val_name o).2) pre →
     occurs_in label (val_name sem).2 →
     default_semester year month (pre ++ sem :: post) = Some (val_name sem).2).
  { intros year month label pre sem post Hlabel Hpre Hsem.
    unfold default_semester. rewrite Hlabel.
    rewrite (find_current_first [label] pre post sem); [done| |].
    - eapply Forall_impl; [exact Hpre|]. intros o Ho. simpl in Ho.
      by rewrite matches_single, contains_false.
    - by rewrite matches_single, contains_spec. }
  split_and!.
  - intros year month Hm. unfold target_names.
    by rewrite bool_decide_eq_true_2.
  - intros year month Hm1 Hm2. unfold target_names.
    rewrite bool_decide_eq_false_2 by lia. by rewrite bool_decide_eq_true_2.
  - intros year month Hm. unfold target_names.
    by rewrite !bool_decide_eq_false_2 by lia.
  - exact Hfirst.
  - intros year month label sem rest Hlabel Hall.
    unfold default_semester. rewrite Hlabel.
    rewrite find_current_none; [done|].
    eapply Forall_impl; [exact Hall|]. intros o Ho. simpl in Ho.
    by rewrite matches_single, contains_false.
  - intros pre sem post Hname Hpre.
    rewrite (Hfirst 2024 10 "2024-2025学年秋季学期" pre sem post);
      [by rewrite Hname|done|done|].
    rewrite Hname. by exists "", "".
Qed.

Lemma default_semester_inference_witness :
  default_semester 2024 10
    [Opt {[ "semId" := "41"; "semName" := "2023-2024学年春季学期" ]} "";
     Opt {[ "semId" := "42"; "semName" := "2024-2025学年秋季学期" ]} "";
     Opt {[ "semId" := "43"; "semName" := "2024-2025学年春季学期" ]} ""]
  = Some "2024-2025学年秋季学期".
Proof.
  destruct default_semester_inference as (_ & _ & _ & _ & _ & Hoct).
  apply (Hoct [Opt {[ "semId" := "41"; "semName" := "2023-2024学年春季学期" ]} ""]
              (Opt {[ "semId" := "42"; "semName" := "2024-2025学年秋季学期" ]} "")
              [Opt {[ "semId" := "43"; "semName" := "2024-2025学年春季学期" ]} ""]).
  - reflexivity.
  - apply Forall_singleton. apply contains_false. reflexivity.
Defined.

End default_semester.

(** ** Parsing of the grid *)

Section grid.

Lemma for_day_app (d : string) (r1 r2 : list (string * course)) :
  for_day d (r1 ++ r2) = for_day d r1 ++ for_day d r2.
Proof. unfold for_day. by rewrite filter_app, fmap_app. Qed.

Lemma for_day_nil (d : string) : for_day d [] = [].
Proof. reflexivity. Qed.

Lemma for_day_eq (d : string) (c : course) : for_day d [(d, c)] = [c].
Proof. unfold for_day. by rewrite filter_cons, decide_True. Qed.

Lemma for_day_ne (d d' : string) (c : course) : d' ≠ d → for_day d [(d', c)] = [].
Proof. intros Hne. unfold for_day. by rewrite filter_cons, decide_False. Qed.

(** Every day of the header starts with an empty list, and only those. *)
Lemma empty_courses_lookup (days : list string) (d : string) :
  empty_courses days !! d = if decide (d ∈ days) then Some [] else None.
Proof.
  unfold empty_courses. induction days as [|d' days IH]; [done|].
  rewrite fmap_cons. cbn [list_to_map foldr curry fst snd].
  destruct (decide (d' = d)) as [->|Hne].
  - rewrite lookup_insert_eq. rewrite decide_True; [done|]. apply list_elem_of_here.
  - rewrite lookup_insert_ne by done. rewrite IH.
    destruct (decide (d ∈ days)) as [Hin|Hnin].
    + rewrite decide_True; [done|]. by apply list_elem_of_further.
    + rewrite decide_False; [done|]. intros [?|?]%elem_of_cons; naive_solver.
Qed.

(** The cells of a row that fit under the header: no lookup fails, and
    each day gains the records of its own column, in order. *)
Lemma parse_cells_spec (days : list string) (period : string)
    (cells : list cell) (i : nat) (wc : gmap string (list course)) :
  (i + length cells ≤ length days)%nat →
  (∀ d, d ∈ days → is_Some (wc !! d)) →
  ∃ wc', parse_cells days period i cells wc = Ok wc' ∧
    ∀ d, wc' !! d
      = (λ l, l ++ for_day d (cell_records days period i cells)) <$> wc !! d.
Proof.
  revert i wc. induction cells as [|c rest IH]; intros i wc Hlen Hdays.
  - exists wc. split; [done|]. intros d. simpl. rewrite for_day_nil.
    destruct (wc !! d); simpl; [|done]. by rewrite app_nil_r.
  - simpl in Hlen. cbn [parse_cells cell_records].
    destruct (parse_course_content c) as [content|] eqn:Hc.
    + rewrite (parse_course_content_truthy c content Hc).
      destruct (days !! i) as [day|] eqn:Hday.
      2:{ apply lookup_ge_None in Hday. lia. }
      destruct (Hdays day) as [l Hl].
      { apply list_elem_of_lookup. by exists i. }
      rewrite Hl.
      destruct (IH (S i) (<[day := l ++ [Course period content]]> wc))
        as (wc' & Hwc' & Hlook).
      { lia. }
      { intros d Hd. destruct (decide (day = d)) as [->|Hne].
        - rewrite lookup_insert_eq. eauto.
        - rewrite lookup_insert_ne by done. by apply Hdays. }
      exists wc'. split; [done|]. intros d. rewrite Hlook, for_day_app.
      destruct (decide (day = d)) as [->|Hne].
      * rewrite lookup_insert_eq, Hl, for_day_eq. simpl.
        by rewrite <-!app_assoc.
      * rewrite lookup_insert_ne by done. by rewrite for_day_ne.
    + destruct (IH (S i) wc) as (wc' & Hwc' & Hlook); [lia|done|].
      exists wc'. split; [done|]. intros d. by rewrite Hlook.
Qed.

Lemma parse_rows_spec (days : list string) (rows : list row)
    (wc : gmap string (list course)) :
  Forall (λ cells, (length cells ≤ S (length days))%nat) rows →
  (∀ d, d ∈ days → is_Some (wc !! d)) →
  ∃ wc', parse_rows days rows wc = Ok wc' ∧
    ∀ d, wc' !! d
      = (λ l, l ++ for_day d (mjoin (row_records days <$> rows))) <$> wc !! d.
Proof.
  intros Hrows. revert wc.
  induction Hrows as [|cells rows Hcells _ IH]; intros wc Hdays.
  - exists wc. split; [done|]. intros d. simpl. rewrite for_day_nil.
    destruct (wc !! d); simpl; [|done]. by rewrite app_nil_r.
  - cbn [parse_rows]. rewrite fmap_cons. cbn [mjoin list_join].
    destruct cells as [|c0 cells1].
    + destruct (IH wc Hdays) as (wc' & Hwc' & Hlook).
      exists wc'. split; [done|]. intros d. by rewrite Hlook.
    + cbv zeta. simpl in Hcells.
      destruct (parse_cells_spec days (remove_char newline (cell_text c0))
                  cells1 0 wc) as (wc1 & Hwc1 & Hlook1); [lia|done|].
      rewrite Hwc1.
      destruct (IH wc1) as (wc' & Hwc' & Hlook).
      { intros d Hd. rewrite Hlook1. destruct (Hdays d Hd) as [l ->]. eauto. }
      exists wc'. split; [done|]. intros d.
      rewrite Hlook, Hlook1, for_day_app. cbn [row_records].
      destruct (wc !! d); simpl; [|done]. by rewrite <-!app_assoc.
Qed.

(** A record of a row comes from a cell of that row and carries the label
    of the header cell above it. *)
Lemma cell_records_elem (days : list string) (period : string)
    (cells : list cell) (i : nat) (d : string) (r : course) :
  (d, r) ∈ cell_records days period i cells ↔
  ∃ j c content, cells !! j = Some c ∧ days !! (i + j)%nat = Some d ∧
    parse_course_content c = Some content ∧ r = Course period content.
Proof.
  revert i. induction cells as [|c rest IH]; intros i.
  - simpl. rewrite elem_of_nil. split; [done|]. by intros (j & c & ? & ? & _).
  - cbn [cell_records]. rewrite elem_of_app, IH. split.
    + intros [Hhere|(j & c' & content & Hj & Hd & Hc & Hr)].
      * destruct (parse_course_content c) as [content|] eqn:Hc;
          [|by apply elem_of_nil in Hhere].
        destruct (days !! i) as [day|] eqn:Hday;
          [|by apply elem_of_nil in Hhere].
        apply list_elem_of_singleton in Hhere. simplify_eq.
        exists 0%nat, c, content. by rewrite Nat.add_0_r.
      * exists (S j), c', content. split_and!; try done.
        by rewrite <-Hd, Nat.add_succ_r.
    + intros (j & c' & content & Hj & Hd & Hc & Hr). destruct j as [|j].
      * left. simpl in Hj. simplify_eq. rewrite Nat.add_0_r in Hd.
        rewrite Hc, Hd. by apply list_elem_of_singleton.
      * right. exists j, c', content. split_and!; try done.
        by rewrite <-Hd, Nat.add_succ_r.
Qed.

End grid.

Section grid_total.

Lemma days_of_lookup (header : row) (j : nat) :
  days_of header !! j = cell_text <$> header !! S j.
Proof.
  unfold days_of. rewrite lookup_drop, list_lookup_fmap. done.
Qed.

Lemma days_of_length (header : row) :
  length (days_of header) = (length header - 1)%nat.
Proof. unfold days_of. by rewrite length_drop, length_fmap. Qed.

Lemma grid_records_elem (header : row) (body : list row) (d : string) (r : course) :
  (d, r) ∈ grid_records header body ↔
  ∃ c0 cells1 j c hc content,
    (c0 :: cells1) ∈ body ∧ cells1 !! j = Some c ∧ header !! S j = Some hc ∧
    d = cell_text hc ∧ parse_course_content c = Some content ∧
    r = Course (remove_char newline (cell_text c0)) content.
Proof.
  unfold grid_records. rewrite list_elem_of_join. split.
  - intros (recs & Hin & Hrecs).
    apply list_elem_of_fmap in Hrecs as (cells & -> & Hcells).
    destruct cells as [|c0 cells1]; [by apply elem_of_nil in Hin|].
    cbn [row_records] in Hin.
    apply cell_records_elem in Hin as (j & c & content & Hj & Hd & Hc & ->).
    rewrite Nat.add_0_l, days_of_lookup in Hd.
    destruct (header !! S j) as [hc|] eqn:Hhc; simplify_eq/=.
    by exists c0, cells1, j, c, hc, content.
  - intros (c0 & cells1 & j & c & hc & content & Hrow & Hj & Hhc & -> & Hc & ->).
    exists (row_records (days_of header) (c0 :: cells1)). split.
    + cbn [row_records]. apply cell_records_elem.
      exists j, c, content. split_and!; try done.
      by rewrite Nat.add_0_l, days_of_lookup, Hhc.
    + by apply list_elem_of_fmap_2.
Qed.

(** Under the bound on the rows the grid is parsed, and each day of the
    header gets the records of its column. *)
Lemma parse_grid_spec (header : row) (body : list row) :
  Forall (λ cells, (length cells ≤ length header)%nat) body →
  ∃ week_courses,
    parse_grid header body = Ok week_courses ∧
    ∀ d, week_courses !! d
         = if decide (d ∈ days_of header)
           then Some (for_day d (grid_records header body)) else None.
Proof.
  intros Hrows. unfold parse_grid. cbv zeta.
  destruct (parse_rows_spec (days_of header) body
              (empty_courses (days_of header))) as (wc & Hwc & Hlook).
  - eapply Forall_impl; [exact Hrows|]. intros cells Hcells. simpl in Hcells.
    rewrite days_of_length. lia.
  - intros d Hd. rewrite empty_courses_lookup, decide_True by done. eauto.
  - exists wc. split; [done|]. intros d.
    rewrite Hlook, empty_courses_lookup. unfold grid_records.
    by destruct (decide (d ∈ days_of header)).
Qed.

(** C10. When no row of the table has more cells than its first row, the
    grid is parsed without any failed lookup of a day: the result maps each
    day of the header to the records met in its column, in the order of the
    rows, and holds no other key. A record stands under a day exactly when
    it comes from a cell with a course text that lies in the column of the
    header cell carrying that day, with the period read from the first
    cell of its row. A row without cells adds nothing. *)
Theorem grid_parsing_total (header : row) (body : list row) :
  Forall (λ cells, (length cells ≤ length header)%nat) body →
  (∃ week_courses,
     parse_grid header body = Ok week_courses ∧
     ∀ d, week_courses !! d
          = if decide (d ∈ days_of header)
            then Some (for_day d (grid_records header body)) else None) ∧
  (∀ d r, (d, r) ∈ grid_records header body ↔
     ∃ c0 cells1 j c hc content,
       (c0 :: cells1) ∈ body ∧ cells1 !! j = Some c ∧ header !! S j = Some hc ∧
       d = cell_text hc ∧ parse_course_content c = Some content ∧
       r = Course (remove_char newline (cell_text c0)) content) ∧
  parse_grid header ([] :: body) = parse_grid header body.
Proof.
  intros Hrows. split_and!.
  - by apply parse_grid_spec.
  - apply grid_records_elem.
  - reflexivity.
Qed.

Lemma grid_parsing_total_witness :
  ∃ week_courses,
    parse_grid Samples.header Samples.body = Ok week_courses ∧
    week_courses !! "星期一" = Some [Course "第1-2节" "高等数学 软件1班 王老师 A101"] ∧
    week_courses !! "星期二" = Some [Course "第3-4节" "大学英语 B202"] ∧
    week_courses !! "星期三" = None.
Proof.
  assert (Hrows : Forall (λ cells : row, (length cells ≤ length Samples.header)%nat)
                    Samples.body).
  { repeat constructor. }
  destruct (grid_parsing_total Samples.header Samples.body Hrows)
    as ((week_courses & Hparse & Hlook) & _ & _).
  exists week_courses. split; [exact Hparse|].
  rewrite !Hlook. split_and!; reflexivity.
Defined.

(** Without the bound on the rows a lookup can fail: a course in a column
    that the header does not have raises [IndexError]. *)
Example parse_grid_out_of_range :
  parse_grid [Samples.blank; Cell "星期一" None]
    [[Cell "第1-2节" None; Samples.blank; Samples.maths]]
  = Raise (Error IndexError "list index out of range").
Proof. reflexivity. Qed.

End grid_total.

(** ** The loop over the weeks *)

Section weeks.

Lemma extract_week_script_failed (wopt : opt) (o : week_obs) :
  script_failed o → extract_week wopt o = Ok None.
Proof.
  unfold script_failed, extract_week. intros ->.
  by destruct (val_name wopt).
Qed.

Lemma extract_week_alert (wopt : opt) (o : week_obs) :
  alert_dismissed o → extract_week wopt o = Ok None.
Proof.
  intros (text & Ha & Htext). unfold extract_week.
  destruct (val_name wopt). destruct (script_ok o); [|done].
  cbv zeta. rewrite Ha. simpl. by rewrite truthy_nonempty.
Qed.

Lemma extract_week_timeout (wopt : opt) (o : week_obs) :
  grid_timed_out o → extract_week wopt o = Ok None.
Proof.
  unfold grid_timed_out, extract_week. intros ->.
  destruct (val_name wopt). destruct (script_ok o); [|done].
  cbv zeta. by destruct (truthy_opt _).
Qed.


(** A turn on a well-formed table does not raise. *)
Lemma extract_week_ok (wopt : opt) (o : week_obs) :
  well_formed o → ∃ x, extract_week wopt o = Ok x.
Proof.
  intros Hwf. unfold extract_week. destruct (val_name wopt) as [v n].
  destruct (negb (script_ok o)); [eauto|]. cbv zeta.
  destruct (truthy_opt _); [eauto|].
  destruct (negb (grid_rendered o)); [eauto|].
  destruct (page_table o) as [[|header body]|] eqn:Hpage; [eauto| |eauto].
  destruct (parse_grid_spec header body) as (wc & -> & _); [by apply Hwf|].
  eauto.
Qed.

Lemma turns_cons (k : nat) (w : opt) (ws : list opt) :
  turns k (w :: ws) = (k, w) :: turns (S k) ws.
Proof.
  unfold turns. rewrite imap_cons, Nat.add_0_r. f_equal.
  apply imap_ext. intros i x _. simpl. f_equal. lia.
Qed.

(** When the loop ends normally, it has added the results of the turns
    that give one, in order, and has sent one script per week. *)
Lemma weeks_loop_ok (sem : string * string) (browser : nat → week_obs)
    (ws : list opt) (k : nat) (scripts scripts' : list selector_script)
    (acc weeks : list week_result) :
  weeks_loop sem browser k ws scripts acc = (scripts', Ok weeks) →
  weeks = acc ++ omap (produced browser) (turns k ws) ∧
  scripts' = scripts ++ (script_for sem <$> ws).
Proof.
  revert k scripts acc. induction ws as [|w ws IH]; intros k scripts acc Hloop.
  - simpl in Hloop. simplify_eq. by rewrite !app_nil_r.
  - cbn [weeks_loop] in Hloop. cbv zeta in Hloop.
    rewrite turns_cons, fmap_cons. cbn [omap list_omap].
    unfold produced at 1. cbn [fst snd].
    destruct (extract_week w (browser k)) as [[r|]|e]; [| |done].
    + apply IH in Hloop as [-> ->]. by rewrite <-!app_assoc.
    + apply IH in Hloop as [-> ->]. by rewrite <-!app_assoc.
Qed.

(** The loop ends normally when no turn raises. *)
Lemma weeks_loop_returns (sem : string * string) (browser : nat → week_obs)
    (ws : list opt) (k : nat) (scripts : list selector_script)
    (acc : list week_result) :
  (∀ i w, ws !! i = Some w → ∃ x, extract_week w (browser (k + i)%nat) = Ok x) →
  ∃ scripts' weeks, weeks_loop sem browser k ws scripts acc = (scripts', Ok weeks).
Proof.
  revert k scripts acc. induction ws as [|w ws IH]; intros k scripts acc Hok.
  - simpl. eauto.
  - cbn [weeks_loop]. cbv zeta.
    destruct (Hok 0%nat w eq_refl) as [x Hx]. rewrite Nat.add_0_r in Hx.
    rewrite Hx. destruct x as [r|]; apply IH; intros i w' Hi;
      specialize (Hok (S i) w' Hi); by rewrite Nat.add_succ_r in Hok.
Qed.

(** Scripts are sent for a prefix of the weeks, whatever the outcome. *)
Lemma weeks_loop_scripts (sem : string * string) (browser : nat → week_obs)
    (ws : list opt) (k : nat) (scripts : list selector_script)
    (acc : list week_result) :
  ∃ n, (weeks_loop sem browser k ws scripts acc).1
       = scripts ++ (script_for sem <$> take n ws).
Proof.
  revert k scripts acc. induction ws as [|w ws IH]; intros k scripts acc.
  - exists 0%nat. simpl. by rewrite app_nil_r.
  - cbn [weeks_loop]. cbv zeta.
    destruct (extract_week w (browser k)) as [[r|]|e].
    + destruct (IH (S k) (scripts ++ [SelectorScript sem (val_name w)])
                  (acc ++ [r])) as [n Hn].
      exists (S n). rewrite Hn. simpl. by rewrite <-app_assoc.
    + destruct (IH (S k) (scripts ++ [SelectorScript sem (val_name w)]) acc)
        as [n Hn].
      exists (S n). rewrite Hn. simpl. by rewrite <-app_assoc.
    + exists 1%nat. by destruct ws.
Qed.

Lemma produced_elem (browser : nat → week_obs) (ws : list opt) (k : nat)
    (r : week_result) :
  r ∈ omap (produced browser) (turns k ws) ↔
  ∃ i w, ws !! i = Some w ∧ extract_week w (browser (k + i)%nat) = Ok (Some r).
Proof.
  rewrite list_elem_of_omap. unfold turns. split.
  - intros ([j w] & Hin & Hprod).
    apply elem_of_lookup_imap in Hin as (i & w' & Heq & Hi). simplify_eq.
    exists i, w'. split; [done|]. unfold produced in Hprod. simpl in Hprod.
    repeat case_match; naive_solver.
  - intros (i & w & Hi & Hw). exists ((k + i)%nat, w). split.
    + apply elem_of_lookup_imap. by exists i, w.
    + unfold produced. simpl. by rewrite Hw.
Qed.


End weeks.

Section skipped_weeks.

(** C6. A week for which the script fails, or a dismissed alert has a
    non-empty text, or the grid does not render in time, ends its turn
    without a result. When the loop ends normally its list holds exactly
    the results of the turns that give one, in order, and each of them
    comes from a week that met none of the three conditions: a skipped
    week has no entry at all. The loop does end normally when no table
    shown has a row longer than its first row. With three weeks of which
    the second raises an alert and the others show courses, the answer
    lists two weeks. *)
Theorem skipped_weeks_absent :
  (∀ wopt o, script_failed o ∨ alert_dismissed o ∨ grid_timed_out o →
     extract_week wopt o = Ok None) ∧
  (∀ sem browser ws scripts weeks,
     weeks_loop sem browser 0 ws [] [] = (scripts, Ok weeks) →
     weeks = omap (produced browser) (turns 0 ws) ∧
     ∀ r, r ∈ weeks →
       ∃ i w, ws !! i = Some w ∧ extract_week w (browser i) = Ok (Some r) ∧
         ¬ (script_failed (browser i) ∨ alert_dismissed (browser i)
            ∨ grid_timed_out (browser i))) ∧
  (∀ sem browser ws,
     (∀ i, well_formed (browser i)) →
     ∃ scripts weeks, weeks_loop sem browser 0 ws [] [] = (scripts, Ok weeks)) ∧
  (∀ sem_options sem_id max_weeks browser sem w1 w2 w3 r1 r3,
     matched_sem sem_id sem_options = Some sem →
     3 ≤ max_weeks →
     extract_week w1 (browser 0%nat) = Ok (Some r1) →
     alert_dismissed (browser 1%nat) →
     extract_week w3 (browser 2%nat) = Ok (Some r3) →
     ∃ scripts resp,
       semester_weeks sem_options [w1; w2; w3] sem_id max_weeks browser
       = (scripts, Ok resp) ∧
       resp_weeks resp = [r1; r3] ∧ length (resp_weeks resp) = 2%nat).
Proof.
  assert (Hskip : ∀ wopt o,
            script_failed o ∨ alert_dismissed o ∨ grid_timed_out o →
            extract_week wopt o = Ok None).
  { intros wopt o [H|[H|H]];
      eauto using extract_week_script_failed, extract_week_alert,
                  extract_week_timeout. }
  split_and!; [exact Hskip| | |].
  - intros sem browser ws scripts weeks Hloop.
    apply weeks_loop_ok in Hloop as [-> _]. rewrite app_nil_l. split; [done|].
    intros r (i & w & Hi & Hw)%produced_elem. rewrite Nat.add_0_l in Hw.
    exists i, w. split_and!; [done..|].
    intros Hs. apply (Hskip w) in Hs. congruence.
  - intros sem browser ws Hwf. apply weeks_loop_returns.
    intros i w _. by apply extract_week_ok.
  - intros sem_options sem_id max_weeks browser [sem_value sem_name]
      w1 w2 w3 r1 r3 Hsem Hmax H1 H2 H3.
    unfold semester_weeks. rewrite Hsem.
    assert (week_prefix max_weeks [w1; w2; w3] = [w1; w2; w3]) as ->.
    { unfold week_prefix. apply take_ge. simpl. lia. }
    cbn [weeks_loop]. cbv zeta.
    rewrite H1, (extract_week_alert w2 _ H2), H3. simpl. eauto.
Qed.

Lemma skipped_weeks_absent_witness :
  ∃ scripts resp,
    semester_weeks [Samples.semester "42" "2024-2025学年秋季学期"]
      [Samples.week "1"; Samples.week "2"; Samples.week "3"] "42" 19
      (λ n, if decide (n = 1%nat) then Samples.alerted else Samples.shown)
    = (scripts, Ok resp) ∧
    week_id <$> resp_weeks resp = ["1"; "3"] ∧
    length (resp_weeks resp) = 2%nat.
Proof.
  destruct skipped_weeks_absent as (_ & _ & _ & Hthree).
  destruct (Hthree [Samples.semester "42" "2024-2025学年秋季学期"] "42" 19
              (λ n, if decide (n = 1%nat) then Samples.alerted else Samples.shown)
              ("42", "2024-2025学年秋季学期")
              (Samples.week "1") (Samples.week "2") (Samples.week "3")
              (WeekResult "1" "第1周"
                 (default ∅ (match parse_grid Samples.header Samples.body with
                             | Ok wc => Some wc | Raise _ => None end)))
              (WeekResult "3" "第3周"
                 (default ∅ (match parse_grid Samples.header Samples.body with
                             | Ok wc => Some wc | Raise _ => None end))))
    as (scripts & resp & Hresp & Hweeks & Hlen).
  - reflexivity.
  - lia.
  - reflexivity.
  - exists "该周无课表". split; [reflexivity|discriminate].
  - reflexivity.
  - exists scripts, resp. split; [exact Hresp|]. split; [|exact Hlen].
    by rewrite Hweeks.
Defined.

End skipped_weeks.

(** ** Validation of the semester and the bound on the weeks *)

Section validation.







End validation.

(** ** The pool: usage counters, replacement and failures *)

Section pool.

(** What [create_driver] does, by the outcome of the launches. *)
Lemma create_driver_primary (w : world) (d : driver) :
  chrome w (launches w) = Ok d →
  create_driver w = (Returns d, with_launches S w).
Proof. intros H. unfold create_driver, try_except, Chrome. by rewrite H. Qed.

Lemma create_driver_fallback (w : world) (msg : string) (d : driver) :
  chrome w (launches w) = Raise (Error SessionNotCreatedException msg) →
  chrome w (S (launches w)) = Ok d →
  create_driver w = (Returns d, with_launches (λ n, S (S n)) w).
Proof.
  intros H1 H2. unfold create_driver, try_except, Chrome. rewrite H1.
  simpl. by rewrite H2.
Qed.

(** A browser that [create_driver] returns was started by the last launch
    of the call, and nothing but the count of launches has changed. *)
Lemma create_driver_returns (w w' : world) (d : driver) :
  create_driver w = (Returns d, w') →
  ∃ k, w' = with_launches (Nat.add (S k)) w ∧
       chrome w (launches w + k)%nat = Ok d.
Proof.
  unfold create_driver, try_except, Chrome.
  destruct (chrome w (launches w)) as [d0|e] eqn:H1.
  - intros [= <- <-]. exists 0%nat. by rewrite Nat.add_0_r.
  - destruct e as [c m|[] m]; simpl; try done.
    destruct (chrome w (S (launches w))) as [d1|e1] eqn:H2; [|done].
    intros [= <- <-]. exists 1%nat. by rewrite Nat.add_1_r.
Qed.

(** [create_driver] never blocks, and raises what a launch raised. *)
Lemma create_driver_raises (w w' : world) (e : exn) :
  create_driver w = (Raises e, w') →
  ∃ n, (launches w ≤ n)%nat ∧ chrome w n = Raise e.
Proof.
  unfold create_driver, try_except, Chrome.
  destruct (chrome w (launches w)) as [d0|e0] eqn:H1; [done|].
  destruct e0 as [c m|[] m]; simpl;
    try (intros [= <- <-]; exists (launches w); by split).
  destruct (chrome w (S (launches w))) as [d1|e1] eqn:H2; [done|].
  intros [= <- <-]. exists (S (launches w)). split; [lia|done].
Qed.

Lemma create_driver_not_blocked (w w' : world) :
  create_driver w ≠ (Blocks, w').
Proof.
  unfold create_driver, try_except, Chrome.
  destruct (chrome w (launches w)) as [d0|e0]; [done|].
  destruct e0 as [c m|[] m]; simpl; try done.
  by destruct (chrome w (S (launches w))).
Qed.

Lemma take_or_create_pool (w : world) (d : driver) (rest : list driver) :
  driver_pool w = d :: rest →
  take_or_create w = (Returns d, with_pool (λ _, rest) w).
Proof. intros H. unfold take_or_create, bind, get_nowait. by rewrite H. Qed.

Lemma take_or_create_empty (w : world) :
  driver_pool w = [] →
  take_or_create w
  = match create_driver w with
    | (Raises e, w1) =>
        (Raises (HTTPException 503 ("Chrome 启动失败: " +:+ str e)), w1)
    | r => r
    end.
Proof.
  intros H. unfold take_or_create, bind, get_nowait, try_except. rewrite H.
  by destruct (create_driver w) as [[d|e|] w1].
Qed.

Lemma check_usage_keep (d : driver) (w : world) :
  usage w d < MAX_USAGE_PER_DRIVER → check_usage d w = (Returns d, w).
Proof.
  intros H. unfold check_usage, bind, gets.
  by rewrite bool_decide_eq_false_2 by lia.
Qed.

Lemma check_usage_replace (d : driver) (w : world) :
  MAX_USAGE_PER_DRIVER ≤ usage w d →
  check_usage d w
  = match create_driver (with_quitted (λ q, {[d]} ∪ q) w) with
    | (Returns d', w2) => (Returns d', with_usage (<[d := 0]>) w2)
    | (Raises e, w2) => (Raises e, w2)
    | (Blocks, w2) => (Blocks, w2)
    end.
Proof.
  intros H. unfold check_usage, bind, gets, quit, modify, ret.
  rewrite bool_decide_eq_true_2 by done.
  by destruct (create_driver _) as [[d'|e|] w2].
Qed.

(** The browser that the first block returns, and the globals after it:
    the pool without its head, or a new browser and more launches. *)
Lemma take_or_create_returns (w w' : world) (d : driver) :
  take_or_create w = (Returns d, w') →
  (∃ rest, driver_pool w = d :: rest ∧ w' = with_pool (λ _, rest) w) ∨
  (driver_pool w = [] ∧
   ∃ k, w' = with_launches (Nat.add (S k)) w ∧
        chrome w (launches w + k)%nat = Ok d).
Proof.
  destruct (driver_pool w) as [|d0 rest] eqn:Hpool.
  - rewrite take_or_create_empty by done.
    destruct (create_driver w) as [[d1|e|] w1] eqn:Hc; [|done..].
    intros [= <- <-]. right. split; [done|]. by apply create_driver_returns.
  - rewrite (take_or_create_pool w d0 rest) by done.
    intros [= <- <-]. left. by exists rest.
Qed.



(** [get_driver] never blocks, and it raises only when a launch of the
    call has raised: either what the launch raised, or the 503 made from
    it. *)
Lemma get_driver_raises (w w' : world) (e : exn) :
  get_driver w = (Raises e, w') →
  ∃ n e0, (launches w ≤ n)%nat ∧ chrome w n = Raise e0 ∧
    (e = e0 ∨ e = HTTPException 503 ("Chrome 启动失败: " +:+ str e0)).
Proof.
  unfold get_driver, bind.
  destruct (take_or_create w) as [[d0|e0|] w0] eqn:Ht.
  - assert (Hw0 : chrome w0 = chrome w ∧ (launches w ≤ launches w0)%nat).
    { apply take_or_create_returns in Ht
        as [(rest & _ & ->)|(_ & k & -> & _)]; cbn; split; try done; lia. }
    destruct Hw0 as (Hc0 & Hl0).
    destruct (decide (usage w0 d0 < MAX_USAGE_PER_DRIVER)) as [Hlt|Hge].
    + by rewrite check_usage_keep by done.
    + rewrite check_usage_replace by lia.
      destruct (create_driver _) as [[d1|e1|] w2] eqn:Hc; [done| |done].
      intros [= <- <-]. apply create_driver_raises in Hc as (n & Hn & He).
      cbn in Hn, He. exists n, e1. split_and!; [lia|by rewrite <-Hc0|by left].
  - intros [= <- <-].
    destruct (driver_pool w) as [|d rest] eqn:Hpool.
    + rewrite take_or_create_empty in Ht by done.
      destruct (create_driver w) as [[d1|e1|] w1] eqn:Hc; [done| |done].
      injection Ht as <- <-. apply create_driver_raises in Hc as (n & Hn & He).
      exists n, e1. split_and!; [done..|by right].
    + by rewrite (take_or_create_pool w d rest) in Ht.
  - done.
Qed.

Lemma get_driver_not_blocked (w w' : world) : get_driver w ≠ (Blocks, w').
Proof.
  unfold get_driver, bind.
  destruct (take_or_create w) as [[d0|e0|] w0] eqn:Ht; [|done|].
  - destruct (decide (usage w0 d0 < MAX_USAGE_PER_DRIVER)) as [Hlt|Hge].
    + by rewrite check_usage_keep by done.
    + rewrite check_usage_replace by lia.
      destruct (create_driver _) as [[d1|e1|] w2] eqn:Hc; [done..|].
      by apply create_driver_not_blocked in Hc.
  - destruct (driver_pool w) as [|d rest] eqn:Hpool.
    + rewrite take_or_create_empty in Ht by done.
      destruct (create_driver w) as [[d1|e1|] w1] eqn:Hc; [done..|].
      by apply create_driver_not_blocked in Hc.
    + by rewrite (take_or_create_pool w d rest) in Ht.
Qed.

(** With an empty pool and new browsers that have no usage on record, a
    failure is always answered with 503. *)
Lemma get_driver_empty_503 (w w' : world) (e : exn) :
  driver_pool w = [] → fresh_launches w → get_driver w = (Raises e, w') →
  ∃ e0 n, (launches w ≤ n)%nat ∧ chrome w n = Raise e0 ∧
          e = HTTPException 503 ("Chrome 启动失败: " +:+ str e0).
Proof.
  intros Hpool Hfresh. unfold get_driver, bind.
  rewrite take_or_create_empty by done.
  destruct (create_driver w) as [[d1|e1|] w1] eqn:Hc; [| |done].
  - apply create_driver_returns in Hc as (k & -> & Hk).
    rewrite check_usage_keep; [done|].
    unfold usage. cbn. rewrite (Hfresh (launches w + k)%nat d1); [done|lia|done].
  - intros [= <- <-]. apply create_driver_raises in Hc as (n & Hn & He).
    by exists e1, n.
Qed.

(** C3. The failing case: the pool holds a browser that has reached the
    usage ceiling and no browser can be started. [get_driver] then lets
    the exception of the launch escape as it is, and so does the handler
    [get_captcha], whereas with an empty pool the same failure is
    answered with 503. *)
Theorem acquire_replacement_failure_escapes :
  (get_driver (Samples.worn Samples.no_chrome)).1
  = Raises (Error WebDriverException "chrome not reachable") ∧
  (get_captcha 0 (Ok (Some "data:image/png;base64,AAAA")) (Ok tt) "5f2a" 1000
     (Samples.worn Samples.no_chrome)).1
  = Raises (Error WebDriverException "chrome not reachable") ∧
  (get_driver (initial Samples.no_chrome)).1
  = Raises (HTTPException 503 "Chrome 启动失败: chrome not reachable").
Proof. split_and!; reflexivity. Qed.

End pool.

(** ** The sweeps *)

Section sweeps.

Lemma sweep_scan_foldl (threshold now : Z) (l : list (string * Z))
    (acc : list string) (w : world) :
  foldl (λ acc item,
           if bool_decide (now - item.2 > threshold)
           then (acc.1 ++ [item.1], quit_session item.1 acc.2)
           else acc) (acc, w) l
  = (acc ++ (filter (λ item, now - item.2 > threshold) l).*1,
     foldl (λ w sid, quit_session sid w) w
       (filter (λ item, now - item.2 > threshold) l).*1).
Proof.
  revert acc w. induction l as [|item l IH]; intros acc w.
  - simpl. by rewrite app_nil_r.
  - rewrite filter_cons. cbn [foldl]. case_bool_decide as Hold.
    + rewrite decide_True by done. cbn [fst snd]. rewrite IH, fmap_cons.
      cbn [foldl]. by rewrite <-app_assoc.
    + rewrite decide_False by done. apply IH.
Qed.

Lemma sweep_unfold (threshold now : Z) (w : world) :
  sweep threshold now w
  = foldl (λ w sid, pop_session sid w)
      (foldl (λ w sid, quit_session sid w) w (expired_sessions threshold now w))
      (expired_sessions threshold now w).
Proof.
  unfold sweep, sweep_scan, expired_sessions. by rewrite sweep_scan_foldl.
Qed.

Lemma expired_sessions_elem (threshold now : Z) (w : world) (sid : string) :
  sid ∈ expired_sessions threshold now w ↔
  ∃ t, driver_expiry w !! sid = Some t ∧ now - t > threshold.
Proof.
  unfold expired_sessions. rewrite list_elem_of_fmap. split.
  - intros ([sid' t] & -> & [Hold Hin]%list_elem_of_filter).
    apply elem_of_map_to_list in Hin. by exists t.
  - intros (t & Ht & Hold). exists (sid, t). split; [done|].
    apply list_elem_of_filter. split; [done|]. by apply elem_of_map_to_list.
Qed.

(** The first loop only calls [quit]. *)
Lemma quit_sessions_globals (keys : list string) (w : world) :
  let w' := foldl (λ w sid, quit_session sid w) w keys in
  driver_pool w' = driver_pool w ∧ drivers w' = drivers w ∧
  driver_expiry w' = driver_expiry w ∧
  driver_usage_count w' = driver_usage_count w ∧ timers w' = timers w ∧
  chrome w' = chrome w ∧ launches w' = launches w ∧
  ∀ d, d ∈ quitted w' ↔
       d ∈ quitted w ∨ ∃ sid, sid ∈ keys ∧ drivers w !! sid = Some d.
Proof.
  revert w. induction keys as [|sid keys IH]; intros w; cbn [foldl].
  - split_and!; try done. intros d. split; [by left|].
    intros [?|(sid & []%elem_of_nil & _)]. done.
  - destruct (IH (quit_session sid w)) as (-> & -> & -> & -> & -> & -> & -> & Hq).
    assert (Hsame : drivers (quit_session sid w) = drivers w).
    { unfold quit_session. by destruct (drivers w !! sid). }
    unfold quit_session at 1 2 3 4 5 6 7.
    split_and!; try (by destruct (drivers w !! sid)).
    intros d. rewrite Hq, Hsame. setoid_rewrite elem_of_cons.
    unfold quit_session. destruct (drivers w !! sid) as [d0|] eqn:Hsid; cbn.
    + rewrite elem_of_union, elem_of_singleton. split.
      * intros [[->|Hq']|(s & Hs & Hd)];
          [right; exists sid; eauto|by left|right; exists s; eauto].
      * intros [Hq'|(s & [->|Hs] & Hd)];
          [left; by right|left; left; congruence|right; exists s; eauto].
    + split.
      * intros [Hq'|(s & Hs & Hd)]; [by left|right; exists s; eauto].
      * intros [Hq'|(s & [->|Hs] & Hd)];
          [by left|congruence|right; exists s; eauto].
Qed.

(** The second loop only removes the noted ids from the two maps. *)
Lemma pop_sessions_globals (keys : list string) (w : world) :
  let w' := foldl (λ w sid, pop_session sid w) w keys in
  driver_pool w' = driver_pool w ∧ quitted w' = quitted w ∧
  driver_usage_count w' = driver_usage_count w ∧ timers w' = timers w ∧
  chrome w' = chrome w ∧ launches w' = launches w ∧
  (∀ sid, drivers w' !! sid
          = if decide (sid ∈ keys) then None else drivers w !! sid) ∧
  (∀ sid, driver_expiry w' !! sid
          = if decide (sid ∈ keys) then None else driver_expiry w !! sid).
Proof.
  revert w. induction keys as [|k keys IH]; intros w; cbn [foldl].
  - split_and!; try done; intros sid; by rewrite decide_False by apply not_elem_of_nil.
  - destruct (IH (pop_session k w)) as (-> & -> & -> & -> & -> & -> & Hd & He).
    split_and!; try done; intros sid; rewrite ?Hd, ?He; cbn.
    + destruct (decide (sid ∈ keys)) as [Hin|Hnin].
      * rewrite decide_True; [done|]. by apply list_elem_of_further.
      * destruct (decide (k = sid)) as [->|Hne].
        -- rewrite lookup_delete_eq, decide_True; [done|]. apply list_elem_of_here.
        -- rewrite lookup_delete_ne by done. rewrite decide_False; [done|].
           intros [Heq|Hin]%elem_of_cons; [by apply Hne|by apply Hnin].
    + destruct (decide (sid ∈ keys)) as [Hin|Hnin].
      * rewrite decide_True; [done|]. by apply list_elem_of_further.
      * destruct (decide (k = sid)) as [->|Hne].
        -- rewrite lookup_delete_eq, decide_True; [done|]. apply list_elem_of_here.
        -- rewrite lookup_delete_ne by done. rewrite decide_False; [done|].
           intros [Heq|Hin]%elem_of_cons; [by apply Hne|by apply Hnin].
Qed.

(** What a sweep changes: the expired ids leave both maps, [quit] is
    called on their browsers, and nothing else moves. *)
Lemma sweep_spec (threshold now : Z) (w : world) :
  let w' := sweep threshold now w in
  driver_pool w' = driver_pool w ∧
  driver_usage_count w' = driver_usage_count w ∧ timers w' = timers w ∧
  chrome w' = chrome w ∧ launches w' = launches w ∧
  (∀ sid, drivers w' !! sid
          = if decide (sid ∈ expired_sessions threshold now w) then None
            else drivers w !! sid) ∧
  (∀ sid, driver_expiry w' !! sid
          = if decide (sid ∈ expired_sessions threshold now w) then None
            else driver_expiry w !! sid) ∧
  (∀ d, d ∈ quitted w' ↔
        d ∈ quitted w ∨
        ∃ sid, sid ∈ expired_sessions threshold now w ∧ drivers w !! sid = Some d).
Proof.
  cbv zeta. rewrite sweep_unfold.
  set (keys := expired_sessions threshold now w).
  destruct (quit_sessions_globals keys w)
    as (Hp1 & Hd1 & He1 & Hu1 & Ht1 & Hc1 & Hl1 & Hq1).
  destruct (pop_sessions_globals keys
              (foldl (λ w sid, quit_session sid w) w keys))
    as (Hp2 & Hq2 & Hu2 & Ht2 & Hc2 & Hl2 & Hd2 & He2).
  rewrite Hp2, Hu2, Ht2, Hc2, Hl2, Hq2. split_and!; try done.
  - intros sid. by rewrite Hd2, Hd1.
  - intros sid. by rewrite He2, He1.
Qed.

(** [shrink] takes browsers from the head of the pool and calls [quit] on
    them; the sessions are not touched. *)
Lemma shrink_spec (n : nat) (w : world) :
  let w' := (shrink n w).2 in
  driver_pool w' = drop n (driver_pool w) ∧
  drivers w' = drivers w ∧ driver_expiry w' = driver_expiry w ∧
  driver_usage_count w' = driver_usage_count w ∧ timers w' = timers w ∧
  chrome w' = chrome w ∧ launches w' = launches w ∧
  quitted w' = list_to_set (take n (driver_pool w)) ∪ quitted w.
Proof.
  revert w. induction n as [|n IH]; intros w.
  - cbn. rewrite drop_0, take_0, list_to_set_nil. split_and!; try done.
    by rewrite (left_id_L ∅ (∪)).
  - cbn [shrink]. unfold bind, get_nowait, quit, modify.
    destruct (driver_pool w) as [|d rest] eqn:Hpool.
    + cbn. rewrite Hpool. split_and!; try done.
      by rewrite (left_id_L ∅ (∪)).
    + cbn [fst snd]. cbv zeta in IH.
      destruct (IH (with_quitted (λ q, {[d]} ∪ q) (with_pool (λ _, rest) w)))
        as (-> & -> & -> & -> & -> & -> & -> & ->).
      split_and!; try done.
      change (list_to_set (take n rest) ∪ ({[d]} ∪ quitted w)
              = list_to_set (d :: take n rest) ∪ quitted w).
      rewrite list_to_set_cons.
      by rewrite (comm_L (∪) {[d]} (list_to_set (take n rest))),
                 (assoc_L (∪)).
Qed.



End sweeps.

(** ** The pool and the sessions never share a browser *)

Section disjoint.

Lemma steady_refl (w : world) : steady w w.
Proof. by split_and!. Qed.

Lemma steady_trans (w1 w2 w3 : world) : steady w1 w2 → steady w2 w3 → steady w1 w3.
Proof.
  intros (Hp1 & Hd1 & Hc1 & Hl1) (Hp2 & Hd2 & Hc2 & Hl2).
  split_and!; [congruence..|lia].
Qed.

Lemma steady_launched (w w' : world) (d : driver) :
  steady w w' → launched w d → launched w' d.
Proof.
  intros (_ & _ & Hc & Hl) (n & Hn & Hd). exists n. split; [lia|].
  by rewrite Hc.
Qed.

Lemma steady_invariant (w w' : world) :
  steady w w' → pool_invariant w → pool_invariant w'.
Proof.
  intros Hs (Hnd & Hdis & Hpool & Hreg).
  pose proof Hs as (Hp & Hd & Hc & Hl).
  unfold pool_invariant, pool_registry_disjoint. rewrite Hp, Hd.
  split_and!; [done..| |]; eauto using steady_launched.
Qed.

Lemma steady_spare (w w' : world) (d : driver) :
  steady w w' → spare w d → spare w' d.
Proof.
  intros Hs (Hnp & Hnr & Hl). pose proof Hs as (Hp & Hd & _).
  unfold spare. rewrite Hp, Hd. eauto using steady_launched.
Qed.

(** Whatever [create_driver] does, it only makes launches. *)
Lemma create_driver_steady (w : world) : steady w (create_driver w).2.
Proof.
  unfold steady, create_driver, try_except, Chrome.
  destruct (chrome w (launches w)) as [d0|e0]; cbn.
  - split_and!; try done; lia.
  - destruct e0 as [c m|[] m]; cbn; try (split_and!; try done; lia).
    destruct (chrome w (S (launches w))); cbn; split_and!; try done; lia.
Qed.

(** A browser that has just been started is held by nobody, provided no
    two launches give the same browser. *)
Lemma create_driver_spare (w w' : world) (d : driver) :
  distinct_launches (chrome w) → pool_invariant w →
  create_driver w = (Returns d, w') → spare w' d.
Proof.
  intros Hdist (_ & _ & Hpool & Hreg) Hc.
  apply create_driver_returns in Hc as (k & -> & Hk).
  assert (Hnew : ¬ launched w d).
  { intros (n & Hn & Hd). specialize (Hdist _ _ _ Hd Hk). lia. }
  split_and!; cbn.
  - intros Hin. by apply Hnew, Hpool.
  - intros sid Hsid. by apply Hnew, (Hreg sid).
  - exists (launches w + k)%nat. cbn. split; [lia|done].
Qed.

(** The invariant survives when the pool and the sessions only lose
    entries. *)
Lemma invariant_shrink (w w' : world) :
  pool_invariant w → NoDup (driver_pool w') →
  (∀ d, d ∈ driver_pool w' → d ∈ driver_pool w) →
  (∀ sid d, drivers w' !! sid = Some d → drivers w !! sid = Some d) →
  chrome w' = chrome w → (launches w ≤ launches w')%nat →
  pool_invariant w'.
Proof.
  intros (Hnd & Hdis & Hpool & Hreg) Hnd' Hsub Hsess Hc Hl.
  assert (Hlaunched : ∀ d, launched w d → launched w' d).
  { intros d (n & Hn & Hd). exists n. split; [lia|]. by rewrite Hc. }
  split_and!; [done| | |].
  - intros sid d Hsid Hin. by apply (Hdis sid d); [apply Hsess|apply Hsub].
  - intros d Hin. by apply Hlaunched, Hpool, Hsub.
  - intros sid d Hsid. by apply Hlaunched, (Hreg sid), Hsess.
Qed.

(** Putting a held browser at the end of the pool keeps the invariant. *)
Lemma push_invariant (w : world) (d : driver) :
  pool_invariant w → spare w d →
  pool_invariant (with_pool (λ p, p ++ [d]) w).
Proof.
  intros (Hnd & Hdis & Hpool & Hreg) (Hnp & Hnr & Hl).
  split_and!; cbn.
  - apply NoDup_app. split_and!; [done| |apply NoDup_singleton].
    intros x Hx ->%list_elem_of_singleton. done.
  - intros sid d' Hsid [Hin| ->%list_elem_of_singleton]%elem_of_app.
    + by apply (Hdis sid d').
    + by apply (Hnr sid).
  - intros d' [Hin| ->%list_elem_of_singleton]%elem_of_app; [by apply Hpool|done].
  - exact Hreg.
Qed.

Lemma put_invariant (w : world) (d : driver) :
  pool_invariant w → spare w d →
  pool_invariant (put d w).2 ∧ drivers (put d w).2 = drivers w ∧
  chrome (put d w).2 = chrome w.
Proof.
  intros Hinv Hd. unfold put. case_bool_decide; cbn; [|done].
  split_and!; [|done..]. by apply push_invariant.
Qed.

Lemma take_or_create_invariant (w : world) :
  distinct_launches (chrome w) → pool_invariant w →
  pool_invariant (take_or_create w).2 ∧
  drivers (take_or_create w).2 = drivers w ∧
  chrome (take_or_create w).2 = chrome w ∧
  ∀ d, (take_or_create w).1 = Returns d → spare (take_or_create w).2 d.
Proof.
  intros Hdist Hinv. destruct (driver_pool w) as [|d0 rest] eqn:Hpool.
  - rewrite take_or_create_empty by done.
    pose proof (create_driver_steady w) as Hs.
    pose proof (create_driver_spare w) as Hsp.
    destruct (create_driver w) as [[d1|e1|] w1]; cbn in *;
      (split_and!; [by eapply steady_invariant|apply Hs|apply Hs|]);
      intros d [= <-]. by apply Hsp.
  - rewrite (take_or_create_pool w d0 rest) by done. cbn.
    destruct Hinv as (Hnd & Hdis & Hin & Hreg). rewrite Hpool in Hnd, Hin.
    apply NoDup_cons in Hnd as [Hd0 Hnd].
    assert (Hhead : d0 ∈ driver_pool w) by (rewrite Hpool; apply list_elem_of_here).
    split_and!; [|done..|].
    + split_and!; cbn; [done| | |done].
      * intros sid d Hsid Hd. apply (Hdis sid d Hsid). rewrite Hpool.
        by apply list_elem_of_further.
      * intros d Hd. by apply Hin, list_elem_of_further.
    + intros d [= <-]. split_and!; cbn; [done| |].
      * intros sid Hsid. by apply (Hdis sid d0).
      * apply Hin, list_elem_of_here.
Qed.

Lemma check_usage_invariant (d : driver) (w : world) :
  distinct_launches (chrome w) → pool_invariant w → spare w d →
  steady w (check_usage d w).2 ∧
  ∀ d', (check_usage d w).1 = Returns d' → spare (check_usage d w).2 d'.
Proof.
  intros Hdist Hinv Hd.
  destruct (decide (usage w d < MAX_USAGE_PER_DRIVER)) as [Hlt|Hge].
  - rewrite check_usage_keep by done. cbn. split; [apply steady_refl|].
    by intros d' [= <-].
  - rewrite check_usage_replace by lia.
    set (w1 := with_quitted (λ q, {[d]} ∪ q) w).
    assert (Hs1 : steady w w1) by (by split_and!).
    pose proof (create_driver_steady w1) as Hs.
    pose proof (create_driver_spare w1) as Hsp.
    destruct (create_driver w1) as [[d1|e1|] w2]; cbn in *.
    + split.
      * eapply steady_trans; [exact Hs1|]. destruct Hs as (? & ? & ? & ?).
        by split_and!.
      * intros d' [= <-].
        apply (steady_spare w2); [by split_and!|].
        apply Hsp; [done|by eapply steady_invariant|done].
    + split; [by eapply steady_trans|done].
    + split; [by eapply steady_trans|done].
Qed.

Lemma get_driver_invariant (w : world) :
  distinct_launches (chrome w) → pool_invariant w →
  pool_invariant (get_driver w).2 ∧ drivers (get_driver w).2 = drivers w ∧
  chrome (get_driver w).2 = chrome w ∧
  ∀ d, (get_driver w).1 = Returns d → spare (get_driver w).2 d.
Proof.
  intros Hdist Hinv. unfold get_driver, bind.
  destruct (take_or_create_invariant w Hdist Hinv) as (Hinv0 & Hd0 & Hc0 & Hsp0).
  destruct (take_or_create w) as [[d0|e0|] w0]; cbn [fst snd] in *; [|done..].
  destruct (check_usage_invariant d0 w0) as (Hs & Hsp);
    [by rewrite Hc0|done|by apply Hsp0|].
  destruct (check_usage d0 w0) as [o w1]. cbn [fst snd] in *.
  destruct Hs as (Hp1 & Hd1 & Hc1 & Hl1).
  split_and!; [|congruence..|done].
  eapply steady_invariant; [|exact Hinv0]. by split_and!.
Qed.

Lemma release_driver_invariant (clean : result unit) (d : driver) (w : world) :
  distinct_launches (chrome w) → pool_invariant w → spare w d →
  pool_invariant (release_driver clean d w).2 ∧
  drivers (release_driver clean d w).2 = drivers w ∧
  chrome (release_driver clean d w).2 = chrome w.
Proof.
  intros Hdist Hinv Hd. unfold release_driver, try_except, bind, lift.
  destruct clean as [[]|e]; cbn.
  - unfold gets, modify. cbn.
    set (w1 := with_usage _ w).
    assert (Hs1 : steady w w1) by (by split_and!).
    destruct (put_invariant w1 d) as (Hi & Hdr & Hch);
      [by eapply steady_invariant|by eapply steady_spare|].
    destruct (put d w1) as [[[]|e|] w2] eqn:Hput; cbn in *; try done.
    unfold put in Hput. by case_bool_decide.
  - unfold quit, modify. cbn.
    set (w1 := with_quitted _ w).
    assert (Hs1 : steady w w1) by (by split_and!).
    pose proof (create_driver_steady w1) as Hs.
    pose proof (create_driver_spare w1) as Hsp.
    destruct (create_driver w1) as [[d1|e1|] w2]; cbn in *.
    + destruct (put_invariant w2 d1) as (Hi & Hdr & Hch).
      { eapply steady_invariant; [exact Hs|]. by eapply steady_invariant. }
      { apply Hsp; [done|by eapply steady_invariant|done]. }
      destruct Hs as (? & ? & ? & ?).
      destruct (put d1 w2) as [[[]|e2|] w3] eqn:Hput; cbn in *;
        split_and!; try done; try congruence.
    + destruct Hs as (? & ? & ? & ?). split_and!; [|done..].
      eapply (steady_invariant w); [|done]. by split_and!.
    + destruct Hs as (? & ? & ? & ?). split_and!; [|done..].
      eapply (steady_invariant w); [|done]. by split_and!.
Qed.

(** Binding a held browser to a session keeps the invariant. *)
Lemma register_invariant (sid : string) (d : driver) (now : Z) (w : world) :
  pool_invariant w → spare w d →
  pool_invariant (register sid d now w).2 ∧
  chrome (register sid d now w).2 = chrome w.
Proof.
  intros (Hnd & Hdis & Hpool & Hreg) (Hnp & Hnr & Hl).
  unfold register, bind, modify. cbn. split; [|done].
  split_and!; cbn; [done| |done|].
  - intros sid' d' Hsid. cbn in Hsid.
    destruct (decide (sid = sid')) as [<-|Hne].
    + rewrite lookup_insert_eq in Hsid. by simplify_eq.
    + rewrite lookup_insert_ne in Hsid by done. by apply (Hdis sid').
  - intros sid' d' Hsid. cbn in Hsid.
    destruct (decide (sid = sid')) as [<-|Hne].
    + rewrite lookup_insert_eq in Hsid. by simplify_eq.
    + rewrite lookup_insert_ne in Hsid by done. by apply (Hreg sid').
Qed.

Lemma get_captcha_invariant (rss : Z) (page : result (option string))
    (clean : result unit) (sid : string) (now : Z) (w : world) :
  distinct_launches (chrome w) → pool_invariant w →
  pool_invariant (get_captcha rss page clean sid now w).2 ∧
  chrome (get_captcha rss page clean sid now w).2 = chrome w.
Proof.
  intros Hdist Hinv.
  pose (P := λ x : outcome captcha_response * world,
               pool_invariant x.2 ∧ chrome x.2 = chrome w).
  change (P (get_captcha rss page clean sid now w)).
  unfold get_captcha.
  destruct (over_mb 500 rss); [by split|]. unfold bind at 1.
  destruct (get_driver_invariant w Hdist Hinv) as (Hinv1 & Hd1 & Hc1 & Hsp1).
  destruct (get_driver w) as [[d|e|] w1]; cbn [fst snd] in *; [|by split..].
  specialize (Hsp1 d eq_refl).
  assert (Hfail : ∀ e,
    P ((release_driver clean d ;;; raise (HTTPException 500 (str e))) w1)).
  { intros e. unfold bind, P.
    destruct (release_driver_invariant clean d w1) as (Hi & _ & Hc);
      [by rewrite Hc1|done..|].
    destruct (release_driver clean d w1) as [[[]|e'|] w2]; cbn in *;
      split; try done; congruence. }
  unfold try_except, bind at 1, lift.
  destruct page as [[src|]|e]; cbn [ret raise]; try apply Hfail.
  destruct (truthy src && String.prefix "data:image" src); [|apply Hfail].
  unfold bind, P. destruct (register_invariant sid d now w1) as (Hi & Hc); [done..|].
  destruct (register sid d now w1) as [[[]|e'|] w2] eqn:Hreg; cbn in *;
    try (split; [done|congruence]).
  all: unfold register, bind, modify in Hreg; done.
Qed.

(** [get_timetable] changes nothing but the timestamps. *)
Lemma get_timetable_steady (rss : Z) (req : timetable_request)
    (p : timetable_page) (year month now : Z) (w : world) :
  steady w (get_timetable rss req p year month now w).2.
Proof.
  unfold get_timetable, bind, gets, try_finally, try_except, lift, touch,
    modify, ret, raise.
  destruct (over_mb 500 rss); [apply steady_refl|].
  destruct (drivers w !! tr_session_id req) as [d|] eqn:Hd; [|apply steady_refl].
  destruct (tp_captcha_src p) as [captcha_src|e]; cbn.
  - destruct (truthy_opt (tr_captcha req)); cbn.
    + destruct (tp_form p) as [[]|e]; cbn.
      * destruct (tp_login_wait p); cbn.
        -- destruct (tp_open_schedule p) as [[]|e]; cbn.
           ++ destruct (read_dropdowns p) as [sems weeks]. cbn.
              rewrite bool_decide_eq_true_2 by eauto. by split_and!.
           ++ rewrite bool_decide_eq_true_2 by eauto. by split_and!.
        -- rewrite bool_decide_eq_true_2 by eauto. by split_and!.
      * rewrite bool_decide_eq_true_2 by eauto. by split_and!.
    + rewrite bool_decide_eq_true_2 by eauto. by split_and!.
  - rewrite bool_decide_eq_true_2 by eauto. by split_and!.
Qed.

(** [get_semester_weeks] touches a timestamp, or starts a browser of its
    own and quits it. *)
Lemma get_semester_weeks_steady (rss : Z) (req : weeks_request)
    (p : weeks_page) (now : Z) (w : world) :
  steady w (get_semester_weeks rss req p now w).2.
Proof.
  unfold get_semester_weeks.
  destruct (over_mb 500 rss); [apply steady_refl|].
  unfold bind at 1, gets.
  destruct (match wr_session_id req with
            | Some sid => _
            | None => None
            end) as [sid|].
  - unfold try_except, bind, lift, touch, modify, ret, reraise.
    destruct (wp_open_schedule p) as [[]|e]; cbn.
    + destruct (extraction req p) as [resp|e]; cbn; [by split_and!|].
      destruct e; apply steady_refl.
    + destruct e; apply steady_refl.
  - destruct (negb _); [apply steady_refl|]. unfold bind at 1.
    pose proof (create_driver_steady w) as Hs.
    destruct (create_driver w) as [[d|e|] w1]; cbn [fst snd] in *; [|done..].
    eapply steady_trans; [exact Hs|].
    unfold try_finally, try_except, bind, lift, login, quit, modify, ret, reraise.
    destruct (wp_login p) as [|a|e]; cbn.
    + destruct (wp_open_schedule p) as [[]|e]; cbn.
      * destruct (extraction req p) as [resp|e]; cbn; [by split_and!|].
        destruct e; by split_and!.
      * destruct e; by split_and!.
    + by split_and!.
    + destruct e; by split_and!.
Qed.

Lemma pop_session_invariant (sid : string) (w : world) :
  pool_invariant w → pool_invariant (pop_session sid w).
Proof.
  intros Hinv. apply (invariant_shrink w); try done.
  - by destruct Hinv.
  - intros sid' d. cbn. by intros [_ ?]%lookup_delete_Some.
Qed.

Lemma quit_session_steady (sid : string) (w : world) :
  steady w (quit_session sid w).
Proof. unfold quit_session. destruct (drivers w !! sid); by split_and!. Qed.

Lemma timer_wakes_invariant (sid : string) (due : Z) (w : world) :
  pool_invariant w →
  pool_invariant (timer_wakes sid due w) ∧
  chrome (timer_wakes sid due w) = chrome w.
Proof.
  intros Hinv. unfold timer_wakes.
  destruct (list_find _ (timers w)) as [[i t]|]; [|done].
  unfold auto_release_driver. cbn. case_bool_decide; cbn; [|split].
  - split.
    + apply pop_session_invariant.
      eapply steady_invariant; [apply quit_session_steady|].
      eapply steady_invariant; [|exact Hinv]. by split_and!.
    + unfold quit_session. by destruct (drivers _ !! sid).
  - eapply steady_invariant; [|exact Hinv]. by split_and!.
  - done.
Qed.

Lemma sweep_invariant (threshold now : Z) (w : world) :
  pool_invariant w →
  pool_invariant (sweep threshold now w) ∧
  chrome (sweep threshold now w) = chrome w.
Proof.
  intros Hinv.
  destruct (sweep_spec threshold now w) as (Hp & _ & _ & Hc & Hl & Hd & _).
  split; [|done]. apply (invariant_shrink w); try done.
  - rewrite Hp. by destruct Hinv.
  - by rewrite Hp.
  - intros sid d. rewrite Hd. by case_decide.
  - by rewrite Hl.
Qed.

Lemma monitor_memory_invariant (rss1 rss2 now : Z) (w : world) :
  pool_invariant w →
  pool_invariant (monitor_memory rss1 rss2 now w) ∧
  chrome (monitor_memory rss1 rss2 now w) = chrome w.
Proof.
  intros Hinv. unfold monitor_memory. destruct (over_mb 400 rss1); [|done].
  destruct (sweep_invariant 180 now w Hinv) as [Hinv1 Hc1].
  destruct (over_mb 400 rss2 && _); [|done].
  destruct (shrink_spec (Nat.min 2 (length (driver_pool (sweep 180 now w))))
              (sweep 180 now w)) as (Hp & Hd & _ & _ & _ & Hc & Hl & _).
  split; [|congruence]. apply (invariant_shrink (sweep 180 now w)); try done.
  - rewrite Hp. eapply sublist_NoDup; [|apply sublist_drop]. by destruct Hinv1.
  - intros d. rewrite Hp. apply subseteq_drop.
  - by rewrite Hd.
  - by rewrite Hl.
Qed.

(** The loop that fills the pool when the module is loaded. *)
Lemma fill_pool_invariant (n : nat) (w : world) :
  distinct_launches (chrome w) → pool_invariant w →
  pool_invariant (fill_pool n w).2 ∧ chrome (fill_pool n w).2 = chrome w.
Proof.
  revert w. induction n as [|n IH]; intros w Hdist Hinv; [done|].
  pose (P := λ x : outcome unit * world,
               pool_invariant x.2 ∧ chrome x.2 = chrome w).
  change (P (fill_pool (S n) w)).
  cbn [fill_pool]. unfold bind, try_except, ret.
  pose proof (create_driver_steady w) as Hs.
  pose proof (create_driver_spare w) as Hsp.
  destruct (create_driver w) as [[d|e|] w1]; cbn [fst snd] in *.
  - destruct (put_invariant w1 d) as (Hi & _ & Hc);
      [by eapply steady_invariant|by apply Hsp|].
    destruct Hs as (_ & _ & Hc1 & _).
    destruct (put d w1) as [[[]|e|] w2]; cbn [fst snd] in *.
    + destruct (IH w2) as [Hi2 Hc2]; [by rewrite Hc, Hc1|done|].
      split; [done|congruence].
    + split; [done|cbn; congruence].
    + split; [done|cbn; congruence].
  - destruct Hs as (? & ? & ? & ?).
    split; [|done]. eapply (steady_invariant w); [|done]. by split_and!.
  - destruct Hs as (? & ? & ? & ?).
    split; [|done]. eapply (steady_invariant w); [|done]. by split_and!.
Qed.

Lemma startup_invariant (feed : nat → result driver) :
  distinct_launches feed →
  pool_invariant (startup feed) ∧ chrome (startup feed) = feed.
Proof.
  intros Hdist. unfold startup.
  apply (fill_pool_invariant _ (initial feed)); [done|].
  split_and!; cbn.
  - apply NoDup_nil_2.
  - intros sid d Hsid. cbn in Hsid. by rewrite lookup_empty in Hsid.
  - intros d Hd. by apply elem_of_nil in Hd.
  - intros sid d Hsid. cbn in Hsid. by rewrite lookup_empty in Hsid.
Qed.

(** Every step keeps the invariant and the feed. *)
Lemma run_invariant (ev : event) (w : world) :
  distinct_launches (chrome w) → pool_invariant w →
  pool_invariant (run ev w) ∧ chrome (run ev w) = chrome w.
Proof.
  intros Hdist Hinv. destruct ev as [rss page clean sid now
    |rss req p year month now|rss req p now|sid due|now|rss1 rss2 now]; cbn [run].
  - by apply get_captcha_invariant.
  - pose proof (get_timetable_steady rss req p year month now w) as Hs.
    split; [by eapply steady_invariant|apply Hs].
  - pose proof (get_semester_weeks_steady rss req p now w) as Hs.
    split; [by eapply steady_invariant|apply Hs].
  - by apply timer_wakes_invariant.
  - by apply sweep_invariant.
  - by apply monitor_memory_invariant.
Qed.

Lemma run_all_snoc (evs : list event) (ev : event) (w : world) :
  run_all (evs ++ [ev]) w = run ev (run_all evs w).
Proof. unfold run_all. by rewrite foldl_app. Qed.

Lemma reachable_invariant (feed : nat → result driver) (w : world) :
  distinct_launches feed → reachable feed w →
  pool_invariant w ∧ chrome w = feed.
Proof.
  intros Hdist [evs ->]. induction evs as [|ev evs IH] using rev_ind.
  - by apply startup_invariant.
  - rewrite run_all_snoc. destruct IH as [Hinv Hc].
    destruct (run_invariant ev (run_all evs (startup feed))) as [Hi Hc'];
      [by rewrite Hc|done|].
    split; [done|congruence].
Qed.

(** The background threads only take entries away: a browser held by a
    request stays held while they run. *)
Lemma daemon_shrinks (ev : event) (w : world) :
  daemon ev →
  (∀ d, d ∈ driver_pool (run ev w) → d ∈ driver_pool w) ∧
  (∀ sid d, drivers (run ev w) !! sid = Some d → drivers w !! sid = Some d) ∧
  chrome (run ev w) = chrome w ∧ launches (run ev w) = launches w.
Proof.
  assert (Hsweep : ∀ threshold now,
    (∀ d, d ∈ driver_pool (sweep threshold now w) → d ∈ driver_pool w) ∧
    (∀ sid d, drivers (sweep threshold now w) !! sid = Some d →
              drivers w !! sid = Some d) ∧
    chrome (sweep threshold now w) = chrome w ∧
    launches (sweep threshold now w) = launches w).
  { intros threshold now.
    destruct (sweep_spec threshold now w) as (Hp & _ & _ & Hc & Hl & Hd & _).
    rewrite Hp. split_and!; try done. intros sid d. rewrite Hd. by case_decide. }
  destruct ev as [| | |sid due|now|rss1 rss2 now]; try done; intros _; cbn [run].
  - unfold timer_wakes. destruct (list_find _ (timers w)) as [[i t]|]; [|done].
    unfold auto_release_driver. cbn. case_bool_decide; cbn; [|done].
    split_and!; try done.
    + unfold quit_session. by destruct (drivers _ !! sid).
    + intros sid' d [_ Hd]%lookup_delete_Some. revert Hd.
      unfold quit_session. by destruct (drivers _ !! sid).
    + unfold quit_session. by destruct (drivers _ !! sid).
    + unfold quit_session. by destruct (drivers _ !! sid).
  - apply Hsweep.
  - unfold monitor_memory. destruct (over_mb 400 rss1); [|done].
    destruct (Hsweep 180 now) as (Hp1 & Hd1 & Hc1 & Hl1).
    destruct (over_mb 400 rss2 && _); [|by split_and!].
    destruct (shrink_spec (Nat.min 2 (length (driver_pool (sweep 180 now w))))
                (sweep 180 now w)) as (Hp & Hd & _ & _ & _ & Hc & Hl & _).
    rewrite Hp, Hd, Hc, Hl. split_and!; try done.
    intros d Hin. by apply Hp1, (subseteq_drop _ _ _ Hin).
Qed.

Lemma daemons_keep_spare (bg : list event) (w : world) (d : driver) :
  Forall daemon bg → pool_invariant w → spare w d →
  pool_invariant (run_all bg w) ∧ spare (run_all bg w) d ∧
  chrome (run_all bg w) = chrome w.
Proof.
  intros Hbg Hinv Hd. induction bg as [|ev bg IH] using rev_ind.
  - done.
  - apply Forall_app in Hbg as [Hbg Hev]. apply Forall_inv in Hev.
    rewrite run_all_snoc. destruct (IH Hbg) as (Hinv' & (Hnp & Hnr & Hl) & Hc').
    destruct (daemon_shrinks ev (run_all bg w) Hev) as (Hp & Hs & Hc & Hla).
    split_and!.
    + destruct ev; try done; cbn [run].
      * by apply timer_wakes_invariant.
      * by apply sweep_invariant.
      * by apply monitor_memory_invariant.
    + split_and!.
      * intros Hin. by apply Hnp, Hp.
      * intros sid Hsid. by apply (Hnr sid), Hs.
      * destruct Hl as (n & Hn & Hd'). exists n. rewrite Hla, Hc. by split.
    + congruence.
Qed.

(** The handler [get_captcha] taken in two steps, with the background
    threads running in between: the browser it holds is still held when it
    binds or releases it, so the invariant holds before and after. *)
Lemma acquire_then_daemons (w w1 : world) (d : driver) (bg : list event)
    (sid : string) (now : Z) (clean : result unit) :
  distinct_launches (chrome w) → pool_invariant w →
  get_driver w = (Returns d, w1) → Forall daemon bg →
  pool_invariant (run_all bg w1) ∧
  pool_invariant (register sid d now (run_all bg w1)).2 ∧
  pool_invariant (release_driver clean d (run_all bg w1)).2.
Proof.
  intros Hdist Hinv Hget Hbg.
  destruct (get_driver_invariant w Hdist Hinv) as (Hinv1 & _ & Hc1 & Hsp1).
  rewrite Hget in Hinv1, Hc1, Hsp1. cbn [fst snd] in *.
  destruct (daemons_keep_spare bg w1 d Hbg Hinv1 (Hsp1 d eq_refl))
    as (Hinv2 & Hsp2 & Hc2).
  split_and!; [done| |].
  - by apply register_invariant.
  - apply release_driver_invariant; [|done..]. by rewrite Hc2, Hc1.
Qed.



End disjoint.

(** ** A session in use and the timer *)

Section timer.

(** A sweep keeps a session that was active within its threshold; both
    daemons are covered by the tighter threshold of 180 s. *)
Lemma sweeps_keep_active_session (ev : event) (now rss1 rss2 : Z) (w : world)
    (sid : string) (d : driver) (t : Z) :
  ev = CleanupDrivers now ∨ ev = MonitorMemory rss1 rss2 now →
  drivers w !! sid = Some d → driver_expiry w !! sid = Some t →
  now - t ≤ 180 →
  drivers (run ev w) !! sid = Some d ∧ driver_expiry (run ev w) !! sid = Some t.
Proof.
  intros Hev Hd Ht Hage.
  assert (Hkeep : ∀ threshold, 180 ≤ threshold →
            drivers (sweep threshold now w) !! sid = Some d ∧
            driver_expiry (sweep threshold now w) !! sid = Some t).
  { intros threshold Hth.
    destruct (sweep_spec threshold now w) as (_ & _ & _ & _ & _ & Hd' & He' & _).
    assert (Hnin : sid ∉ expired_sessions threshold now w).
    { intros (t' & Ht' & Hold)%expired_sessions_elem. simplify_eq. lia. }
    by rewrite Hd', He', !decide_False by done. }
  destruct Hev as [-> | ->]; cbn [run].
  - apply Hkeep. lia.
  - unfold monitor_memory. destruct (over_mb 400 rss1); [|done].
    destruct (Hkeep 180) as [Hd1 He1]; [lia|].
    destruct (over_mb 400 rss2 && _); [|done].
    destruct (shrink_spec (Nat.min 2 (length (driver_pool (sweep 180 now w))))
                (sweep 180 now w)) as (_ & -> & -> & _).
    done.
Qed.

(** An answer of [get_timetable] for a registered session leaves the
    timestamp of the session at the time of the request. *)
Lemma get_timetable_touches (rss : Z) (req : timetable_request)
    (p : timetable_page) (year month now : Z) (w : world)
    (r : timetable_response) :
  (get_timetable rss req p year month now w).1 = Returns r →
  driver_expiry (get_timetable rss req p year month now w).2
    !! tr_session_id req = Some now.
Proof.
  unfold get_timetable, bind, gets, try_finally, try_except, lift, touch,
    modify, ret, raise.
  destruct (over_mb 500 rss); [done|].
  destruct (drivers w !! tr_session_id req) as [d|] eqn:Hd; [|done].
  destruct (tp_captcha_src p) as [captcha_src|e]; cbn.
  - destruct (truthy_opt (tr_captcha req)); cbn.
    + destruct (tp_form p) as [[]|e]; cbn.
      * destruct (tp_login_wait p); cbn.
        -- destruct (tp_open_schedule p) as [[]|e]; cbn.
           ++ destruct (read_dropdowns p) as [sems weeks]. cbn.
              rewrite bool_decide_eq_true_2 by eauto. cbn.
              intros _. by rewrite lookup_insert_eq.
           ++ by rewrite bool_decide_eq_true_2 by eauto.
        -- rewrite bool_decide_eq_true_2 by eauto. cbn.
           intros _. by rewrite lookup_insert_eq.
      * by rewrite bool_decide_eq_true_2 by eauto.
    + rewrite bool_decide_eq_true_2 by eauto. cbn.
      intros _. by rewrite lookup_insert_eq.
  - by rewrite bool_decide_eq_true_2 by eauto.
Qed.

(** So does an answer of [get_semester_weeks] on the session path. *)
Lemma get_semester_weeks_touches (rss : Z) (req : weeks_request)
    (p : weeks_page) (now : Z) (w : world) (sid : string) (r : weeks_response) :
  wr_session_id req = Some sid → sid ≠ "" → registered sid w →
  (get_semester_weeks rss req p now w).1 = Returns r →
  driver_expiry (get_semester_weeks rss req p now w).2 !! sid = Some now.
Proof.
  intros Hsid Hne Hreg. unfold get_semester_weeks.
  destruct (over_mb 500 rss); [done|].
  unfold bind, gets. rewrite Hsid, truthy_nonempty by done.
  rewrite bool_decide_eq_true_2 by done. cbn.
  unfold try_except, bind, lift, touch, modify, ret, reraise.
  destruct (wp_open_schedule p) as [[]|e]; cbn.
  - destruct (extraction req p) as [resp|e]; cbn.
    + intros _. by rewrite lookup_insert_eq.
    + by destruct e.
  - by destruct e.
Qed.

(** C1. The failing case: a session is opened at time 0 and then used with
    success at times 100 and 200, a turn of each daemon passing in
    between. It is still registered, with 200 as its last activity, and
    its browser has not been quit. When the timer started at its
    registration wakes at time 240, the session is removed and [quit] is
    called on its browser, 40 s after its last use. *)
Theorem session_in_use_released_by_timer :
  let w := run_all Samples.session_in_use (startup Samples.feed) in
  (drivers w !! "5f2a" = Some 100%nat ∧
   driver_expiry w !! "5f2a" = Some 200 ∧
   (100%nat ∉ quitted w) ∧ timers w = [("5f2a", 240)]) ∧
  (drivers (timer_wakes "5f2a" 240 w) !! "5f2a" = None ∧
   driver_expiry (timer_wakes "5f2a" 240 w) !! "5f2a" = None ∧
   100%nat ∈ quitted (timer_wakes "5f2a" 240 w)).
Proof.
  cbv zeta. split; split_and!; try reflexivity.
  apply (bool_decide_eq_false_1 (100%nat ∈ quitted _)). reflexivity.
Qed.

End timer.

(** ** The grid: when the parsing fails *)

Section grid_overflow.

(** The cells of a row, whatever its length: either a course text lies
    beyond the last day and the lookup of its day fails, or every day
    gains the records of its column. *)
Lemma parse_cells_cases (days : list string) (period : string)
    (cells : list cell) (i : nat) (wc : gmap string (list course)) :
  (∀ d, d ∈ days → is_Some (wc !! d)) →
  (parse_cells days period i cells wc
   = Raise (Error IndexError "list index out of range") ∧
   ∃ j c, cells !! j = Some c ∧ is_Some (parse_course_content c) ∧
          days !! (i + j)%nat = None) ∨
  (∃ wc', parse_cells days period i cells wc = Ok wc' ∧
     (∀ d, wc' !! d
        = (λ l, l ++ for_day d (cell_records days period i cells)) <$> wc !! d) ∧
     ∀ j c, cells !! j = Some c → is_Some (parse_course_content c) →
            is_Some (days !! (i + j)%nat)).
Proof.
  revert i wc. induction cells as [|c rest IH]; intros i wc Hdays.
  - right. exists wc. split_and!; [done| |done].
    intros d. simpl. rewrite for_day_nil.
    destruct (wc !! d); simpl; [|done]. by rewrite app_nil_r.
  - cbn [parse_cells cell_records].
    destruct (parse_course_content c) as [content|] eqn:Hc.
    + rewrite (parse_course_content_truthy c content Hc).
      destruct (days !! i) as [day|] eqn:Hday.
      2:{ left. split; [done|]. exists 0%nat, c. rewrite Nat.add_0_r.
          split_and!; [done|by rewrite Hc|done]. }
      destruct (Hdays day) as [l Hl].
      { apply list_elem_of_lookup. by exists i. }
      rewrite Hl.
      destruct (IH (S i) (<[day := l ++ [Course period content]]> wc))
        as [(Hraise & j & c' & Hj & Hc' & Hnone)|(wc' & Hwc' & Hlook & Hfit)].
      { intros d Hd. destruct (decide (day = d)) as [->|Hne].
        - rewrite lookup_insert_eq. eauto.
        - rewrite lookup_insert_ne by done. by apply Hdays. }
      * left. split; [done|]. exists (S j), c'.
        split_and!; [done..|]. by rewrite Nat.add_succ_r.
      * right. exists wc'. split_and!; [done| |].
        -- intros d. rewrite Hlook, for_day_app.
           destruct (decide (day = d)) as [->|Hne].
           ++ rewrite lookup_insert_eq, Hl, for_day_eq. simpl.
              by rewrite <-!app_assoc.
           ++ rewrite lookup_insert_ne by done. by rewrite for_day_ne.
        -- intros [|j] c' Hj Hc'.
           ++ rewrite Nat.add_0_r, Hday. eauto.
           ++ rewrite Nat.add_succ_r. by apply (Hfit j c').
    + destruct (IH (S i) wc Hdays)
        as [(Hraise & j & c' & Hj & Hc' & Hnone)|(wc' & Hwc' & Hlook & Hfit)].
      * left. split; [done|]. exists (S j), c'.
        split_and!; [done..|]. by rewrite Nat.add_succ_r.
      * right. exists wc'. split_and!; [done| |].
        -- intros d. by rewrite Hlook.
        -- intros [|j] c' Hj Hc'.
           ++ simpl in Hj. simplify_eq. rewrite Hc in Hc'. by destruct Hc'.
           ++ rewrite Nat.add_succ_r. by apply (Hfit j c').
Qed.

Lemma parse_rows_cases (days : list string) (rows : list row)
    (wc : gmap string (list course)) :
  (∀ d, d ∈ days → is_Some (wc !! d)) →
  (parse_rows days rows wc = Raise (Error IndexError "list index out of range") ∧
   ∃ c0 cells1 j c, (c0 :: cells1) ∈ rows ∧ cells1 !! j = Some c ∧
     is_Some (parse_course_content c) ∧ days !! j = None) ∨
  (∃ wc', parse_rows days rows wc = Ok wc' ∧
     (∀ d, wc' !! d
        = (λ l, l ++ for_day d (mjoin (row_records days <$> rows))) <$> wc !! d) ∧
     ∀ c0 cells1 j c, (c0 :: cells1) ∈ rows → cells1 !! j = Some c →
       is_Some (parse_course_content c) → is_Some (days !! j)).
Proof.
  revert wc. induction rows as [|cells rows IH]; intros wc Hdays.
  - right. exists wc. split_and!; [done| |].
    + intros d. simpl. rewrite for_day_nil.
      destruct (wc !! d); simpl; [|done]. by rewrite app_nil_r.
    + intros c0 cells1 j c Hin. by apply elem_of_nil in Hin.
  - cbn [parse_rows]. rewrite fmap_cons. cbn [mjoin list_join].
    destruct cells as [|c0 cells1].
    + destruct (IH wc Hdays)
        as [(Hraise & c0 & cells1 & j & c & Hin & Hrest)
           |(wc' & Hwc' & Hlook & Hfit)].
      * left. split; [done|]. exists c0, cells1, j, c.
        split; [by apply list_elem_of_further|done].
      * right. exists wc'. split_and!; [done| |].
        -- intros d. by rewrite Hlook.
        -- intros c0 cells1 j c [Heq|Hin]%elem_of_cons; [done|].
           by apply (Hfit c0 cells1).
    + cbv zeta.
      destruct (parse_cells_cases days (remove_char newline (cell_text c0))
                  cells1 0 wc Hdays)
        as [(Hraise & j & c & Hj & Hc & Hnone)|(wc1 & Hwc1 & Hlook1 & Hfit1)].
      * left. rewrite Hraise. split; [done|]. exists c0, cells1, j, c.
        split_and!; [apply list_elem_of_here|done..].
      * rewrite Hwc1.
        destruct (IH wc1)
          as [(Hraise & c0' & cells1' & j & c & Hin & Hrest)
             |(wc' & Hwc' & Hlook & Hfit)].
        { intros d Hd. rewrite Hlook1. destruct (Hdays d Hd) as [l ->]. eauto. }
        -- left. split; [done|]. exists c0', cells1', j, c.
           split; [by apply list_elem_of_further|done].
        -- right. exists wc'. split_and!; [done| |].
           ++ intros d. rewrite Hlook, Hlook1, for_day_app. cbn [row_records].
              destruct (wc !! d); simpl; [|done]. by rewrite <-!app_assoc.
           ++ intros c0' cells1' j c [Heq|Hin]%elem_of_cons.
              ** simplify_eq. intros Hj Hc. by apply (Hfit1 j c).
              ** by apply (Hfit c0' cells1').
Qed.

(** The two outcomes of the parsing of a grid. *)
Lemma parse_grid_cases (header : row) (body : list row) :
  (parse_grid header body = Raise (Error IndexError "list index out of range") ∧
   overflows header body) ∨
  (∃ week_courses,
     parse_grid header body = Ok week_courses ∧
     (∀ d, week_courses !! d
           = if decide (d ∈ days_of header)
             then Some (for_day d (grid_records header body)) else None) ∧
     ¬ overflows header body).
Proof.
  unfold parse_grid. cbv zeta.
  destruct (parse_rows_cases (days_of header) body
              (empty_courses (days_of header)))
    as [(Hraise & c0 & cells1 & j & c & Hin & Hj & Hc & Hnone)
       |(wc & Hwc & Hlook & Hfit)].
  - intros d Hd. rewrite empty_courses_lookup, decide_True by done. eauto.
  - left. split; [done|]. exists c0, cells1, j, c. split_and!; [done..|].
    rewrite days_of_lookup in Hnone. by destruct (header !! S j).
  - right. exists wc. split_and!; [done| |].
    + intros d. rewrite Hlook, empty_courses_lookup. unfold grid_records.
      by destruct (decide (d ∈ days_of header)).
    + intros (c0 & cells1 & j & c & Hin & Hj & Hc & Hnone).
      destruct (Hfit c0 cells1 j c Hin Hj Hc) as [day Hday].
      rewrite days_of_lookup, Hnone in Hday. done.
Qed.

(** X1. The parsing of a grid fails exactly when a cell with a course text
    lies in a column that the first row does not have, and then with the
    [IndexError] of the lookup of its day; the lookup of the list of a day
    never fails. In every other case, rows longer than the first row
    included, each day of the header gets the records of its column. *)
Theorem parse_grid_fails_iff_overflows (header : row) (body : list row) :
  (overflows header body ↔
   parse_grid header body = Raise (Error IndexError "list index out of range")) ∧
  (¬ overflows header body ↔
   ∃ week_courses,
     parse_grid header body = Ok week_courses ∧
     ∀ d, week_courses !! d
          = if decide (d ∈ days_of header)
            then Some (for_day d (grid_records header body)) else None) ∧
  (∀ e, parse_grid header body = Raise e →
        e = Error IndexError "list index out of range").
Proof.
  destruct (parse_grid_cases header body)
    as [[Hraise Hover]|(wc & Hwc & Hlook & Hfit)].
  - split_and!.
    + done.
    + split; [done|]. intros (wc & Hwc & _). congruence.
    + intros e He. congruence.
  - split_and!.
    + split; [done|]. congruence.
    + split; [|done]. intros _. by exists wc.
    + intros e He. congruence.
Qed.

End grid_overflow.

(** ** The outcome of one week, and a malformed week *)

Section week_outcome.

Lemma alert_dismissed_truthy (o : week_obs) :
  truthy_opt (close_alert_if_present (alert o)) = true ↔ alert_dismissed o.
Proof.
  unfold alert_dismissed. destruct (alert o) as [|text]; simpl.
  - split; [done|]. by intros (text & ? & _).
  - rewrite truthy_spec. split.
    + intros Htext. by exists text.
    + by intros (text' & [= <-] & Htext).
Qed.


(** The loop stops at the first turn that raises: the turns before it
    have sent their scripts, and nothing is returned. *)
Lemma weeks_loop_raises (sem : string * string) (browser : nat → week_obs)
    (ws : list opt) (k n : nat) (w : opt) (e : exn)
    (scripts : list selector_script) (acc : list week_result) :
  ws !! n = Some w →
  (∀ i w', (i < n)%nat → ws !! i = Some w' →
     ∃ x, extract_week w' (browser (k + i)%nat) = Ok x) →
  extract_week w (browser (k + n)%nat) = Raise e →
  weeks_loop sem browser k ws scripts acc
  = (scripts ++ (script_for sem <$> take (S n) ws), Raise e).
Proof.
  revert k n scripts acc. induction ws as [|w0 ws IH];
    intros k n scripts acc Hn Hbefore Hraise; [done|].
  cbn [weeks_loop]. cbv zeta. destruct n as [|n].
  - simpl in Hn. simplify_eq. rewrite Nat.add_0_r in Hraise.
    by rewrite Hraise.
  - simpl in Hn. destruct (Hbefore 0%nat w0) as [x Hx]; [lia|done|].
    rewrite Nat.add_0_r in Hx. rewrite Hx.
    assert (Hnext : ∀ acc',
      weeks_loop sem browser (S k) ws
        (scripts ++ [SelectorScript sem (val_name w0)]) acc'
      = (scripts ++ (script_for sem <$> take (S (S n)) (w0 :: ws)), Raise e)).
    { intros acc'. rewrite (IH (S k) n _ acc' Hn).
      - rewrite <-app_assoc. done.
      - intros i w' Hi Hw'. destruct (Hbefore (S i) w') as [y Hy]; [lia|done|].
        exists y. by rewrite <-Hy, Nat.add_succ_r.
      - by rewrite <-Hraise, Nat.add_succ_r. }
    destruct x as [r|]; apply Hnext.
Qed.

(** X3. One table with a course text beyond the columns of its first row
    fails the whole request: when the weeks before it are read without
    error and the page of week [n] shows such a table, the request on a
    registered session is answered with 500 and the message of the
    [IndexError], the weeks already read are not returned, the scripts of
    the later weeks are not sent, and no global is changed, the time of
    the last use of the session included. *)
Theorem malformed_week_fails_request (rss : Z) (req : weeks_request)
    (p : weeks_page) (now : Z) (w : world) (sid : string)
    (sem : string * string) (n : nat) (wopt : opt)
    (header : row) (body : list row) :
  over_mb 500 rss = false →
  wr_session_id req = Some sid → sid ≠ "" → registered sid w →
  wp_open_schedule p = Ok tt →
  matched_sem (wr_sem_id req) (wp_sem_options p) = Some sem →
  week_prefix (wr_max_weeks req) (wp_week_options p) !! n = Some wopt →
  (∀ i, (i < n)%nat → well_formed (wp_weeks p i)) →
  script_ok (wp_weeks p n) = true → ¬ alert_dismissed (wp_weeks p n) →
  grid_rendered (wp_weeks p n) = true →
  page_table (wp_weeks p n) = Some (header :: body) →
  overflows header body →
  semester_weeks (wp_sem_options p) (wp_week_options p) (wr_sem_id req)
    (wr_max_weeks req) (wp_weeks p)
  = (script_for sem
       <$> take (S n) (week_prefix (wr_max_weeks req) (wp_week_options p)),
     Raise (Error IndexError "list index out of range")) ∧
  get_semester_weeks rss req p now w
  = (Raises (HTTPException 500 "list index out of range"), w).
Proof.
  intros Hrss Hsid Hne Hreg Hopen Hsem Hn Hbefore Hscript Halert Hgrid Hpage Hover.
  assert (Hraise : extract_week wopt (wp_weeks p n)
                   = Raise (Error IndexError "list index out of range")).
  { unfold extract_week. destruct (val_name wopt) as [v m].
    rewrite Hscript, Hgrid, Hpage. cbn [negb]. cbv zeta.
    destruct (truthy_opt _) eqn:Ht.
    { apply alert_dismissed_truthy in Ht. done. }
    by destruct (parse_grid_cases header body)
      as [[-> _]|(wc & _ & _ & Hfit)]. }
  assert (Hweeks : semester_weeks (wp_sem_options p) (wp_week_options p)
            (wr_sem_id req) (wr_max_weeks req) (wp_weeks p)
          = (script_for sem
               <$> take (S n) (week_prefix (wr_max_weeks req) (wp_week_options p)),
             Raise (Error IndexError "list index out of range"))).
  { unfold semester_weeks. rewrite Hsem. destruct sem as [sv sn].
    rewrite (weeks_loop_raises (sv, sn) (wp_weeks p) _ 0 n wopt
               (Error IndexError "list index out of range") [] [] Hn);
      [done| |done].
    intros i w' Hi _. apply extract_week_ok. by apply Hbefore. }
  split; [exact Hweeks|].
  unfold get_semester_weeks. rewrite Hrss.
  unfold bind, gets. rewrite Hsid, truthy_nonempty by done.
  rewrite bool_decide_eq_true_2 by done. simpl.
  unfold try_except, bind. rewrite Hopen. simpl.
  unfold extraction. by rewrite Hweeks.
Qed.

Lemma malformed_week_fails_request_witness :
  get_semester_weeks 0
    (WeeksRequest None None None (Some "5f2a") "42" 3)
    (WeeksPage LoggedIn (Ok tt)
       [Samples.semester "42" "2024-2025学年秋季学期"]
       [Samples.week "1"; Samples.week "2"; Samples.week "3"]
       (λ n, if decide (n = 1%nat) then Samples.ragged else Samples.shown))
    1100 Samples.one_session
  = (Raises (HTTPException 500 "list index out of range"), Samples.one_session).
Proof.
  refine (proj2 (malformed_week_fails_request 0
    (WeeksRequest None None None (Some "5f2a") "42" 3)
    (WeeksPage LoggedIn (Ok tt)
       [Samples.semester "42" "2024-2025学年秋季学期"]
       [Samples.week "1"; Samples.week "2"; Samples.week "3"]
       (λ n, if decide (n = 1%nat) then Samples.ragged else Samples.shown))
    1100 Samples.one_session "5f2a" ("42", "2024-2025学年秋季学期") 1
    (Samples.week "2") [Samples.blank; Cell "星期一" None]
    [[Cell "第1-2节" None; Samples.blank; Samples.maths]]
    _ _ _ _ _ _ _ _ _ _ _ _ _)).
  - reflexivity.
  - reflexivity.
  - discriminate.
  - by exists 9%nat.
  - reflexivity.
  - reflexivity.
  - reflexivity.
  - intros i Hi. assert (i = 0%nat) as -> by lia.
    intros header body [= <- <-]. repeat constructor.
  - reflexivity.
  - intros (text & Htext & _). discriminate.
  - reflexivity.
  - reflexivity.
  - exists (Cell "第1-2节" None), [Samples.blank; Samples.maths], 1%nat,
      Samples.maths.
    split_and!; [apply list_elem_of_here|reflexivity|by eexists|reflexivity].
Defined.

End week_outcome.

(** ** The handler of the metadata *)

Section timetable.

Lemma find_current_elem (targets : list string) (sem_options : list opt)
    (n : string) :
  find_current targets sem_options = Some n →
  n ∈ (all_semesters_meta sem_options).*2.
Proof.
  unfold all_semesters_meta. induction sem_options as [|sem rest IH]; [done|].
  rewrite find_current_cons, !fmap_cons.
  destruct (matches targets (val_name sem).2).
  - intros [= <-]. apply list_elem_of_here.
  - intros Hn. apply list_elem_of_further. by apply IH.
Qed.

(** The default semester is missing for an empty dataset only, and it is
    one of the names listed. *)
Lemma default_semester_none (year month : Z) (sem_options : list opt) :
  default_semester year month sem_options = None ↔
  all_semesters_meta sem_options = [].
Proof.
  unfold default_semester.
  destruct (find_current _ sem_options) as [n|] eqn:Hfind.
  - split; [done|]. intros Hmeta. apply find_current_elem in Hfind.
    rewrite Hmeta in Hfind. by apply elem_of_nil in Hfind.
  - by destruct (all_semesters_meta sem_options).
Qed.

Lemma default_semester_elem (year month : Z) (sem_options : list opt)
    (n : string) :
  default_semester year month sem_options = Some n →
  n ∈ (all_semesters_meta sem_options).*2.
Proof.
  unfold default_semester.
  destruct (find_current _ sem_options) as [n'|] eqn:Hfind.
  - intros [= <-]. by eapply find_current_elem.
  - destruct (all_semesters_meta sem_options) as [|m l]; [done|].
    intros [= <-]. rewrite fmap_cons. apply list_elem_of_here.
Qed.

Lemma default_week_none (week_options : list opt) :
  default_week week_options = None ↔ week_options = [].
Proof. by destruct week_options. Qed.

(** After the retry a dataset is empty only when both reads were empty. *)
Lemma read_dropdowns_empty (p : timetable_page) :
  ((read_dropdowns p).1 = [] ↔
   (tp_first_read p).1 = [] ∧ (tp_second_read p).1 = []) ∧
  ((read_dropdowns p).2 = [] ↔
   (tp_first_read p).2 = [] ∧ (tp_second_read p).2 = []).
Proof.
  unfold read_dropdowns.
  destruct (tp_first_read p) as [[|s1 sems1] [|w1 weeks1]];
    destruct (tp_second_read p) as [[|s2 sems2] [|w2 weeks2]]; cbn;
    split; split; try done; by intros [? ?].
Qed.

(** The handler, path by path. *)
Lemma get_timetable_unfold (rss : Z) (req : timetable_request)
    (p : timetable_page) (year month now : Z) (w : world) :
  get_timetable rss req p year month now w
  = if over_mb 500 rss then
      (Raises (HTTPException 503 "服务器内存不足，请稍后再试"), w)
    else
      match drivers w !! tr_session_id req with
      | None => (Raises (HTTPException 400 "无效的 session_id"), w)
      | Some _ =>
          (match tp_captcha_src p with
           | Raise e => Raises (HTTPException 500 (str e))
           | Ok captcha_src =>
               if negb (truthy_opt (tr_captcha req)) then
                 Returns (NeedManualCaptcha (tr_session_id req) "请手动输入验证码")
               else
                 match tp_form p with
                 | Raise e => Raises (HTTPException 500 (str e))
                 | Ok _ =>
                     if negb (tp_login_wait p) then
                       Returns (CaptchaRejected (tr_session_id req) captcha_src
                                  "验证码错误或过期，请手动输入")
                     else
                       match tp_open_schedule p with
                       | Raise e => Raises (HTTPException 500 (str e))
                       | Ok _ =>
                           Returns
                             (Metadata (tr_session_id req)
                                (default_semester year month (read_dropdowns p).1)
                                (default_week (read_dropdowns p).2)
                                (all_semesters_meta (read_dropdowns p).1))
                       end
                 end
           end,
           with_expiry (<[tr_session_id req := now]>) w)
      end.
Proof.
  assert (Htwice : with_expiry (<[tr_session_id req := now]>)
                     (with_expiry (<[tr_session_id req := now]>) w)
                   = with_expiry (<[tr_session_id req := now]>) w).
  { unfold with_expiry. cbn. by rewrite insert_insert_eq. }
  unfold get_timetable, bind, gets, try_finally, try_except, lift, touch,
    modify, ret, raise.
  destruct (over_mb 500 rss); [done|].
  destruct (drivers w !! tr_session_id req) as [d|] eqn:Hd; [|done].
  destruct (tp_captcha_src p) as [captcha_src|e]; cbn.
  - destruct (truthy_opt (tr_captcha req)); cbn.
    + destruct (tp_form p) as [[]|e]; cbn.
      * destruct (tp_login_wait p); cbn.
        -- destruct (tp_open_schedule p) as [[]|e]; cbn.
           ++ destruct (read_dropdowns p) as [sems weeks]. cbn.
              rewrite bool_decide_eq_true_2 by eauto. by rewrite Htwice.
           ++ by rewrite bool_decide_eq_true_2 by eauto.
        -- by rewrite bool_decide_eq_true_2 by eauto.
      * by rewrite bool_decide_eq_true_2 by eauto.
    + by rewrite bool_decide_eq_true_2 by eauto.
  - by rewrite bool_decide_eq_true_2 by eauto.
Qed.

(** X4. [POST /timetable] never blocks, starts or quits no browser and
    leaves the pool, the sessions, the timers and the usage counts alone:
    the only global it may change is the time of the last use of its
    session, which it sets to the time of the request on every path past
    the two checks, the failing ones included. It raises nothing but the
    503 of the memory check, the 400 of an unknown session and the 500 made
    from an exception of the page. *)
Theorem get_timetable_effects (rss : Z) (req : timetable_request)
    (p : timetable_page) (year month now : Z) (w : world) :
  let r := get_timetable rss req p year month now w in
  let sid := tr_session_id req in
  r.1 ≠ Blocks ∧
  r.2 = (if negb (over_mb 500 rss) && bool_decide (is_Some (drivers w !! sid))
         then with_expiry (<[sid := now]>) w else w) ∧
  (∀ e, r.1 = Raises e →
     (e = HTTPException 503 "服务器内存不足，请稍后再试" ∧
      over_mb 500 rss = true) ∨
     (e = HTTPException 400 "无效的 session_id" ∧
      over_mb 500 rss = false ∧ drivers w !! sid = None) ∨
     (∃ e0, e = HTTPException 500 (str e0) ∧ over_mb 500 rss = false ∧
        registered sid w ∧
        (tp_captcha_src p = Raise e0 ∨ tp_form p = Raise e0
         ∨ tp_open_schedule p = Raise e0))).
Proof.
  cbv zeta. rewrite get_timetable_unfold. unfold registered.
  destruct (over_mb 500 rss); cbn [negb andb fst snd].
  { split_and!; [done..|]. intros e [= <-]. by left. }
  destruct (drivers w !! tr_session_id req) as [d|] eqn:Hd.
  2:{ rewrite bool_decide_eq_false_2 by (by intros [? ?]).
      split_and!; [done..|]. intros e [= <-]. right. by left. }
  rewrite bool_decide_eq_true_2 by eauto. cbn [fst snd].
  assert (Hreg : is_Some (Some d)) by eauto.
  split_and!; [|done|].
  - destruct (tp_captcha_src p); [|done].
    destruct (negb (truthy_opt _)); [done|].
    destruct (tp_form p); [|done].
    destruct (negb (tp_login_wait p)); [done|].
    by destruct (tp_open_schedule p).
  - intros e. destruct (tp_captcha_src p) as [src|e0].
    2:{ intros [= <-]. right. right. exists e0. split_and!; try done. by left. }
    destruct (negb (truthy_opt _)); [done|].
    destruct (tp_form p) as [[]|e0].
    2:{ intros [= <-]. right. right. exists e0. split_and!; try done.
        right. by left. }
    destruct (negb (tp_login_wait p)); [done|].
    destruct (tp_open_schedule p) as [[]|e0]; [done|].
    intros [= <-]. right. right. exists e0. split_and!; try done.
    right. by right.
Qed.

(** X5. The three answers of [POST /timetable]. Without a captcha text no
    form is sent and the client is asked for one; a login that does not
    reach the portal in time gives back the captcha image read before the
    form was sent; otherwise the metadata are answered, in which the
    default semester is missing only when the list of semesters is empty,
    is one of the names listed, and a dataset is empty only when both
    reads of it were empty. Every answer carries the id of the request. *)
Theorem get_timetable_answers (rss : Z) (req : timetable_request)
    (p : timetable_page) (year month now : Z) (w : world)
    (r : timetable_response) :
  (get_timetable rss req p year month now w).1 = Returns r →
  match r with
  | NeedManualCaptcha s _ =>
      s = tr_session_id req ∧ truthy_opt (tr_captcha req) = false
  | CaptchaRejected s src _ =>
      s = tr_session_id req ∧ truthy_opt (tr_captcha req) = true ∧
      tp_form p = Ok tt ∧ tp_login_wait p = false ∧ tp_captcha_src p = Ok src
  | Metadata s ds dw meta =>
      s = tr_session_id req ∧ truthy_opt (tr_captcha req) = true ∧
      tp_login_wait p = true ∧
      (ds = None ↔ meta = []) ∧ (∀ n, ds = Some n → n ∈ meta.*2) ∧
      (meta = [] ↔ (tp_first_read p).1 = [] ∧ (tp_second_read p).1 = []) ∧
      (dw = None ↔ (tp_first_read p).2 = [] ∧ (tp_second_read p).2 = [])
  end.
Proof.
  rewrite get_timetable_unfold.
  destruct (over_mb 500 rss); [done|].
  destruct (drivers w !! tr_session_id req) as [d|]; [|done]. cbn [fst].
  destruct (tp_captcha_src p) as [src|e0]; [|done].
  destruct (truthy_opt (tr_captcha req)); cbn [negb].
  2:{ by intros [= <-]. }
  destruct (tp_form p) as [[]|e0]; [|done].
  destruct (tp_login_wait p); cbn [negb].
  2:{ by intros [= <-]. }
  destruct (tp_open_schedule p) as [[]|e0]; [|done].
  intros [= <-]. destruct (read_dropdowns_empty p) as [Hsems Hweeks].
  split_and!; [done..| | | |].
  - apply default_semester_none.
  - apply default_semester_elem.
  - rewrite <-Hsems. unfold all_semesters_meta.
    by destruct (read_dropdowns p).1.
  - by rewrite default_week_none.
Qed.

Lemma get_timetable_answers_witness :
  "2024-2025学年秋季学期" ∈ [("42", "2024-2025学年秋季学期")].*2.
Proof.
  pose proof (get_timetable_answers 0
    (TimetableRequest "5f2a" "20240001" "secret" (Some "ab12"))
    Samples.login_page 2024 10 1100 Samples.one_session
    (Metadata "5f2a" (Some "2024-2025学年秋季学期") (Some "第1周")
       [("42", "2024-2025学年秋季学期")]) eq_refl)
    as (_ & _ & _ & _ & Helem & _).
  exact (Helem _ eq_refl).
Defined.

End timetable.

(** ** The functions of the pool *)

Section pool_functions.

(** X6. [create_driver] makes one launch, or two: the second one exactly
    when the first raised [SessionNotCreatedException]. Its outcome is the
    outcome of the last launch it made, an exception of the second launch
    or of any other class being passed on as it is; it never blocks and
    changes nothing but the count of launches. *)
Theorem create_driver_one_retry (w : world) :
  ∃ k, (k = 1 ∨ k = 2)%nat ∧
    (create_driver w).2 = with_launches (Nat.add k) w ∧
    (k = 2%nat ↔
     ∃ msg, chrome w (launches w)
            = Raise (Error SessionNotCreatedException msg)) ∧
    (create_driver w).1
    = match chrome w (launches w + k - 1)%nat with
      | Ok d => Returns d
      | Raise e => Raises e
      end.
Proof.
  unfold create_driver, try_except, Chrome.
  destruct (chrome w (launches w)) as [d0|e0] eqn:H1.
  - exists 1%nat. rewrite Nat.add_sub, H1. split_and!; [by left|done| |done].
    split; [lia|]. by intros [msg ?].
  - assert (Hone : ∀ o : outcome driver * world,
      o = (Raises e0, with_launches S w) →
      (∀ msg, e0 ≠ Error SessionNotCreatedException msg) →
      ∃ k, (k = 1 ∨ k = 2)%nat ∧ o.2 = with_launches (Nat.add k) w ∧
        (k = 2%nat ↔ ∃ msg, @Raise driver e0
                            = Raise (Error SessionNotCreatedException msg)) ∧
        o.1 = match chrome w (launches w + k - 1)%nat with
              | Ok d => Returns d
              | Raise e => Raises e
              end).
    { intros o -> Hcls. exists 1%nat. rewrite Nat.add_sub, H1.
      split_and!; [by left|done| |done].
      split; [lia|]. intros [msg [= ->]]. by destruct (Hcls msg). }
    destruct e0 as [c m|cls m]; [by apply Hone|].
    destruct cls; try (by apply Hone). cbn [raise].
    exists 2%nat. replace (launches w + 2 - 1)%nat with (S (launches w)) by lia.
    cbn. destruct (chrome w (S (launches w))) as [d1|e1]; cbn;
      (split_and!; [by right|done| |done]); (split; [by eexists|done]).
Qed.

Lemma create_driver_world (w : world) :
  ∃ k, (create_driver w).2 = with_launches (Nat.add k) w.
Proof.
  unfold create_driver, try_except, Chrome.
  destruct (chrome w (launches w)) as [d0|e0].
  - by exists 1%nat.
  - destruct e0 as [c m|[] m]; try (by exists 1%nat). cbn.
    destruct (chrome w (S (launches w))); by exists 2%nat.
Qed.

(** Every call of [create_driver] makes a launch. *)
Lemma create_driver_launches (w : world) :
  (launches w < launches (create_driver w).2)%nat.
Proof.
  unfold create_driver, try_except, Chrome.
  destruct (chrome w (launches w)) as [d0|e0]; cbn; [lia|].
  destruct e0 as [c m|[] m]; cbn; try lia.
  destruct (chrome w (S (launches w))); cbn; lia.
Qed.

(** What [get_driver] does to the globals, whatever its outcome: it takes
    the head of the pool and leaves the sessions alone. *)
Lemma get_driver_globals (w : world) :
  driver_pool (get_driver w).2 = tail (driver_pool w) ∧
  drivers (get_driver w).2 = drivers w ∧
  driver_expiry (get_driver w).2 = driver_expiry w ∧
  timers (get_driver w).2 = timers w ∧
  chrome (get_driver w).2 = chrome w ∧
  (launches w ≤ launches (get_driver w).2)%nat.
Proof.
  assert (Hcheck : ∀ d w0,
    driver_pool (check_usage d w0).2 = driver_pool w0 ∧
    drivers (check_usage d w0).2 = drivers w0 ∧
    driver_expiry (check_usage d w0).2 = driver_expiry w0 ∧
    timers (check_usage d w0).2 = timers w0 ∧
    chrome (check_usage d w0).2 = chrome w0 ∧
    (launches w0 ≤ launches (check_usage d w0).2)%nat).
  { intros d w0.
    destruct (decide (usage w0 d < MAX_USAGE_PER_DRIVER)) as [Hlt|Hge].
    - rewrite check_usage_keep by done. by split_and!.
    - rewrite check_usage_replace by lia.
      destruct (create_driver_world (with_quitted (λ q, {[d]} ∪ q) w0))
        as [k Hk].
      destruct (create_driver _) as [[d1|e1|] w2]; cbn [fst snd] in *;
        subst w2; cbn; split_and!; try done; lia. }
  unfold get_driver, bind. destruct (driver_pool w) as [|d0 rest] eqn:Hpool.
  - rewrite take_or_create_empty by done.
    destruct (create_driver_world w) as [k Hk].
    destruct (create_driver w) as [[d1|e1|] w1]; cbn [fst snd] in *; subst w1.
    + destruct (Hcheck d1 (with_launches (Nat.add k) w))
        as (-> & -> & -> & -> & -> & Hl).
      cbn in Hl |- *. split_and!; try done; lia.
    + cbn. split_and!; try done; lia.
    + cbn. split_and!; try done; lia.
  - rewrite (take_or_create_pool w d0 rest) by done.
    destruct (Hcheck d0 (with_pool (λ _, rest) w))
      as (-> & -> & -> & -> & -> & Hl).
    cbn in Hl |- *. by split_and!.
Qed.

(** X7. [get_driver] never blocks and, whatever its outcome, takes the
    head of the pool away and leaves the sessions, their times and the
    timers alone. The browser it returns is either that head, with fewer
    than 15 uses on record and nothing started or quit, or a browser
    started by a launch of the call. *)
Theorem get_driver_takes_head (w : world) :
  (get_driver w).1 ≠ Blocks ∧
  driver_pool (get_driver w).2 = tail (driver_pool w) ∧
  drivers (get_driver w).2 = drivers w ∧
  driver_expiry (get_driver w).2 = driver_expiry w ∧
  timers (get_driver w).2 = timers w ∧
  (∀ d, (get_driver w).1 = Returns d →
     (head (driver_pool w) = Some d ∧ usage w d < MAX_USAGE_PER_DRIVER ∧
      (get_driver w).2 = with_pool tail w) ∨
     (∃ n, (launches w ≤ n < launches (get_driver w).2)%nat ∧
           chrome w n = Ok d)).
Proof.
  destruct (get_driver_globals w) as (Hp & Hd & He & Ht & _ & _).
  split_and!; [|done..|].
  - intros Hb. destruct (get_driver w) as [o w'] eqn:Hg. cbn in Hb. subst o.
    by apply get_driver_not_blocked in Hg.
  - intros d. unfold get_driver, bind.
    destruct (take_or_create w) as [[d0|e0|] w0] eqn:Hto; [|done..].
    apply take_or_create_returns in Hto
      as [(rest & Hpool & ->)|(Hpool & k & -> & Hk)].
    + destruct (decide (usage w d0 < MAX_USAGE_PER_DRIVER)) as [Hlt|Hge].
      * rewrite check_usage_keep by done. intros [= <-]. left.
        rewrite Hpool. split_and!; [done..|].
        unfold with_pool. by rewrite Hpool.
      * rewrite check_usage_replace by (unfold usage in *; cbn; lia).
        destruct (create_driver _) as [[d1|e1|] w2] eqn:Hc; [|done..].
        intros [= <-]. right.
        apply create_driver_returns in Hc as (j & -> & Hj). cbn in Hj.
        eexists. split; [|exact Hj]. cbn. lia.
    + destruct (decide (usage (with_launches (Nat.add (S k)) w) d0
                        < MAX_USAGE_PER_DRIVER)) as [Hlt|Hge].
      * rewrite check_usage_keep by done. intros [= <-]. right.
        exists (launches w + k)%nat. cbn. split; [lia|done].
      * rewrite check_usage_replace by lia.
        destruct (create_driver _) as [[d1|e1|] w2] eqn:Hc; [|done..].
        intros [= <-]. right.
        apply create_driver_returns in Hc as (j & -> & Hj). cbn in Hj.
        eexists. split; [|exact Hj]. cbn. lia.
Qed.

(** What [release_driver] does to the globals, whatever its outcome. *)
Lemma release_driver_globals (clean : result unit) (d : driver) (w : world) :
  (∀ e, (release_driver clean d w).1 ≠ Raises e) ∧
  drivers (release_driver clean d w).2 = drivers w ∧
  driver_expiry (release_driver clean d w).2 = driver_expiry w ∧
  timers (release_driver clean d w).2 = timers w ∧
  chrome (release_driver clean d w).2 = chrome w ∧
  ((length (driver_pool w) < POOL_SIZE)%nat →
   (release_driver clean d w).1 = Returns tt) ∧
  ((length (driver_pool w) ≤ POOL_SIZE)%nat →
   (length (driver_pool (release_driver clean d w).2) ≤ POOL_SIZE)%nat).
Proof.
  unfold release_driver, try_except, bind, lift.
  destruct clean as [[]|e]; cbn.
  - unfold gets, modify, put. cbn. case_bool_decide as Hroom; cbn.
    + split_and!; try done. intros _. rewrite length_app. simpl. lia.
    + split_and!; try done.
  - unfold quit, modify. cbn.
    destruct (create_driver_world (with_quitted (λ q, {[d]} ∪ q) w)) as [k Hk].
    destruct (create_driver _) as [[d1|e1|] w2] eqn:Hc; cbn [fst snd] in *;
      subst w2.
    + unfold put. cbn. case_bool_decide as Hroom; cbn.
      * split_and!; try done. intros _. rewrite length_app. simpl. lia.
      * split_and!; try done.
    + cbn. by split_and!.
    + by apply create_driver_not_blocked in Hc.
Qed.

(** X8. [release_driver] never raises, whatever clearing the browser does
    and whatever the launches do. It returns whenever the pool has room,
    and it blocks only on a full pool, which it then leaves as it was. It
    leaves the sessions, their times and the timers alone, and a pool of
    at most five browsers stays one. *)
Theorem release_driver_never_raises (clean : result unit) (d : driver)
    (w : world) :
  (∀ e, (release_driver clean d w).1 ≠ Raises e) ∧
  ((length (driver_pool w) < POOL_SIZE)%nat →
   (release_driver clean d w).1 = Returns tt) ∧
  ((release_driver clean d w).1 = Blocks →
   (POOL_SIZE ≤ length (driver_pool w))%nat ∧
   driver_pool (release_driver clean d w).2 = driver_pool w) ∧
  drivers (release_driver clean d w).2 = drivers w ∧
  driver_expiry (release_driver clean d w).2 = driver_expiry w ∧
  timers (release_driver clean d w).2 = timers w ∧
  ((length (driver_pool w) ≤ POOL_SIZE)%nat →
   (length (driver_pool (release_driver clean d w).2) ≤ POOL_SIZE)%nat).
Proof.
  destruct (release_driver_globals clean d w)
    as (Hraise & Hd & He & Ht & _ & Hroom & Hbound).
  split_and!; try done.
  intros Hblocks. split.
  - destruct (decide (length (driver_pool w) < POOL_SIZE)%nat) as [Hlt|Hge];
      [|lia].
    rewrite (Hroom Hlt) in Hblocks. done.
  - revert Hblocks. unfold release_driver, try_except, bind, lift.
    destruct clean as [[]|e]; cbn.
    + unfold gets, modify, put. cbn. by case_bool_decide.
    + unfold quit, modify. cbn.
      destruct (create_driver_world (with_quitted (λ q, {[d]} ∪ q) w))
        as [k Hk].
      destruct (create_driver _) as [[d1|e1|] w2] eqn:Hc; cbn [fst snd] in *;
        subst w2; [|done..].
      unfold put. cbn. by case_bool_decide.
Qed.

(** X9. A browser that cannot be cleared is not returned to the pool:
    [quit] is called on it, its use is not counted, and the pool afterwards
    is the pool before with at most one browser more at its end, started
    by a launch of the call. When that launch fails the pool is simply one
    browser short, and nothing is raised. *)
Theorem release_driver_replaces_broken (e : exn) (d : driver) (w : world) :
  let r := release_driver (Raise e) d w in
  d ∈ quitted r.2 ∧
  driver_usage_count r.2 = driver_usage_count w ∧
  (launches w < launches r.2)%nat ∧
  (driver_pool r.2 = driver_pool w ∨
   ∃ d' n, (launches w ≤ n < launches r.2)%nat ∧ chrome w n = Ok d' ∧
     (length (driver_pool w) < POOL_SIZE)%nat ∧
     driver_pool r.2 = driver_pool w ++ [d']) ∧
  ((∀ n, (launches w ≤ n)%nat → ∃ e', chrome w n = Raise e') →
   r.1 = Returns tt ∧ driver_pool r.2 = driver_pool w).
Proof.
  cbv zeta. unfold release_driver, try_except, bind, lift, quit, modify. cbn.
  set (w1 := with_quitted (λ q, {[d]} ∪ q) w).
  destruct (create_driver w1) as [[d1|e1|] w2] eqn:Hc; cbn [fst snd].
  - apply create_driver_returns in Hc as (k & -> & Hk). cbn in Hk.
    unfold put. cbn. case_bool_decide as Hroom; cbn.
    + split_and!; [set_solver|done|lia| |].
      * right. exists d1, (launches w + k)%nat. split_and!; [lia..|done| |done].
        done.
      * intros Hfail. destruct (Hfail (launches w + k)%nat) as [e' He']; [lia|].
        congruence.
    + split_and!; [set_solver|done|lia|by left|].
      intros Hfail. destruct (Hfail (launches w + k)%nat) as [e' He']; [lia|].
      congruence.
  - destruct (create_driver_world w1) as [k Hk]. rewrite Hc in Hk.
    cbn in Hk. subst w2.
    pose proof (create_driver_launches w1) as Hpos.
    rewrite Hc in Hpos. cbn in Hpos.
    split_and!; [set_solver|done|cbn in *; lia|by left|done].
  - by apply create_driver_not_blocked in Hc.
Qed.

End pool_functions.

(** ** Acquire and release; the pool at start-up *)

Section pool_round_trip.

(** X10. Taking a browser and releasing it rotates the pool: when the
    head of the pool has fewer than 15 uses on record, acquiring it and
    releasing it after a successful clearing puts it at the end of the
    pool with one use more, and changes nothing else. A request for a
    captcha whose page fails to load does exactly that before it answers
    500 with the message of the failure. *)
Theorem acquire_release_rotates (w : world) (d : driver) (rest : list driver) :
  driver_pool w = d :: rest → usage w d < MAX_USAGE_PER_DRIVER →
  (length (driver_pool w) ≤ POOL_SIZE)%nat →
  (d0 <- get_driver ;; release_driver (Ok tt) d0) w
  = (Returns tt,
     with_pool (λ _, rest ++ [d]) (with_usage (<[d := usage w d + 1]>) w)) ∧
  ∀ rss e sid now, over_mb 500 rss = false →
    get_captcha rss (Raise e) (Ok tt) sid now w
    = (Raises (HTTPException 500 (str e)),
       with_pool (λ _, rest ++ [d]) (with_usage (<[d := usage w d + 1]>) w)).
Proof.
  intros Hpool Husage Hlen. rewrite Hpool in Hlen. simpl in Hlen.
  assert (Hget : get_driver w = (Returns d, with_pool (λ _, rest) w)).
  { unfold get_driver, bind. rewrite (take_or_create_pool w d rest) by done.
    by rewrite check_usage_keep. }
  assert (Hrel : release_driver (Ok tt) d (with_pool (λ _, rest) w)
    = (Returns tt,
       with_pool (λ _, rest ++ [d]) (with_usage (<[d := usage w d + 1]>) w))).
  { unfold release_driver, try_except, bind, lift, ret, gets, modify, put.
    cbn. rewrite bool_decide_eq_true_2 by lia. done. }
  split.
  - unfold bind. by rewrite Hget, Hrel.
  - intros rss e sid now Hrss. unfold get_captcha. rewrite Hrss.
    unfold bind at 1. rewrite Hget.
    unfold try_except, bind, lift, raise. by rewrite Hrel.
Qed.

Lemma acquire_release_rotates_witness :
  (d0 <- get_driver ;; release_driver (Ok tt) d0) Samples.one_session
  = (Returns tt,
     with_pool (λ _, [] ++ [7%nat])
       (with_usage (<[7%nat := usage Samples.one_session 7%nat + 1]>)
          Samples.one_session)).
Proof.
  refine (proj1 (acquire_release_rotates Samples.one_session 7%nat [] _ _ _)).
  - reflexivity.
  - reflexivity.
  - cbn. unfold POOL_SIZE. lia.
Defined.

End pool_round_trip.

Section pool_filling.

Lemma started_0 (feed : nat → result driver) (n : nat) : started feed n 0 = [].
Proof. reflexivity. Qed.

Lemma started_S (feed : nat → result driver) (n k : nat) :
  started feed n (S k)
  = match feed n with
    | Ok d => d :: started feed (S n) k
    | Raise _ => started feed (S n) k
    end.
Proof. unfold started. cbn. by destruct (feed n). Qed.

Lemma with_pool_launches (w : world) (k1 k2 : nat) (l1 l2 : list driver) :
  with_launches (Nat.add k2)
    (with_pool (λ p, p ++ l2)
       (with_pool (λ p, p ++ l1) (with_launches (Nat.add k1) w)))
  = with_launches (Nat.add (k1 + k2))
      (with_pool (λ p, p ++ (l1 ++ l2)) w).
Proof.
  unfold with_launches, with_pool. cbn. f_equal.
  - by rewrite app_assoc.
  - lia.
Qed.

(** The loop that fills the pool: it returns, the pool gains the browsers
    that its launches give, in their order, and it stops short only after
    a launch that failed. *)
Lemma fill_pool_spec (n : nat) (w : world) :
  (length (driver_pool w) + n ≤ POOL_SIZE)%nat →
  ∃ k, fill_pool n w
       = (Returns tt,
          with_launches (Nat.add k)
            (with_pool (λ p, p ++ started (chrome w) (launches w) k) w)) ∧
    (k ≤ 2 * n)%nat ∧
    (length (started (chrome w) (launches w) k) ≤ n)%nat ∧
    ((length (started (chrome w) (launches w) k) < n)%nat →
     (0 < k)%nat ∧ ∃ e, chrome w (launches w + k - 1)%nat = Raise e).
Proof.
  revert w. induction n as [|n IH]; intros w Hroom.
  - exists 0%nat. rewrite started_0. split_and!; [|lia|simpl; lia|simpl; lia].
    cbn. f_equal. destruct w. unfold with_launches, with_pool. cbn.
    by rewrite app_nil_r.
  - assert (Hstop : ∀ k e,
      (0 < k ≤ 2)%nat → started (chrome w) (launches w) k = [] →
      chrome w (launches w + k - 1)%nat = Raise e →
      create_driver w = (Raises e, with_launches (Nat.add k) w) →
      ∃ k, fill_pool (S n) w
           = (Returns tt,
              with_launches (Nat.add k)
                (with_pool (λ p, p ++ started (chrome w) (launches w) k) w)) ∧
        (k ≤ 2 * S n)%nat ∧
        (length (started (chrome w) (launches w) k) ≤ S n)%nat ∧
        ((length (started (chrome w) (launches w) k) < S n)%nat →
         (0 < k)%nat ∧ ∃ e, chrome w (launches w + k - 1)%nat = Raise e)).
    { intros k e Hk Hnone Hlast Hc. exists k. rewrite Hnone.
      split_and!; [|lia|simpl; lia|].
      - cbn [fill_pool]. unfold bind, try_except. rewrite Hc. cbn.
        f_equal. unfold with_launches, with_pool. cbn. by rewrite app_nil_r.
      - intros _. split; [lia|]. by exists e. }
    assert (Hgo : ∀ k d,
      (0 < k ≤ 2)%nat → started (chrome w) (launches w) k = [d] →
      create_driver w = (Returns d, with_launches (Nat.add k) w) →
      ∃ k, fill_pool (S n) w
           = (Returns tt,
              with_launches (Nat.add k)
                (with_pool (λ p, p ++ started (chrome w) (launches w) k) w)) ∧
        (k ≤ 2 * S n)%nat ∧
        (length (started (chrome w) (launches w) k) ≤ S n)%nat ∧
        ((length (started (chrome w) (launches w) k) < S n)%nat →
         (0 < k)%nat ∧ ∃ e, chrome w (launches w + k - 1)%nat = Raise e)).
    { intros k d Hk Hone Hc.
      set (w2 := with_pool (λ p, p ++ [d]) (with_launches (Nat.add k) w)).
      destruct (IH w2) as (k' & Hfill & Hk' & Hlen & Hshort).
      { unfold w2. cbn. rewrite length_app. simpl. lia. }
      assert (Hsplit : started (chrome w) (launches w) (k + k')
                       = [d] ++ started (chrome w) (k + launches w) k').
      { rewrite <-Hone. unfold started.
        rewrite seq_app, omap_app. do 3 f_equal. lia. }
      exists (k + k')%nat. rewrite Hsplit.
      split_and!; [|lia|simpl; cbn in Hlen; lia|].
      - cbn [fill_pool]. unfold bind, try_except. rewrite Hc. cbn [fst snd].
        unfold put. cbn [driver_pool with_launches].
        rewrite bool_decide_eq_true_2 by lia. cbn [ret]. fold w2.
        rewrite Hfill. f_equal. unfold w2. cbn [chrome launches with_pool
          with_launches]. apply with_pool_launches.
      - intros Hlt. destruct Hshort as [Hpos (e & He)].
        { cbn in Hlt |- *. lia. }
        split; [lia|]. exists e. rewrite <-He. cbn. f_equal. lia. }
    destruct (chrome w (launches w)) as [d|e] eqn:H1.
    + apply (Hgo 1%nat d); [lia| |].
      * by rewrite started_S, H1.
      * by apply create_driver_primary.
    + destruct e as [c m|cls m].
      { apply (Hstop 1%nat (HTTPException c m)); [lia| | |].
        - by rewrite started_S, H1.
        - by rewrite Nat.add_sub.
        - unfold create_driver, try_except, Chrome. by rewrite H1. }
      destruct (decide (cls = SessionNotCreatedException)) as [->|Hcls].
      * destruct (chrome w (S (launches w))) as [d|e] eqn:H2.
        -- apply (Hgo 2%nat d); [lia| |].
           ++ by rewrite !started_S, H1, H2.
           ++ by apply (create_driver_fallback w m d).
        -- apply (Hstop 2%nat e); [lia| | |].
           ++ by rewrite !started_S, H1, H2.
           ++ by replace (launches w + 2 - 1)%nat with (S (launches w)) by lia.
           ++ unfold create_driver, try_except, Chrome. rewrite H1. cbn.
              by rewrite H2.
      * apply (Hstop 1%nat (Error cls m)); [lia| | |].
        -- by rewrite started_S, H1.
        -- by rewrite Nat.add_sub.
        -- unfold create_driver, try_except, Chrome. rewrite H1.
           by destruct cls.
Qed.

(** When the launches all succeed, one launch is made per turn. *)
Lemma fill_pool_all_ok (n : nat) (w : world) :
  (length (driver_pool w) + n ≤ POOL_SIZE)%nat →
  (∀ i, (i < n)%nat → ∃ d, chrome w (launches w + i)%nat = Ok d) →
  fill_pool n w
  = (Returns tt,
     with_launches (Nat.add n)
       (with_pool (λ p, p ++ started (chrome w) (launches w) n) w)) ∧
  length (started (chrome w) (launches w) n) = n.
Proof.
  revert w. induction n as [|n IH]; intros w Hroom Hok.
  - split; [|done]. cbn. f_equal. destruct w. unfold with_launches, with_pool.
    cbn. by rewrite app_nil_r.
  - destruct (Hok 0%nat) as [d Hd]; [lia|]. rewrite Nat.add_0_r in Hd.
    set (w2 := with_pool (λ p, p ++ [d]) (with_launches (Nat.add 1) w)).
    destruct (IH w2) as [Hfill Hlen].
    { unfold w2. cbn. rewrite length_app. simpl. lia. }
    { intros i Hi. destruct (Hok (S i)) as [d' Hd']; [lia|]. exists d'.
      unfold w2. cbn. by rewrite <-Hd', Nat.add_succ_r. }
    rewrite started_S, Hd. split; [|unfold w2 in Hlen; cbn in Hlen |- *; lia].
    cbn [fill_pool]. unfold bind, try_except.
    rewrite (create_driver_primary w d Hd). cbn [fst snd].
    unfold put. cbn [driver_pool with_launches].
    rewrite bool_decide_eq_true_2 by lia. cbn [ret].
    change (with_pool (λ p, p ++ [d]) (with_launches S w)) with w2.
    rewrite Hfill. f_equal. unfold w2. cbn [chrome launches with_pool
      with_launches].
    rewrite (with_pool_launches w 1 n [d]). done.
Qed.

(** X11. When the module is loaded the pool is filled by at most five
    turns and ten launches: the loop never blocks, and afterwards the pool
    holds exactly the browsers that the launches made so far have given,
    in the order of the launches, and there is no session, no timer, no
    usage on record and no browser quit. The pool is left short of five
    only after a launch that failed, which ends the loop; when the first
    five launches succeed, they are the only ones and the pool is full. *)
Theorem startup_fills_pool (feed : nat → result driver) :
  (∃ k, (k ≤ 2 * POOL_SIZE)%nat ∧
     fill_pool POOL_SIZE (initial feed)
     = (Returns tt, World (started feed 0 k) ∅ ∅ ∅ ∅ [] feed k) ∧
     startup feed = World (started feed 0 k) ∅ ∅ ∅ ∅ [] feed k ∧
     (length (started feed 0 k) ≤ POOL_SIZE)%nat ∧
     ((length (started feed 0 k) < POOL_SIZE)%nat →
      (0 < k)%nat ∧ ∃ e, feed (k - 1)%nat = Raise e)) ∧
  ((∀ i, (i < POOL_SIZE)%nat → ∃ d, feed i = Ok d) →
   startup feed = World (started feed 0 POOL_SIZE) ∅ ∅ ∅ ∅ [] feed POOL_SIZE ∧
   length (driver_pool (startup feed)) = POOL_SIZE).
Proof.
  assert (Hworld : ∀ k l,
    with_launches (Nat.add k) (with_pool (λ p, p ++ l) (initial feed))
    = World l ∅ ∅ ∅ ∅ [] feed k).
  { intros k l. unfold with_launches, with_pool, initial. cbn. f_equal. lia. }
  unfold startup. change (POOL_SIZE - Nat.min POOL_SIZE 0)%nat with POOL_SIZE.
  split.
  - destruct (fill_pool_spec POOL_SIZE (initial feed))
      as (k & Hfill & Hk & Hlen & Hshort); [simpl; lia|].
    change (chrome (initial feed)) with feed in *.
    change (launches (initial feed)) with 0%nat in *.
    rewrite Hworld in Hfill. rewrite Nat.add_0_l in Hshort. exists k.
    split_and!; [done|done|by rewrite Hfill|done|done].
  - intros Hok. destruct (fill_pool_all_ok POOL_SIZE (initial feed))
      as [Hfill Hlen]; [simpl; lia|done|].
    change (chrome (initial feed)) with feed in *.
    change (launches (initial feed)) with 0%nat in *.
    rewrite Hworld in Hfill. rewrite Hfill. cbn [snd driver_pool].
    by split.
Qed.

End pool_filling.

(** ** The handler of the captcha *)

Section captcha.

(** The handler, path by path. *)
Lemma get_captcha_unfold (rss : Z) (page : result (option string))
    (clean : result unit) (sid : string) (now : Z) (w : world) :
  get_captcha rss page clean sid now w
  = if over_mb 500 rss then
      (Raises (HTTPException 503 "服务器内存不足，请稍后再试"), w)
    else
      match get_driver w with
      | (Returns d, w1) =>
          match captcha_image page with
          | Ok src =>
              (Returns (CaptchaResponse sid src),
               with_timers (λ ts, ts ++ [(sid, now + 240)])
                 (with_expiry (<[sid := now]>)
                    (with_drivers (<[sid := d]>) w1)))
          | Raise e =>
              match release_driver clean d w1 with
              | (Returns _, w2) => (Raises (HTTPException 500 (str e)), w2)
              | (Raises e', w2) => (Raises e', w2)
              | (Blocks, w2) => (Blocks, w2)
              end
          end
      | (Raises e, w1) => (Raises e, w1)
      | (Blocks, w1) => (Blocks, w1)
      end.
Proof.
  unfold get_captcha. destruct (over_mb 500 rss); [done|].
  unfold bind at 1. destruct (get_driver w) as [[d|e|] w1]; [|done..].
  unfold try_except, bind, lift, captcha_image, register, modify, ret, raise.
  destruct page as [[src|]|e]; [|done..].
  by destruct (truthy src && String.prefix "data:image" src).
Qed.




(** X14. Above 500 MB of resident memory the three handlers answer 503
    before they read or change any global: no browser is taken or
    started, and the time of last use of no session is refreshed. At
    exactly 500 MB they go on. *)
Theorem memory_guard_refuses (rss : Z) (w : world) :
  500 * 1024 * 1024 < rss →
  (∀ page clean sid now,
     get_captcha rss page clean sid now w
     = (Raises (HTTPException 503 "服务器内存不足，请稍后再试"), w)) ∧
  (∀ req p year month now,
     get_timetable rss req p year month now w
     = (Raises (HTTPException 503 "服务器内存不足，请稍后再试"), w)) ∧
  (∀ req p now,
     get_semester_weeks rss req p now w
     = (Raises (HTTPException 503 "服务器内存不足，请稍后再试"), w)) ∧
  over_mb 500 (500 * 1024 * 1024) = false.
Proof.
  intros Hrss.
  assert (Hover : over_mb 500 rss = true).
  { unfold over_mb. by apply bool_decide_eq_true_2. }
  split_and!.
  - intros. unfold get_captcha. by rewrite Hover.
  - intros. unfold get_timetable. by rewrite Hover.
  - intros. unfold get_semester_weeks. by rewrite Hover.
  - reflexivity.
Qed.

Lemma memory_guard_refuses_witness :
  get_timetable 600000000
    (TimetableRequest "5f2a" "20240001" "secret" (Some "ab12"))
    Samples.login_page 2024 10 1100 Samples.one_session
  = (Raises (HTTPException 503 "服务器内存不足，请稍后再试"),
     Samples.one_session).
Proof.
  destruct (memory_guard_refuses 600000000 Samples.one_session)
    as (_ & Htimetable & _); [reflexivity|].
  apply Htimetable.
Defined.

End captcha.

(** ** The two paths of the handler of the weeks *)

Section semester_weeks_paths.




(** [except HTTPException: raise] then [except Exception], on the
    exception itself. *)
Lemma reraise_spec {A} (e : exn) (w : world) :
  @reraise A e w
  = (Raises match e with
            | HTTPException _ _ => e
            | Error _ _ => HTTPException 500 (str e)
            end, w).
Proof. by destruct e. Qed.

(** The session path of the handler. *)
Lemma get_semester_weeks_session (rss : Z) (req : weeks_request)
    (p : weeks_page) (now : Z) (w : world) (sid : string) :
  over_mb 500 rss = false →
  wr_session_id req = Some sid → sid ≠ "" → registered sid w →
  get_semester_weeks rss req p now w
  = match wp_open_schedule p with
    | Ok _ =>
        match extraction req p with
        | Ok resp => (Returns resp, with_expiry (<[sid := now]>) w)
        | Raise e => reraise e w
        end
    | Raise e => reraise e w
    end.
Proof.
  intros Hrss Hsid Hne Hreg. unfold get_semester_weeks. rewrite Hrss.
  unfold bind, gets. rewrite Hsid, truthy_nonempty by done.
  rewrite bool_decide_eq_true_2 by done. cbn [andb].
  unfold try_except, bind, lift, touch, modify, ret, raise.
  destruct (wp_open_schedule p) as [[]|e]; [|done].
  by destruct (extraction req p) as [resp|e].
Qed.

(** The standalone path of the handler. *)
Lemma get_semester_weeks_alone (rss : Z) (req : weeks_request)
    (p : weeks_page) (now : Z) (w : world) :
  over_mb 500 rss = false →
  (∀ sid, wr_session_id req = Some sid → sid = "" ∨ drivers w !! sid = None) →
  get_semester_weeks rss req p now w
  = if negb (truthy_opt (wr_username req) && truthy_opt (wr_password req)
             && truthy_opt (wr_captcha req)) then
      (Raises (HTTPException 400 "会话已失效，请提供用户名、密码与最新验证码"), w)
    else
      match create_driver w with
      | (Returns d, w1) =>
          (match login p w1 with
           | (Returns _, _) =>
               match wp_open_schedule p with
               | Ok _ =>
                   match extraction req p with
                   | Ok resp => Returns resp
                   | Raise e => (@reraise weeks_response e w1).1
                   end
               | Raise e => (@reraise weeks_response e w1).1
               end
           | (Raises e, _) => (@reraise weeks_response e w1).1
           | (Blocks, _) => Blocks
           end, with_quitted (λ q, {[d]} ∪ q) w1)
      | (Raises e, w1) => (Raises e, w1)
      | (Blocks, w1) => (Blocks, w1)
      end.
Proof.
  intros Hrss Hnone. unfold get_semester_weeks. rewrite Hrss.
  unfold bind at 1, gets.
  assert (match wr_session_id req with
          | Some sid =>
              if truthy sid && bool_decide (is_Some (drivers w !! sid))
              then Some sid else None
          | None => None
          end = None) as ->.
  { destruct (wr_session_id req) as [sid|]; [|done].
    destruct (Hnone sid eq_refl) as [-> | Hd]; [done|].
    rewrite Hd, bool_decide_eq_false_2 by (by intros [? ?]).
    by rewrite andb_false_r. }
  destruct (negb _); [done|]. unfold bind at 1.
  destruct (create_driver w) as [[d|e|] w1]; [|done..].
  unfold try_finally, try_except, bind, lift, login, quit, modify, ret, raise.
  destruct (wp_login p) as [|a|e]; cbn [fst snd].
  - destruct (wp_open_schedule p) as [[]|e]; cbn [fst snd].
    + destruct (extraction req p) as [resp|e]; cbn [fst snd]; [done|].
      by destruct e.
    + by destruct e.
  - done.
  - by destruct e.
Qed.



(** X16. A request for the weeks of a semester without a usable session
    and without the three credentials is refused with 400 and starts no
    browser. With them it starts a browser of its own, outside the pool:
    when the launch fails its exception escapes as it is; otherwise [quit]
    is called on that browser on every path, and the request answers the
    extraction or raises an [HTTPException], the 401 of a login that times
    out carrying the text of the alert when there is one. The pool, the
    sessions, their times, the timers and the usage counts are never
    touched, and the handler never blocks. *)
Theorem semester_weeks_standalone (rss : Z) (req : weeks_request)
    (p : weeks_page) (now : Z) (w : world) :
  over_mb 500 rss = false →
  (∀ sid, wr_session_id req = Some sid → sid = "" ∨ drivers w !! sid = None) →
  let r := get_semester_weeks rss req p now w in
  let credentials := truthy_opt (wr_username req) && truthy_opt (wr_password req)
                     && truthy_opt (wr_captcha req) in
  (driver_pool r.2 = driver_pool w ∧ drivers r.2 = drivers w ∧
   driver_expiry r.2 = driver_expiry w ∧ timers r.2 = timers w ∧
   driver_usage_count r.2 = driver_usage_count w ∧ r.1 ≠ Blocks) ∧
  (credentials = false →
   r = (Raises (HTTPException 400 "会话已失效，请提供用户名、密码与最新验证码"), w)) ∧
  (credentials = true →
   match create_driver w with
   | (Returns d, w1) =>
       r.2 = with_quitted (λ q, {[d]} ∪ q) w1 ∧
       match r.1 with
       | Returns resp =>
           wp_login p = LoggedIn ∧ wp_open_schedule p = Ok tt ∧
           extraction req p = Ok resp
       | Raises e =>
           (∃ c detail, e = HTTPException c detail) ∧
           (∀ a, wp_login p = LoginTimeout a →
              e = HTTPException 401
                    (match a with
                     | AlertPresent text =>
                         if truthy text then text
                         else "验证码可能已过期，请刷新并重试"
                     | NoAlertPresent => "验证码可能已过期，请刷新并重试"
                     end))
       | Blocks => False
       end
   | (Raises e, w1) => r = (Raises e, w1)
   | (Blocks, _) => False
   end).
Proof.
  intros Hrss Hnone. cbv zeta.
  rewrite (get_semester_weeks_alone rss req p now w) by done.
  destruct (truthy_opt (wr_username req) && truthy_opt (wr_password req)
            && truthy_opt (wr_captcha req)); cbn [negb].
  2:{ by split_and!. }
  destruct (create_driver_world w) as [k Hk].
  destruct (create_driver w) as [[d|e|] w1] eqn:Hc; cbn [fst snd] in Hk;
    subst w1.
  - assert (Hexn : ∀ e : exn, ∃ c detail,
              match e with
              | HTTPException _ _ => e
              | Error _ _ => HTTPException 500 (str e)
              end = HTTPException c detail).
    { intros e. destruct e; by eexists _, _. }
    unfold login, ret, raise. cbn [fst snd].
    destruct (wp_login p) as [|a|e] eqn:Hlogin; cbn [fst snd].
    + destruct (wp_open_schedule p) as [[]|e] eqn:Hopen; cbn [fst snd].
      * destruct (extraction req p) as [resp|e] eqn:Hex; cbn [fst snd].
        -- by split_and!.
        -- rewrite reraise_spec. cbn [fst snd]. by split_and!.
      * rewrite reraise_spec. cbn [fst snd]. by split_and!.
    + split_and!; try done. intros _. rewrite reraise_spec. cbn [fst snd].
      split_and!; [done|by eexists _, _|].
      intros a' [= <-]. by destruct a.
    + rewrite reraise_spec. cbn [fst snd]. by split_and!.
  - by split_and!.
  - by apply create_driver_not_blocked in Hc.
Qed.

Lemma semester_weeks_standalone_witness :
  (get_semester_weeks 0
     (WeeksRequest (Some "20240001") (Some "secret") (Some "ab12") None "42" 3)
     Samples.weeks_page 1100 Samples.one_session).2
  = with_quitted (λ q, {[100%nat]} ∪ q) (with_launches S Samples.one_session).
Proof.
  pose proof (semester_weeks_standalone 0
    (WeeksRequest (Some "20240001") (Some "secret") (Some "ab12") None "42" 3)
    Samples.weeks_page 1100 Samples.one_session eq_refl) as H.
  destruct H as (_ & _ & Hstart).
  - intros sid Hsid. discriminate.
  - exact (proj1 (Hstart eq_refl)).
Defined.

End semester_weeks_paths.

(** ** The timer, the sweeps and the memory monitor *)

Section background.

(** What the body of a timer thread does to the globals. *)
Lemma auto_release_driver_spec (sid : string) (w : world) :
  driver_pool (auto_release_driver sid w) = driver_pool w ∧
  timers (auto_release_driver sid w) = timers w ∧
  driver_usage_count (auto_release_driver sid w) = driver_usage_count w ∧
  chrome (auto_release_driver sid w) = chrome w ∧
  launches (auto_release_driver sid w) = launches w ∧
  drivers (auto_release_driver sid w) = delete sid (drivers w) ∧
  driver_expiry (auto_release_driver sid w)
  = (if bool_decide (is_Some (drivers w !! sid))
     then delete sid (driver_expiry w) else driver_expiry w) ∧
  quitted (auto_release_driver sid w)
  = match drivers w !! sid with
    | Some d => {[d]} ∪ quitted w
    | None => quitted w
    end.
Proof.
  unfold auto_release_driver, pop_session, quit_session.
  destruct (drivers w !! sid) as [d|] eqn:Hd.
  - rewrite bool_decide_eq_true_2 by eauto. cbn. by split_and!.
  - rewrite bool_decide_eq_false_2 by (by intros [? ?]).
    split_and!; try done. by rewrite delete_id.
Qed.

(** A timer that is pending wakes once; one that is not does nothing. *)
Lemma timer_wakes_pending (sid : string) (due : Z) (w : world) :
  (sid, due) ∈ timers w →
  ∃ i, timers w !! i = Some (sid, due) ∧
    timer_wakes sid due w = auto_release_driver sid (with_timers (delete i) w).
Proof.
  intros Hin. unfold timer_wakes.
  destruct (list_find_elem_of (λ t, t = (sid, due)) (timers w) (sid, due))
    as [[i t] Hfind]; [done..|].
  rewrite Hfind. apply list_find_Some in Hfind as (Hi & -> & _).
  by exists i.
Qed.

Lemma timer_wakes_idle (sid : string) (due : Z) (w : world) :
  (sid, due) ∉ timers w → timer_wakes sid due w = w.
Proof.
  intros Hnin. unfold timer_wakes.
  destruct (list_find _ (timers w)) as [[i t]|] eqn:Hfind; [|done].
  apply list_find_Some in Hfind as (Hi & -> & _).
  destruct Hnin. by eapply list_elem_of_lookup_2.
Qed.

(** X17. When a pending timer wakes, its session is removed and [quit] is
    called on its browser, whatever the time of last use of the session
    is: that time is not read. No other session, no time of another
    session and no browser of the pool is touched, and the timer is
    spent. A timer whose session is gone already only spends itself, and
    a timer that is not pending does nothing. *)
Theorem timer_ignores_last_use (sid : string) (due : Z) (w : world) :
  (sid, due) ∈ timers w →
  let w' := timer_wakes sid due w in
  drivers w' = delete sid (drivers w) ∧
  (registered sid w → driver_expiry w' = delete sid (driver_expiry w)) ∧
  (∀ d, d ∈ quitted w' ↔ d ∈ quitted w ∨ drivers w !! sid = Some d) ∧
  (∀ sid', sid' ≠ sid →
     drivers w' !! sid' = drivers w !! sid' ∧
     driver_expiry w' !! sid' = driver_expiry w !! sid') ∧
  driver_pool w' = driver_pool w ∧
  (∃ i, timers w !! i = Some (sid, due) ∧ timers w' = delete i (timers w)) ∧
  (¬ registered sid w → w' = with_timers (λ _, timers w') w) ∧
  (∀ sid0 due0, (sid0, due0) ∉ timers w → timer_wakes sid0 due0 w = w).
Proof.
  intros Hin. cbv zeta.
  destruct (timer_wakes_pending sid due w Hin) as (i & Hi & ->).
  destruct (auto_release_driver_spec sid (with_timers (delete i) w))
    as (Hp & Ht & Hu & Hc & Hl & Hd & He & Hq).
  cbn [with_timers driver_pool timers driver_usage_count chrome launches
       drivers driver_expiry quitted] in Hp, Ht, Hu, Hc, Hl, Hd, He, Hq.
  unfold registered. split_and!.
  - done.
  - intros Hreg. by rewrite He, bool_decide_eq_true_2.
  - intros d. rewrite Hq. destruct (drivers w !! sid) as [d0|].
    + rewrite elem_of_union, elem_of_singleton. split.
      * intros [->|?]; [by right|by left].
      * intros [?|[= ->]]; [by right|by left].
    + split; [by left|]. by intros [?|?].
  - intros sid' Hne. rewrite Hd, He. split.
    + by rewrite lookup_delete_ne.
    + case_bool_decide; [|done]. by rewrite lookup_delete_ne.
  - done.
  - exists i. by rewrite Ht.
  - intros Hnreg. unfold auto_release_driver. cbn [with_timers drivers].
    by rewrite bool_decide_eq_false_2.
  - intros sid0 due0. apply timer_wakes_idle.
Qed.

Lemma timer_ignores_last_use_witness :
  drivers (timer_wakes "5f2a" 1240 Samples.one_session)
  = delete "5f2a" (drivers Samples.one_session) ∧
  (9%nat ∈ quitted (timer_wakes "5f2a" 1240 Samples.one_session)).
Proof.
  destruct (timer_ignores_last_use "5f2a" 1240 Samples.one_session)
    as (Hd & _ & Hq & _).
  - apply list_elem_of_here.
  - split; [exact Hd|]. apply Hq. by right.
Defined.

(** After a sweep no entry is older than its threshold. *)
Lemma sweep_expired_nil (thr1 thr2 now : Z) (w : world) :
  thr1 ≤ thr2 → expired_sessions thr2 now (sweep thr1 now w) = [].
Proof.
  intros Hthr. apply elem_of_nil_inv. intros sid Hin.
  apply expired_sessions_elem in Hin as (t & Ht & Hold).
  destruct (sweep_spec thr1 now w) as (_ & _ & _ & _ & _ & _ & He & _).
  rewrite He in Ht. case_decide as Hexp; [done|].
  apply Hexp, expired_sessions_elem. exists t. split; [done|lia].
Qed.

(** X18. The two sweeps compose: a sweep with the larger threshold, run
    at the same time after one with the smaller threshold, changes
    nothing, so that a sweep run twice is run once and a turn of
    [cleanup_drivers] (300 s) has nothing left to do after the sweep of
    [monitor_memory] (180 s). Whatever the tighter sweep keeps, the
    looser one keeps, and the looser one calls [quit] on no browser that
    the tighter one spares. *)
Theorem sweeps_compose (thr1 thr2 now : Z) (w : world) :
  thr1 ≤ thr2 →
  sweep thr2 now (sweep thr1 now w) = sweep thr1 now w ∧
  (∀ sid d, drivers (sweep thr1 now w) !! sid = Some d →
            drivers (sweep thr2 now w) !! sid = Some d) ∧
  (∀ sid t, driver_expiry (sweep thr1 now w) !! sid = Some t →
            driver_expiry (sweep thr2 now w) !! sid = Some t) ∧
  (∀ d, d ∈ quitted (sweep thr2 now w) → d ∈ quitted (sweep thr1 now w)) ∧
  (thr1 = 180 → cleanup_drivers now (sweep thr1 now w) = sweep thr1 now w).
Proof.
  intros Hthr.
  assert (Hsub : ∀ sid, sid ∈ expired_sessions thr2 now w →
                        sid ∈ expired_sessions thr1 now w).
  { intros sid (t & Ht & Hold)%expired_sessions_elem.
    apply expired_sessions_elem. exists t. split; [done|lia]. }
  destruct (sweep_spec thr1 now w) as (_ & _ & _ & _ & _ & Hd1 & He1 & Hq1).
  destruct (sweep_spec thr2 now w) as (_ & _ & _ & _ & _ & Hd2 & He2 & Hq2).
  split_and!.
  - rewrite (sweep_unfold thr2). by rewrite sweep_expired_nil.
  - intros sid d. rewrite Hd1, Hd2. case_decide as H1; [done|].
    rewrite decide_False; [done|]. intros H2. by apply H1, Hsub.
  - intros sid t. rewrite He1, He2. case_decide as H1; [done|].
    rewrite decide_False; [done|]. intros H2. by apply H1, Hsub.
  - intros d. rewrite Hq1, Hq2. intros [?|(sid & Hin & Hd)]; [by left|].
    right. exists sid. split; [by apply Hsub|done].
  - intros ->. unfold cleanup_drivers. rewrite (sweep_unfold 300).
    by rewrite sweep_expired_nil.
Qed.

Lemma sweeps_compose_witness :
  cleanup_drivers 1200 (sweep 180 1200 Samples.one_session)
  = sweep 180 1200 Samples.one_session.
Proof.
  destruct (sweeps_compose 180 300 1200 Samples.one_session)
    as (_ & _ & _ & _ & Hclean); [lia|].
  by apply Hclean.
Defined.


End background.

(** ** The size of the pool and the bookkeeping of the sessions *)

Section bounded_pool.

(** What [get_semester_weeks] does to the globals, whatever its path. *)
Lemma get_semester_weeks_globals (rss : Z) (req : weeks_request)
    (p : weeks_page) (now : Z) (w : world) :
  let w' := (get_semester_weeks rss req p now w).2 in
  steady w w' ∧ timers w' = timers w ∧
  driver_usage_count w' = driver_usage_count w ∧
  ((driver_expiry w' = driver_expiry w ∧
    (quitted w' = quitted w ∨
     ∃ d w1, create_driver w = (Returns d, w1) ∧
             w' = with_quitted (λ q, {[d]} ∪ q) w1)) ∨
   (∃ sid, registered sid w ∧ w' = with_expiry (<[sid := now]>) w)).
Proof.
  cbv zeta. split; [apply get_semester_weeks_steady|].
  destruct (over_mb 500 rss) eqn:Hrss.
  { unfold get_semester_weeks. rewrite Hrss. cbn. split_and!; try done.
    left. split; [done|by left]. }
  assert (Halone :
    (∀ sid, wr_session_id req = Some sid → sid = "" ∨ drivers w !! sid = None) →
    timers (get_semester_weeks rss req p now w).2 = timers w ∧
    driver_usage_count (get_semester_weeks rss req p now w).2
    = driver_usage_count w ∧
    ((driver_expiry (get_semester_weeks rss req p now w).2 = driver_expiry w ∧
      (quitted (get_semester_weeks rss req p now w).2 = quitted w ∨
       ∃ d w1, create_driver w = (Returns d, w1) ∧
               (get_semester_weeks rss req p now w).2
               = with_quitted (λ q, {[d]} ∪ q) w1)) ∨
     (∃ sid, registered sid w ∧
        (get_semester_weeks rss req p now w).2
        = with_expiry (<[sid := now]>) w))).
  { intros Hnone. rewrite (get_semester_weeks_alone rss req p now w) by done.
    destruct (negb _).
    { cbn. split_and!; try done. left. split; [done|by left]. }
    destruct (create_driver_world w) as [k Hk].
    destruct (create_driver w) as [[d|e|] w1] eqn:Hc; cbn [fst snd] in *;
      subst w1; cbn; (split_and!; try done); left; (split; [done|]).
    - right. by eexists _, _.
    - by left.
    - by left. }
  destruct (wr_session_id req) as [sid|] eqn:Hsid; [|by apply Halone].
  destruct (decide (sid = "")) as [->|Hne].
  { apply Halone. intros sid' [= <-]. by left. }
  destruct (drivers w !! sid) as [d|] eqn:Hd.
  2:{ apply Halone. intros sid' [= <-]. by right. }
  assert (Hreg : registered sid w) by (unfold registered; eauto).
  rewrite (get_semester_weeks_session rss req p now w sid) by done.
  destruct (wp_open_schedule p) as [[]|e].
  - destruct (extraction req p) as [resp|e].
    + cbn. split_and!; try done. right. by exists sid.
    + rewrite reraise_spec. cbn. split_and!; try done.
      left. split; [done|by left].
  - rewrite reraise_spec. cbn. split_and!; try done.
    left. split; [done|by left].
Qed.

Lemma timer_wakes_pool (sid : string) (due : Z) (w : world) :
  driver_pool (timer_wakes sid due w) = driver_pool w.
Proof.
  destruct (decide ((sid, due) ∈ timers w)) as [Hin|Hnin].
  - destruct (timer_wakes_pending sid due w Hin) as (i & _ & ->).
    by destruct (auto_release_driver_spec sid (with_timers (delete i) w))
      as (-> & _).
  - by rewrite timer_wakes_idle.
Qed.

Lemma monitor_memory_pool (rss1 rss2 now : Z) (w : world) :
  ∃ n, driver_pool (monitor_memory rss1 rss2 now w) = drop n (driver_pool w).
Proof.
  unfold monitor_memory. destruct (over_mb 400 rss1); [|by exists 0%nat].
  destruct (sweep_spec 180 now w) as (Hp & _).
  destruct (over_mb 400 rss2 && _); [|by exists 0%nat].
  destruct (shrink_spec (Nat.min 2 (length (driver_pool (sweep 180 now w))))
              (sweep 180 now w)) as (-> & _).
  rewrite Hp. by eexists.
Qed.

(** With a pool of at most five browsers [get_captcha] never waits. *)
Lemma get_captcha_pool_bound (rss : Z) (page : result (option string))
    (clean : result unit) (sid : string) (now : Z) (w : world) :
  (length (driver_pool w) ≤ POOL_SIZE)%nat →
  (get_captcha rss page clean sid now w).1 ≠ Blocks ∧
  (length (driver_pool (get_captcha rss page clean sid now w).2)
   ≤ POOL_SIZE)%nat.
Proof.
  intros Hlen. rewrite get_captcha_unfold.
  destruct (over_mb 500 rss); [done|].
  destruct (get_driver_globals w) as (Hp & _).
  assert (Htail : (length (tail (driver_pool w)) < POOL_SIZE)%nat).
  { destruct (driver_pool w); simpl in *; unfold POOL_SIZE in *; lia. }
  destruct (get_driver w) as [[d|e|] w1] eqn:Hget; cbn [fst snd] in *.
  - rewrite <-Hp in Htail. destruct (captcha_image page) as [src|e0].
    + cbn. split; [done|]. exact (Nat.lt_le_incl _ _ Htail).
    + destruct (release_driver_globals clean d w1)
        as (_ & _ & _ & _ & _ & Hroom & Hbound).
      specialize (Hroom Htail).
      destruct (release_driver clean d w1) as [[[]|e'|] w2];
        cbn [fst snd] in *; try done.
      split; [done|]. apply Hbound. exact (Nat.lt_le_incl _ _ Htail).
  - split; [done|]. rewrite Hp. exact (Nat.lt_le_incl _ _ Htail).
  - by apply get_driver_not_blocked in Hget.
Qed.

Lemma run_pool_bound (ev : event) (w : world) :
  (length (driver_pool w) ≤ POOL_SIZE)%nat →
  (length (driver_pool (run ev w)) ≤ POOL_SIZE)%nat.
Proof.
  intros Hlen. destruct ev as [rss page clean sid now
    |rss req p year month now|rss req p now|sid due|now|rss1 rss2 now]; cbn [run].
  - by apply get_captcha_pool_bound.
  - by destruct (get_timetable_steady rss req p year month now w) as (-> & _).
  - by destruct (get_semester_weeks_steady rss req p now w) as (-> & _).
  - by rewrite timer_wakes_pool.
  - unfold cleanup_drivers. by destruct (sweep_spec 300 now w) as (-> & _).
  - destruct (monitor_memory_pool rss1 rss2 now w) as [n ->].
    rewrite length_drop. lia.
Qed.

(** X20. The pool never holds more than five browsers: in every state
    that the process can reach from its start, by the handlers and the
    background threads each taken as one step, the pool has at most
    [POOL_SIZE] entries, and in such a state a request for a captcha,
    which is the only one to put a browser back, never waits for room. *)
Theorem pool_never_exceeds_size (feed : nat → result driver) (w : world) :
  reachable feed w →
  (length (driver_pool w) ≤ POOL_SIZE)%nat ∧
  ∀ rss page clean sid now,
    (get_captcha rss page clean sid now w).1 ≠ Blocks.
Proof.
  intros [evs ->].
  assert (Hlen : (length (driver_pool (run_all evs (startup feed)))
                  ≤ POOL_SIZE)%nat).
  { induction evs as [|ev evs IH] using rev_ind.
    - unfold startup.
      change (POOL_SIZE - Nat.min POOL_SIZE 0)%nat with POOL_SIZE.
      destruct (fill_pool_spec POOL_SIZE (initial feed))
        as (k & -> & _ & Hlen & _); [simpl; lia|].
      cbn. exact Hlen.
    - rewrite run_all_snoc. by apply run_pool_bound. }
  split; [done|]. intros rss page clean sid now.
  by apply get_captcha_pool_bound.
Qed.

Lemma pool_never_exceeds_size_witness :
  (length (driver_pool (run_all Samples.session_in_use (startup Samples.feed)))
   ≤ POOL_SIZE)%nat.
Proof.
  refine (proj1 (pool_never_exceeds_size Samples.feed _ _)).
  by exists Samples.session_in_use.
Defined.

End bounded_pool.

Section bookkeeping.








End bookkeeping.

(** ** No browser in use has been quit *)

Section alive.


















End alive.

(** ** The first span of a block; the floor of the bound on the weeks *)

Section first_span.

Lemma find_span_class_head (k : string) (cls : list string) (t : string)
    (rest : list span) :
  k ∈ cls → text_of (find_span_class k (Span cls t :: rest)) = t.
Proof.
  intros Hk. unfold find_span_class. cbn. by rewrite decide_True.
Qed.

Lemma find_span_class_single (k : string) (cls : list string) (t : string) :
  k ∉ cls → text_of (find_span_class k [Span cls t]) = "".
Proof.
  intros Hk. unfold find_span_class. cbn. by rewrite decide_False.
Qed.

(** X23. The name of a course is read from the first span of its block
    whatever the class of that span. When the first span is itself the
    span of the class section, of the teacher or of the place, its text is
    read twice, as the name and as that field: a block made of one such
    span gives its text twice, with a space in between. *)
Theorem first_span_read_twice (txt : string) (cls : list string) (t : string)
    (rest : list span) :
  t ≠ "" →
  course_name (Span cls t :: rest) = t ∧
  ("teachCls" ∈ cls → class_info (Span cls t :: rest) = t) ∧
  ("teacher" ∈ cls → teacher (Span cls t :: rest) = t) ∧
  ("place" ∈ cls → location (Span cls t :: rest) = t) ∧
  (cls = ["teachCls"] ∨ cls = ["teacher"] ∨ cls = ["place"] →
   parse_course_content (Cell txt (Some [Span cls t])) = Some (t +:+ " " +:+ t)).
Proof.
  intros Ht. split_and!.
  - done.
  - apply find_span_class_head.
  - apply find_span_class_head.
  - apply find_span_class_head.
  - intros Hcls.
    rewrite (parse_course_content_fields _ [Span cls t]) by done.
    unfold fields, class_info, teacher, location.
    change (course_name [Span cls t]) with t.
    assert (Hin : ∀ k : string, k ∈ [k]) by (intros k; apply list_elem_of_here).
    assert (Hout : ∀ k k' : string, k ≠ k' → k ∉ [k']).
    { intros k k' Hne ->%list_elem_of_singleton. done. }
    destruct Hcls as [-> | [-> | ->]].
    + rewrite find_span_class_head by apply Hin.
      rewrite !find_span_class_single by (by apply Hout).
      rewrite !(nonempty_cons t) by done. by rewrite !nonempty_cons_empty.
    + rewrite (find_span_class_head "teacher") by apply Hin.
      rewrite !find_span_class_single by (by apply Hout).
      rewrite (nonempty_cons t), nonempty_cons_empty by done.
      rewrite (nonempty_cons t) by done. by rewrite !nonempty_cons_empty.
    + rewrite (find_span_class_head "place") by apply Hin.
      rewrite !find_span_class_single by (by apply Hout).
      rewrite (nonempty_cons t), !nonempty_cons_empty by done.
      by rewrite (nonempty_cons t) by done.
Qed.

Lemma first_span_read_twice_witness :
  parse_course_content (Cell "" (Some [Span ["teacher"] "王老师"]))
  = Some "王老师 王老师".
Proof.
  refine (proj2 (proj2 (proj2 (proj2
    (first_span_read_twice "" ["teacher"] "王老师" [] _)))) _).
  - discriminate.
  - right. by left.
Defined.

End first_span.

Section week_bound.

(** X24. A bound on the weeks of zero or less is read as one: the
    request then visits the first week of the dataset and no other, and
    is answered as a request for one week. *)
Theorem max_weeks_floor (max_weeks : Z) (sem_options week_options : list opt)
    (sem_id : string) (browser : nat → week_obs) :
  max_weeks ≤ 1 →
  week_prefix max_weeks week_options = take 1 week_options ∧
  semester_weeks sem_options week_options sem_id max_weeks browser
  = semester_weeks sem_options week_options sem_id 1 browser ∧
  (length (semester_weeks sem_options week_options sem_id max_weeks browser).1
   ≤ 1)%nat.
Proof.
  intros Hmax.
  assert (Hprefix : week_prefix max_weeks week_options = take 1 week_options).
  { unfold week_prefix. by replace (Z.max 1 max_weeks) with 1 by lia. }
  split_and!; [done| |].
  - unfold semester_weeks. by rewrite Hprefix.
  - unfold semester_weeks. rewrite Hprefix.
    destruct (matched_sem sem_id sem_options) as [[sv sn]|]; [|simpl; lia].
    destruct (weeks_loop_scripts (sv, sn) browser (take 1 week_options) 0 [] [])
      as [n Hn].
    destruct (weeks_loop _ _ _ _ _ _) as [scripts [weeks|e]]; cbn [fst] in *;
      rewrite Hn, app_nil_l, length_fmap, !length_take; lia.
Qed.

Lemma max_weeks_floor_witness :
  (length (semester_weeks [Samples.semester "42" "2024-2025学年秋季学期"]
             [Samples.week "1"; Samples.week "2"; Samples.week "3"] "42" (-5)
             (λ _, Samples.shown)).1 ≤ 1)%nat.
Proof.
  refine (proj2 (proj2 (max_weeks_floor (-5) _ _ _ _ _))). lia.
Defined.

End week_bound.

(** ** The ceiling on the uses of a browser *)

Section usage_ceiling.

(** Steps that leave the usage counts alone. *)
Lemma usage_bounded_same (w w' : world) :
  driver_usage_count w' = driver_usage_count w → chrome w' = chrome w →
  (launches w ≤ launches w')%nat → usage_bounded w → usage_bounded w'.
Proof.
  intros Hu Hc Hl [Hb Hk]. unfold usage_bounded, usage, launched.
  rewrite Hu, Hc. split; [done|].
  intros d (n & Hn & Hok)%Hk. exists n. split; [lia|done].
Qed.

(** A browser that is yet to be started has no usage on record. *)
Lemma usage_bounded_fresh (w : world) :
  distinct_launches (chrome w) → usage_bounded w → fresh_launches w.
Proof.
  intros Hdist [_ Hk] n d Hn Hok.
  destruct (driver_usage_count w !! d) as [u|] eqn:Hu; [|done].
  destruct (Hk d) as (n' & Hn' & Hok'); [eauto|].
  specialize (Hdist _ _ _ Hok Hok'). lia.
Qed.

Lemma create_driver_usage (w : world) :
  usage_bounded w → usage_bounded (create_driver w).2.
Proof.
  destruct (create_driver_steady w) as (_ & _ & Hc & Hl).
  apply usage_bounded_same; [|done..].
  by destruct (create_driver_world w) as [k ->].
Qed.

Lemma check_usage_bounded (d : driver) (w : world) :
  distinct_launches (chrome w) → usage_bounded w → launched w d →
  usage_bounded (check_usage d w).2 ∧
  ∀ d', (check_usage d w).1 = Returns d' →
        usage (check_usage d w).2 d' < MAX_USAGE_PER_DRIVER.
Proof.
  intros Hdist Hub Hl.
  destruct (decide (usage w d < MAX_USAGE_PER_DRIVER)) as [Hlt|Hge].
  - rewrite check_usage_keep by done. cbn. split; [done|]. by intros d' [= <-].
  - rewrite check_usage_replace by lia.
    set (w1 := with_quitted (λ q, {[d]} ∪ q) w).
    assert (Hub1 : usage_bounded w1) by done.
    pose proof (usage_bounded_fresh w1 Hdist Hub1) as Hfresh.
    pose proof (create_driver_usage w1 Hub1) as Hub2.
    destruct (create_driver_steady w1) as (_ & _ & Hc2 & Hl2).
    destruct (create_driver w1) as [[d1|e1|] w2] eqn:Hc; cbn [fst snd] in *;
      [|done..].
    apply create_driver_returns in Hc as (k & Hw2 & Hk).
    destruct Hub2 as [Hb2 Hk2]. split.
    + split.
      * intros d'. unfold usage. cbn.
        destruct (decide (d = d')) as [<-|Hne].
        -- rewrite lookup_insert_eq. cbn. unfold MAX_USAGE_PER_DRIVER. lia.
        -- rewrite lookup_insert_ne by done. apply Hb2.
      * intros d'. cbn.
        destruct (decide (d = d')) as [<-|Hne].
        -- intros _. destruct Hl as (n & Hn & Hok). exists n.
           unfold w1 in Hl2, Hc2. cbn in Hl2, Hc2 |- *. split; [lia|].
           by rewrite Hc2.
        -- rewrite lookup_insert_ne by done. apply Hk2.
    + intros d' [= <-]. unfold usage. cbn.
      destruct (decide (d = d1)) as [<-|Hne].
      * rewrite lookup_insert_eq. cbn. unfold MAX_USAGE_PER_DRIVER. lia.
      * rewrite lookup_insert_ne by done. subst w2.
        pose proof (Hfresh (launches w + k)%nat d1) as Hnone.
        unfold w1 in Hnone, Hk |- *. cbn in Hnone, Hk |- *.
        rewrite Hnone; [|lia|done].
        cbn. unfold MAX_USAGE_PER_DRIVER. lia.
Qed.

Lemma get_driver_usage (w : world) :
  distinct_launches (chrome w) → pool_invariant w → usage_bounded w →
  usage_bounded (get_driver w).2 ∧
  ∀ d, (get_driver w).1 = Returns d →
       usage (get_driver w).2 d < MAX_USAGE_PER_DRIVER.
Proof.
  intros Hdist Hinv Hub. unfold get_driver, bind.
  destruct (take_or_create_invariant w Hdist Hinv) as (_ & _ & Hc0 & Hsp0).
  assert (Hub0 : usage_bounded (take_or_create w).2).
  { destruct (driver_pool w) as [|d0 rest] eqn:Hpool.
    - rewrite take_or_create_empty by done.
      pose proof (create_driver_usage w Hub) as Hub1.
      by destruct (create_driver w) as [[d1|e1|] w1].
    - by rewrite (take_or_create_pool w d0 rest) by done. }
  destruct (take_or_create w) as [[d0|e0|] w0]; cbn [fst snd] in *; [|done..].
  apply check_usage_bounded; [by rewrite Hc0|done|]. by apply Hsp0.
Qed.

Lemma release_driver_usage (clean : result unit) (d : driver) (w : world) :
  usage_bounded w → launched w d → usage w d < MAX_USAGE_PER_DRIVER →
  usage_bounded (release_driver clean d w).2.
Proof.
  intros Hub Hl Hlt. unfold release_driver, try_except, bind, lift.
  destruct clean as [[]|e]; cbn.
  - unfold gets, modify. cbn.
    set (w1 := with_usage _ w).
    assert (Hub1 : usage_bounded w1).
    { destruct Hub as [Hb Hk]. split.
      - intros d'. unfold usage. cbn.
        destruct (decide (d = d')) as [<-|Hne].
        + rewrite lookup_insert_eq. cbn. specialize (Hb d). lia.
        + rewrite lookup_insert_ne by done. apply Hb.
      - intros d'. cbn. destruct (decide (d = d')) as [<-|Hne]; [done|].
        rewrite lookup_insert_ne by done. apply Hk. }
    destruct (put d w1) as [[[]|e|] w2] eqn:Hp; cbn [fst snd];
      unfold put in Hp; case_bool_decide; simplify_eq; done.
  - unfold quit, modify. cbn.
    set (w1 := with_quitted _ w).
    assert (Hub1 : usage_bounded w1) by done.
    pose proof (create_driver_usage w1 Hub1) as Hub2.
    destruct (create_driver w1) as [[d1|e1|] w2]; cbn [fst snd] in *;
      [|done..].
    destruct (put d1 w2) as [[[]|e2|] w3] eqn:Hp; cbn [fst snd];
      unfold put in Hp; case_bool_decide; simplify_eq; done.
Qed.

Lemma run_usage_bounded (ev : event) (w : world) :
  distinct_launches (chrome w) → pool_invariant w → usage_bounded w →
  usage_bounded (run ev w).
Proof.
  intros Hdist Hinv Hub. destruct ev as [rss page clean sid now
    |rss req p year month now|rss req p now|sid due|now|rss1 rss2 now]; cbn [run].
  - rewrite get_captcha_unfold. destruct (over_mb 500 rss); [done|].
    destruct (get_driver_invariant w Hdist Hinv) as (_ & _ & _ & Hsp1).
    destruct (get_driver_usage w Hdist Hinv Hub) as (Hub1 & Hlt1).
    destruct (get_driver w) as [[d|e|] w1]; cbn [fst snd] in *; [|done..].
    destruct (Hsp1 d eq_refl) as (_ & _ & Hl). specialize (Hlt1 d eq_refl).
    destruct (captcha_image page) as [src|e0]; cbn [snd]; [done|].
    pose proof (release_driver_usage clean d w1 Hub1 Hl Hlt1) as Hrel.
    by destruct (release_driver clean d w1) as [[[]|e'|] w2].
  - destruct (get_timetable_steady rss req p year month now w)
      as (_ & _ & Hc & Hl).
    apply (usage_bounded_same w); [|done..].
    rewrite get_timetable_unfold. destruct (over_mb 500 rss); [done|].
    by destruct (drivers w !! tr_session_id req).
  - destruct (get_semester_weeks_globals rss req p now w)
      as ((_ & _ & Hc & Hl) & _ & Hu & _).
    by apply (usage_bounded_same w).
  - destruct (decide ((sid, due) ∈ timers w)) as [Hin|Hnin].
    2:{ by rewrite timer_wakes_idle. }
    destruct (timer_wakes_pending sid due w Hin) as (i & _ & ->).
    destruct (auto_release_driver_spec sid (with_timers (delete i) w))
      as (_ & _ & Hu & Hc & Hl & _).
    apply (usage_bounded_same w); [done|done| |done]. rewrite Hl. cbn. lia.
  - unfold cleanup_drivers.
    destruct (sweep_spec 300 now w) as (_ & Hu & _ & Hc & Hl & _).
    apply (usage_bounded_same w); [done|done|lia|done].
  - unfold monitor_memory. destruct (over_mb 400 rss1); [|done].
    destruct (sweep_spec 180 now w) as (_ & Hu & _ & Hc & Hl & _).
    assert (Hub1 : usage_bounded (sweep 180 now w)).
    { apply (usage_bounded_same w); [done|done|lia|done]. }
    destruct (over_mb 400 rss2 && _); [|done].
    destruct (shrink_spec (Nat.min 2 (length (driver_pool (sweep 180 now w))))
                (sweep 180 now w)) as (_ & _ & _ & Hu2 & _ & Hc2 & Hl2 & _).
    apply (usage_bounded_same (sweep 180 now w)); [done|done|lia|done].
Qed.

Lemma reachable_usage_bounded (feed : nat → result driver) (w : world) :
  distinct_launches feed → reachable feed w → usage_bounded w.
Proof.
  intros Hdist [evs ->]. induction evs as [|ev evs IH] using rev_ind.
  - unfold run_all, startup. cbn [foldl].
    change (POOL_SIZE - Nat.min POOL_SIZE 0)%nat with POOL_SIZE.
    destruct (fill_pool_spec POOL_SIZE (initial feed))
      as (k & -> & _); [simpl; lia|].
    split; cbn.
    + intros d. unfold usage. cbn. rewrite lookup_empty. cbn.
      unfold MAX_USAGE_PER_DRIVER. lia.
    + intros d Hd. cbn in Hd. rewrite lookup_empty in Hd. by destruct Hd.
  - rewrite run_all_snoc.
    destruct (reachable_invariant feed (run_all evs (startup feed)) Hdist)
      as [Hinv Hc]; [by exists evs|].
    apply run_usage_bounded; [by rewrite Hc|done|done].
Qed.

(** X25. Provided no two launches give the same browser, the ceiling on
    the uses of a browser holds in every state that the process can
    reach: no usage count is negative or above 15, a browser that is yet
    to be started has no usage on record, and the browser that
    [get_driver] hands out has fewer than 15 uses. *)
Theorem usage_never_exceeds_ceiling (feed : nat → result driver) (w : world) :
  distinct_launches feed → reachable feed w →
  (∀ d, 0 ≤ usage w d ≤ MAX_USAGE_PER_DRIVER) ∧
  fresh_launches w ∧
  ∀ d, (get_driver w).1 = Returns d →
       usage (get_driver w).2 d < MAX_USAGE_PER_DRIVER.
Proof.
  intros Hdist Hreach.
  pose proof (reachable_usage_bounded feed w Hdist Hreach) as Hub.
  destruct (reachable_invariant feed w Hdist Hreach) as [Hinv Hc].
  rewrite <-Hc in Hdist.
  destruct (get_driver_usage w Hdist Hinv Hub) as [_ Hlt].
  split_and!; [by destruct Hub|by apply usage_bounded_fresh|done].
Qed.

Lemma usage_never_exceeds_ceiling_witness :
  0 ≤ usage (run_all Samples.session_in_use (startup Samples.feed)) 100%nat
  ≤ MAX_USAGE_PER_DRIVER.
Proof.
  refine (proj1 (usage_never_exceeds_ceiling Samples.feed _ _ _) 100%nat).
  - intros i j d Hi Hj. unfold Samples.feed in *. simplify_eq. lia.
  - by exists Samples.session_in_use.
Defined.

End usage_ceiling.

(** ** The fields of an entry; who changes what *)

Section fallbacks.

Lemma or_else_empty (y : string) : or_else "" y = y.
Proof. reflexivity. Qed.

Lemma or_else_nonempty (x y : string) : x ≠ "" → or_else x y = x.
Proof. intros Hx. unfold or_else. by rewrite truthy_nonempty. Qed.

Lemma or_else_chain (a b c d e : string) :
  or_else (or_else (or_else (or_else a b) c) d) e
  = default e (head (nonempty [a; b; c; d])).
Proof.
  destruct (decide (a = "")) as [->|Ha].
  2:{ rewrite !(or_else_nonempty a) by done. by rewrite (nonempty_cons a). }
  rewrite or_else_empty, nonempty_cons_empty.
  destruct (decide (b = "")) as [->|Hb].
  2:{ rewrite !(or_else_nonempty b) by done. by rewrite (nonempty_cons b). }
  rewrite or_else_empty, nonempty_cons_empty.
  destruct (decide (c = "")) as [->|Hc].
  2:{ rewrite !(or_else_nonempty c) by done. by rewrite (nonempty_cons c). }
  rewrite or_else_empty, nonempty_cons_empty.
  destruct (decide (d = "")) as [->|Hd].
  2:{ rewrite !(or_else_nonempty d) by done. by rewrite (nonempty_cons d). }
  by rewrite or_else_empty, nonempty_cons_empty.
Qed.

(** X26. The id of an entry of a dataset is the first non-empty one among
    its fields [weekId], [id], [value] and [semId], in that order, and the
    empty string when there is none; its name is the first non-empty one
    among [weekName], [name], [text] and [semName], and the rendering of
    the whole entry when there is none. A missing field counts as an
    empty one. *)
Theorem val_name_first_nonempty (o : opt) :
  (val_name o).1
  = default "" (head (nonempty [get o "weekId"; get o "id"; get o "value";
                                get o "semId"])) ∧
  (val_name o).2
  = default (opt_str o)
      (head (nonempty [get o "weekName"; get o "name"; get o "text";
                       get o "semName"])) ∧
  (∀ k, opt_fields o !! k = None → get o k = "").
Proof.
  unfold val_name. cbn [fst snd]. rewrite !or_else_chain.
  split_and!; [done..|]. intros k Hk. unfold get. by rewrite Hk.
Qed.

End fallbacks.

Section who_changes_what.

Lemma get_driver_quitted (w : world) (d : driver) :
  d ∈ quitted w → d ∈ quitted (get_driver w).2.
Proof.
  intros Hq.
  assert (Hcheck : ∀ d0 w0, d ∈ quitted w0 → d ∈ quitted (check_usage d0 w0).2).
  { intros d0 w0 Hq0.
    destruct (decide (usage w0 d0 < MAX_USAGE_PER_DRIVER)) as [Hlt|Hge].
    - by rewrite check_usage_keep.
    - rewrite check_usage_replace by lia.
      destruct (create_driver_world (with_quitted (λ q, {[d0]} ∪ q) w0))
        as [k Hk].
      destruct (create_driver _) as [[d1|e1|] w2]; cbn [fst snd] in *;
        subst w2; cbn; by apply elem_of_union_r. }
  unfold get_driver, bind. destruct (driver_pool w) as [|d0 rest] eqn:Hpool.
  - rewrite take_or_create_empty by done.
    destruct (create_driver_world w) as [k Hk].
    destruct (create_driver w) as [[d1|e1|] w1]; cbn [fst snd] in *; subst w1;
      [by apply Hcheck|done..].
  - rewrite (take_or_create_pool w d0 rest) by done. by apply Hcheck.
Qed.

Lemma release_driver_quitted (clean : result unit) (d0 : driver) (w : world)
    (d : driver) :
  d ∈ quitted w → d ∈ quitted (release_driver clean d0 w).2.
Proof.
  intros Hq. unfold release_driver, try_except, bind, lift.
  destruct clean as [[]|e]; cbn.
  - unfold gets, modify, put. cbn. by case_bool_decide.
  - unfold quit, modify. cbn.
    destruct (create_driver_world (with_quitted (λ q, {[d0]} ∪ q) w)) as [k Hk].
    destruct (create_driver _) as [[d1|e1|] w2]; cbn [fst snd] in *; subst w2.
    + unfold put. cbn. case_bool_decide; cbn; by apply elem_of_union_r.
    + cbn. by apply elem_of_union_r.
    + cbn. by apply elem_of_union_r.
Qed.

Lemma run_quitted (ev : event) (w : world) (d : driver) :
  d ∈ quitted w → d ∈ quitted (run ev w).
Proof.
  intros Hq. destruct ev as [rss page clean sid now
    |rss req p year month now|rss req p now|sid due|now|rss1 rss2 now]; cbn [run].
  - rewrite get_captcha_unfold. destruct (over_mb 500 rss); [done|].
    pose proof (get_driver_quitted w d Hq) as Hq1.
    destruct (get_driver w) as [[d0|e|] w1]; cbn [fst snd] in *; [|done..].
    destruct (captcha_image page) as [src|e0]; [done|].
    pose proof (release_driver_quitted clean d0 w1 d Hq1) as Hq2.
    by destruct (release_driver clean d0 w1) as [[[]|e'|] w2].
  - rewrite get_timetable_unfold. destruct (over_mb 500 rss); [done|].
    by destruct (drivers w !! tr_session_id req).
  - destruct (get_semester_weeks_globals rss req p now w)
      as (_ & _ & _ & [[_ [->|(d0 & w1 & Hc & ->)]]|(sid & _ & ->)]);
      [done| |done].
    destruct (create_driver_world w) as [k Hk]. rewrite Hc in Hk.
    cbn in Hk. subst w1. cbn. by apply elem_of_union_r.
  - destruct (decide ((sid, due) ∈ timers w)) as [Hin|Hnin].
    2:{ by rewrite timer_wakes_idle. }
    destruct (timer_wakes_pending sid due w Hin) as (i & _ & ->).
    destruct (auto_release_driver_spec sid (with_timers (delete i) w))
      as (_ & _ & _ & _ & _ & _ & _ & ->).
    cbn. destruct (drivers w !! sid); [by apply elem_of_union_r|done].
  - unfold cleanup_drivers.
    destruct (sweep_spec 300 now w) as (_ & _ & _ & _ & _ & _ & _ & Hq').
    apply Hq'. by left.
  - unfold monitor_memory. destruct (over_mb 400 rss1); [|done].
    destruct (sweep_spec 180 now w) as (_ & _ & _ & _ & _ & _ & _ & Hq').
    assert (Hq1 : d ∈ quitted (sweep 180 now w)) by (apply Hq'; by left).
    destruct (over_mb 400 rss2 && _); [|done].
    destruct (shrink_spec (Nat.min 2 (length (driver_pool (sweep 180 now w))))
                (sweep 180 now w)) as (_ & _ & _ & _ & _ & _ & _ & ->).
    by apply elem_of_union_r.
Qed.

(** X27. Who changes what. A request handler never removes a session: a
    session that is registered stays so across every request, the failing
    ones included. A background thread (a timer, a turn of either sweep)
    never adds one, never starts a browser, never puts one in the pool and
    never touches a usage count: it only takes sessions and pooled
    browsers away. And [quit], once called on a browser, is never undone
    by any step. *)
Theorem handlers_add_daemons_remove (ev : event) (w : world) :
  (¬ daemon ev → ∀ sid, registered sid w → registered sid (run ev w)) ∧
  (daemon ev →
     (∀ sid d, drivers (run ev w) !! sid = Some d → drivers w !! sid = Some d) ∧
     (∀ d, d ∈ driver_pool (run ev w) → d ∈ driver_pool w) ∧
     launches (run ev w) = launches w) ∧
  (∀ d, d ∈ quitted w → d ∈ quitted (run ev w)).
Proof.
  split_and!.
  - intros Hhandler sid Hreg. unfold registered in *.
    destruct ev as [rss page clean sid' now
      |rss req p year month now|rss req p now|sid' due|now|rss1 rss2 now];
      cbn [run]; try (by destruct Hhandler).
    + rewrite get_captcha_unfold. destruct (over_mb 500 rss); [done|].
      destruct (get_driver_globals w) as (_ & Hd & _).
      destruct (get_driver w) as [[d|e|] w1]; cbn [fst snd] in *;
        [|by rewrite Hd..].
      destruct (captcha_image page) as [src|e0]; cbn [snd].
      * cbn. rewrite lookup_insert_is_Some, Hd.
        destruct (decide (sid' = sid)); [by left|by right].
      * destruct (release_driver_globals clean d w1) as (_ & Hd2 & _).
        destruct (release_driver clean d w1) as [[[]|e'|] w2];
          cbn [fst snd] in *; by rewrite Hd2, Hd.
    + by destruct (get_timetable_steady rss req p year month now w)
        as (_ & -> & _).
    + by destruct (get_semester_weeks_steady rss req p now w) as (_ & -> & _).
  - intros Hdaemon.
    destruct (daemon_shrinks ev w Hdaemon) as (Hp & Hd & _ & Hl).
    by split_and!.
  - apply run_quitted.
Qed.

End who_changes_what.
